(** * useCandyMachineV3: allow-list verifier, mint orchestrator, error classifier

    A shallow embedding of [src/hooks/useCandyMachineV3.tsx]:
    the [proofMemo] memo (lines 83-123) and the [mint] callback
    (lines 150-294), together with the pieces of JavaScript semantics the
    hook relies on (truthiness, [String.prototype.indexOf],
    [try]/[catch]/[finally] completions, [Promise.all]).

    Conventions of the embedding.
    - A JavaScript value that may be [undefined]/[null] is an [option].
    - Numbers that the hook only uses as counters or loop bounds are [Z];
      fractional quantities, [NaN] and infinities are not modelled.
    - Public keys are their base58 strings.
    - Object literals used as dictionaries are [gmap string _], the map of
      their own properties.  A read [o[k]] also finds what [o] inherits
      from [Object.prototype]; a statement that depends on [k] not being
      found there has [k ∉ JS.Object_prototype_keys] as a hypothesis.
    - The ledger client, the wallet adapter and the Metaplex builders are
      outside the repository: they are oracles collected in [Env], and the
      Merkle helpers are the interface [MerkleLib]. *)

From Stdlib Require Import ZArith Lia List Ascii String Bool.
From Stdlib Require Import Strings.Byte.
From Stdlib Require Import Sorting.Sorted.
From stdpp Require Import base option list gmap strings.

Local Open Scope string_scope.
Local Open Scope Z_scope.
Local Open Scope list_scope.

(** ** JavaScript preliminaries *)

Module JS.

(** [!!s] for a possibly-undefined string: [undefined] and the empty
    string are falsy. *)
Definition truthy_string (s : option string) : bool :=
  match s with
  | Some s => negb (String.eqb s "")
  | None => false
  end.

(** [!!n] for a number: only [0] is falsy (there is no NaN here). *)
Definition truthy_number (n : Z) : bool := negb (n =? 0).

(** [!!a] for an array: an object, truthy whatever its length. *)
Definition truthy_array {A} (a : list A) : bool := true.

(** [a || b] on strings. *)
Definition or_string (a : option string) (b : string) : string :=
  match a with
  | Some s => if String.eqb s "" then b else s
  | None => b
  end.

(** The properties of [Object.prototype].  A read [o[k]] of a plain object
    [o] that has no property [k] of its own finds them, each a truthy
    value; an assignment [o["__proto__"] = v] replaces the prototype of
    [o] and gives it no property of its own. *)
Definition Object_prototype_keys : list string :=
  ["constructor"; "__defineGetter__"; "__defineSetter__"; "hasOwnProperty";
   "__lookupGetter__"; "__lookupSetter__"; "isPrototypeOf";
   "propertyIsEnumerable"; "toString"; "valueOf"; "__proto__";
   "toLocaleString"].

(** [s.indexOf(sub)]: position of the first occurrence, [-1] if none. *)
Definition indexOf (s sub : string) : Z :=
  match String.index 0 sub s with
  | Some n => Z.of_nat n
  | None => -1
  end.

(** The fields of a thrown value that the hook inspects. *)
Record Error := mkError {
  msg : option string;
  message : option string;
  code : option Z
}.

(** [new Error(m)] *)
Definition newError (m : string) : Error :=
  {| msg := None; message := Some m; code := None |}.

(** Reading a property of [undefined]. *)
Definition TypeError (prop : string) : Error :=
  newError
    ("Cannot read properties of undefined (reading '" +:+ prop +:+ "')").

(** [error.code === n] *)
Definition code_is (e : Error) (n : Z) : bool :=
  match code e with
  | Some c => c =? n
  | None => false
  end.

(** Completion records of statements (ECMA-262, 6.2.4), for a function
    whose [return] values have type [R]. *)
Inductive Completion (R A : Type) : Type :=
| Normal (a : A)
| Throw (e : Error)
| Return (v : R).
Arguments Normal {R A} a.
Arguments Throw {R A} e.
Arguments Return {R A} v.

(** Settlement of the promise of an [async] function. *)
Inductive Promise (R : Type) : Type :=
| Fulfilled (v : option R)
| Rejected (e : Error).
Arguments Fulfilled {R} v.
Arguments Rejected {R} e.

Definition settle {R A} (c : Completion R A) : Promise R :=
  match c with
  | Normal _ => Fulfilled None
  | Throw e => Rejected e
  | Return v => Fulfilled (Some v)
  end.

End JS.
Import JS.

(** ** Error classifier (lines 267-286) *)

Module Messages.
Definition MintFailed := "Minting failed! Please try again!".
Definition Timeout := "Transaction Timeout! Please try again.".
Definition SoldOut := "SOLD OUT!".
Definition InsufficientFunds :=
  "Insufficient funds to mint. Please fund your wallet.".
Definition MintingPeriodNotStarted := "Minting period hasn't started yet.".
Definition UnknownGroup := "Unknown guard group label".
Definition CandyMachineNotLoaded := "Candy Machine not loaded yet!".
Definition NotInAllowList := "User is not in allowed list".
End Messages.

(** The body of the [catch] clause up to [console.error]: the user-facing
    message computed from the caught value.  The three [indexOf] tests are
    used as conditions exactly as the source writes them, so each is true
    when the position is not [0]. *)
Definition classify (error : Error) : string :=
  let message0 := or_string (msg error) Messages.MintFailed in
  if negb (truthy_string (msg error)) then
    if negb (truthy_string (message error)) then Messages.Timeout
    else
      let m := default "" (message error) in
      if truthy_number (indexOf m "0x138") then message0
      else if truthy_number (indexOf m "0x137") then Messages.SoldOut
      else if truthy_number (indexOf m "0x135") then Messages.InsufficientFunds
      else message0
  else
    if code_is error 311 then Messages.SoldOut
    else if code_is error 312 then Messages.MintingPeriodNotStarted
    else message0.

(** ** Allow-list index (lines 83-123) *)

Definition PublicKey := string.
Definition Bytes := list byte.

(** [Buffer.prototype.equals] *)
Fixpoint Buffer_equals (a b : Bytes) : bool :=
  match a, b with
  | [], [] => true
  | x :: a', y :: b' => Byte.eqb x y && Buffer_equals a' b'
  | _, _ => false
  end.

(** The [merkleRoot] argument of [verifyProof]: [Uint8Array | string]. *)
Inductive MerkleRoot :=
| RootBytes (b : Bytes)
| RootString (s : string).

(** [Buffer.from(merkleRoot)]; for a string, its bytes (ASCII range). *)
Definition Buffer_from (r : MerkleRoot) : Bytes :=
  match r with
  | RootBytes b => b
  | RootString s => list_byte_of_string s
  end.

(** The Merkle helpers [getMerkleTree] and [getMerkleProof] of
    [@metaplex-foundation/js] and [MerkleTree.getRoot] of [merkletreejs]
    are imported by the hook and are not part of the repository.

    Modelled from the spec: the one law, [getMerkleProof_absent], is
    section 4.1, "empty sequence if address absent (signals
    non-membership)". *)
Class MerkleLib := {
  MerkleTree : Type;
  getMerkleTree : list string -> MerkleTree;
  getRoot : MerkleTree -> Bytes;
  getMerkleProof : list string -> string -> list Bytes;
  getMerkleProof_absent :
    forall (l : list string) (a : string), a ∉ l -> getMerkleProof l a = []
}.

(** An entry of [candyMachineOpts.allowLists] ([AllowLists] of
    [./types], a type declaration outside [src/]). *)
Record AllowList := {
  groupLabel : string;
  addresses : list string      (* the field [list] *)
}.

Section AllowListIndex.
Context `{ML : MerkleLib}.

(** A value of the [merkles] dictionary. *)
Record Merkle := {
  tree : MerkleTree;
  proof : list Bytes
}.

(** The object returned by the memo: [merkles] is present in the third
    branch only. [verifyProof] returns [true], [false] or [undefined]. *)
Record ProofMemo := {
  merkles : option (gmap string Merkle);
  verifyProof : MerkleRoot -> option string -> option bool
}.

(** [!candyMachineOpts.allowLists?.length] *)
Definition no_allowLists (allowLists : option (list AllowList)) : bool :=
  match allowLists with
  | None => true
  | Some ls => negb (truthy_number (Z.of_nat (length ls)))
  end.

(** The reducer of lines 99-108: [Object.assign(prev, {[groupLabel]: ...})],
    for a [groupLabel] other than ["__proto__"]. *)
Definition addMerkle (publicKey : PublicKey)
    (prev : gmap string Merkle) (al : AllowList) : gmap string Merkle :=
  <[groupLabel al := {| tree := getMerkleTree (addresses al);
                        proof := getMerkleProof (addresses al) publicKey |}]>
    prev.

Definition buildMerkles (allowLists : list AllowList) (publicKey : PublicKey)
  : gmap string Merkle :=
  foldl (addMerkle publicKey) ∅ allowLists.

(** Lines 109-118, for a label that is a property of [merkles] itself or
    is not found at all (see [JS.Object_prototype_keys]). *)
Definition verifyProof_merkles (ms : gmap string Merkle)
    (merkleRoot : MerkleRoot) (label : option string) : option bool :=
  let label := default "default" label in
  match ms !! label with
  | None => None
  | Some merkle =>
      let verifiedProof := truthy_array (proof merkle) in
      let compareRoot :=
        Buffer_equals (getRoot (tree merkle)) (Buffer_from merkleRoot) in
      Some (verifiedProof && compareRoot)
  end.

(** The [React.useMemo] callback of lines 83-123, as a function of the
    values it reads.  The hook runs it on the renders where a dependency
    of line 123 changed and keeps its value otherwise: see [renders]
    below.  A map [ms] holds the own properties of [merkles]. *)
Definition proofMemo (allowLists : option (list AllowList))
    (wallet_publicKey : option PublicKey) : ProofMemo :=
  if no_allowLists allowLists then
    {| merkles := None; verifyProof := fun _ _ => Some true |}
  else
    match wallet_publicKey with
    | None => {| merkles := None; verifyProof := fun _ _ => Some false |}
    | Some publicKey =>
        let ms := buildMerkles (default [] allowLists) publicKey in
        {| merkles := Some ms; verifyProof := verifyProof_merkles ms |}
    end.

End AllowListIndex.

(** ** The memo across renders (line 123) *)

(** [wallet.publicKey] is an object, and [React.useMemo] compares the
    dependencies of two renders with [Object.is]: objects by identity,
    numbers and [undefined] by value.  [key_ref] is the identity of the
    object, [key_value] the key it holds. *)
Record KeyObject := {
  key_ref : nat;
  key_value : PublicKey
}.

(** What one render of the hook reads for the memo. *)
Record Props := {
  props_allowLists : option (list AllowList);   (* candyMachineOpts *)
  props_publicKey : option KeyObject            (* wallet.publicKey *)
}.

(** The dependency array
    [[wallet.publicKey, candyMachineOpts.allowLists?.length]]. *)
Definition proofMemoDeps (p : Props) : option nat * option nat :=
  (key_ref <$> props_publicKey p, length <$> props_allowLists p).

Section Memo.
Context `{ML : MerkleLib}.

(** What [useMemo] keeps between renders. *)
Record MemoCell := {
  cell_deps : option nat * option nat;
  cell_value : ProofMemo
}.

(** A run of the callback. *)
Definition computeProofMemo (p : Props) : MemoCell :=
  {| cell_deps := proofMemoDeps p;
     cell_value := proofMemo (props_allowLists p)
                     (key_value <$> props_publicKey p) |}.

(** [React.useMemo(callback, deps)] on one render: the callback runs on
    the first render and when a dependency differs from the previous
    render's; otherwise the kept value is returned. *)
Definition useMemo_proofMemo (cell : option MemoCell) (p : Props) : MemoCell :=
  match cell with
  | None => computeProofMemo p
  | Some c =>
      if bool_decide (cell_deps c = proofMemoDeps p) then c
      else computeProofMemo p
  end.

(** The memo after a sequence of renders of the mounted hook, oldest
    first. *)
Definition renders (history : list Props) : option MemoCell :=
  foldl (fun cell p => Some (useMemo_proofMemo cell p)) None history.

End Memo.

(** ** Data model of the mint orchestrator *)

(** The fields of [CandyMachine] that [mint] reads. *)
Record CandyMachine := {
  address : PublicKey;
  authorityAddress : PublicKey
}.

(** [GuardGroup] is declared in [./types], outside [src/]; these are the
    fields the hook and the claims refer to.  A [mintCounter] is a mutable
    object shared by reference: it is a location of the [heap] that holds
    its [count]. *)
Definition loc := nat.

Record MintLimitLogics := {
  mintCounter : option loc
}.

Record GuardGroup := {
  allowList : option Bytes;             (* merkle root of the guard *)
  mintLimit : option MintLimitLogics
}.

(** [NftPaymentMintSettings] of [./types]: the NFT picked for each of the
    three NFT guards, by its mint address. *)
Record NftPaymentMintSettings := {
  burn : option PublicKey;
  payment : option PublicKey;
  gate : option PublicKey
}.

(** The [opts] argument of [mint]. *)
Record MintOpts := {
  opts_groupLabel : option string;
  nftGuards : option (list NftPaymentMintSettings)
}.

(** The object [{ proof: ... }] of line 162. *)
Record AllowListSettings := {
  settings_proof : list Bytes
}.

(** Arguments of [callCandyGuardRouteBuilder] (lines 181-190). *)
Record RouteParams := {
  route_candyMachine : CandyMachine;
  route_guard : string;
  route_group : option string;
  route_path : string;
  route_merkleProof : list Bytes
}.

(** Arguments of [mintFromCandyMachineBuilder] (lines 195-205). *)
Record MintGuards := {
  nftBurn : option PublicKey;
  nftPayment : option PublicKey;
  nftGate : option PublicKey;
  guards_allowList : option AllowListSettings
}.

Record MintParams := {
  mint_candyMachine : CandyMachine;
  collectionUpdateAuthority : PublicKey;
  mint_group : option string;
  guards : MintGuards
}.

Inductive Instruction :=
| RouteIx (p : RouteParams)
| MintIx (p : MintParams).

(** The signer shapes told apart by lines 218-221. *)
Inductive Signer :=
| IdentitySigner (publicKey : PublicKey)   (* has [signAllTransactions] *)
| KeypairSigner (publicKey : PublicKey)    (* has [secretKey] *)
| WrappedSigner (publicKey : PublicKey)    (* has [_signer] *)
| OtherSigner (publicKey : PublicKey).     (* none of the three *)

Record MintContext := {
  mintSigner : PublicKey;
  tokenAddress : PublicKey
}.

(** A [TransactionBuilder]: the call that made it, and what the library
    attached to it. *)
Record TransactionBuilder := {
  tb_instruction : Instruction;
  tb_feePayer : option PublicKey;
  tb_signers : list Signer;             (* [getSigners()] *)
  tb_context : option MintContext       (* [getContext()] *)
}.

Record BlockhashWithExpiryBlockHeight := {
  blockhash : string;
  lastValidBlockHeight : Z
}.

Record Transaction := {
  tx_instruction : Instruction;
  feePayer : option PublicKey;
  recentBlockhash : option string;
  tx_lastValidBlockHeight : option Z;
  signatures : list PublicKey
}.

Inductive Commitment := processed | finalized.

(** A minted item, an opaque identifier. *)
Definition Nft := string.

(** An element of [output] (lines 241-244). *)
Record Output := {
  out_signature : string;
  out_context : option MintContext
}.

(** What the outside world answers.  [mintFromCandyMachineBuilder] is
    asked once per request index. *)
Record Env := {
  identity : option PublicKey;
  routeSigners : RouteParams -> list Signer;
  mintBuilder : nat -> MintParams -> Error + (list Signer * MintContext);
  getLatestBlockhash : Error + BlockhashWithExpiryBlockHeight;
  signAllTransactions : PublicKey -> list Transaction -> option Error;
  sendAndConfirmTransaction : Transaction -> Commitment -> Error + string;
  findByMint : MintContext -> Error + Nft
}.

(** What a mint call does to the outside world, in order. *)
Inductive Event :=
| SetMinting (b : bool)
| MintBuilderCall (index : nat) (p : MintParams)
| GetLatestBlockhash
| SignAllTransactions (publicKey : PublicKey) (txs : list Transaction)
| SendAndConfirm (tx : Transaction) (c : Commitment) (confirmed : bool)
| FindByMint (ctx : MintContext) (found : bool)
| ConsoleError (e : Error)
| Refresh.

(** ** Effects *)

(** Network code: the events it causes, then a value or a thrown error. *)
Definition IO (A : Type) : Type := list Event * (Error + A).

Module IO.
Definition ret {A} (a : A) : IO A := ([], inr a).
Definition throw {A} (e : Error) : IO A := ([], inl e).
Definition emit (ev : Event) : IO unit := ([ev], inr tt).
Definition bind {A B} (m : IO A) (k : A -> IO B) : IO B :=
  match m with
  | (t, inl e) => (t, inl e)
  | (t, inr a) => let '(t', r) := k a in (t ++ t', r)
  end.
Definition lift {A} (r : Error + A) : IO A := ([], r).
End IO.

Notation "'let*' x ':=' m 'in' k" := (IO.bind m (fun x => k))
  (at level 10, x pattern, m at level 100, k at level 200).

(** Whether an awaited call resolved. *)
Definition succeeded {A} (r : Error + A) : bool :=
  match r with
  | inl _ => false
  | inr _ => true
  end.

(** [Promise.all]: the values in order, or a rejection.  Of several
    rejections the one of lowest index is taken (the run time takes the
    earliest to settle). *)
Fixpoint Promise_all {A} (rs : list (Error + A)) : Error + list A :=
  match rs with
  | [] => inr []
  | inl e :: _ => inl e
  | inr a :: rest =>
      match Promise_all rest with
      | inl e => inl e
      | inr l => inr (a :: l)
      end
  end.

(** One activation of [mint]: the outside world it acts on ([trace],
    [heap]) and its mutable local [nfts]. *)
Record St := {
  trace : list Event;
  heap : gmap loc Z;
  nfts : list (option Nft)
}.

Definition Stmt (A : Type) : Type := St -> Completion (list Nft) A * St.

Module Stmt.
Definition ret {A} (a : A) : Stmt A := fun s => (Normal a, s).
Definition throw {A} (e : Error) : Stmt A := fun s => (Throw e, s).
Definition return_ {A} (v : list Nft) : Stmt A := fun s => (Return v, s).
Definition bind {A B} (m : Stmt A) (k : A -> Stmt B) : Stmt B :=
  fun s =>
    match m s with
    | (Normal a, s') => k a s'
    | (Throw e, s') => (Throw e, s')
    | (Return v, s') => (Return v, s')
    end.
Definition get : Stmt St := fun s => (Normal s, s).
Definition emit (ev : Event) : Stmt unit :=
  fun s => (Normal tt,
            {| trace := trace s ++ [ev]; heap := heap s; nfts := nfts s |}).
Definition set_nfts (v : list (option Nft)) : Stmt unit :=
  fun s => (Normal tt, {| trace := trace s; heap := heap s; nfts := v |}).
Definition set_heap (h : gmap loc Z) : Stmt unit :=
  fun s => (Normal tt, {| trace := trace s; heap := h; nfts := nfts s |}).
Definition liftIO {A} (m : IO A) : Stmt A :=
  fun s =>
    let s' := {| trace := trace s ++ fst m; heap := heap s; nfts := nfts s |} in
    match snd m with
    | inl e => (Throw e, s')
    | inr a => (Normal a, s')
    end.

(** [try body catch (e) handler(e) finally fin] (ECMA-262, 14.15.3):
    an abrupt completion of [fin] replaces whatever came before it. *)
Definition try_catch_finally {A} (body : Stmt A) (handler : Error -> Stmt A)
    (fin : Stmt unit) : Stmt A :=
  fun s =>
    let '(b, s1) := body s in
    let '(c, s2) := match b with
                    | Throw e => handler e s1
                    | _ => (b, s1)
                    end in
    match fin s2 with
    | (Normal _, s3) => (c, s3)
    | (Throw e, s3) => (Throw e, s3)
    | (Return v, s3) => (Return v, s3)
    end.
End Stmt.

Notation "'do*' x ':=' m 'in' k" := (Stmt.bind m (fun x => k))
  (at level 10, x pattern, m at level 100, k at level 200).

(** ** The mint callback (lines 150-294) *)

Section Mint.
Context `{ML : MerkleLib}.

(** The values the callback closes over. *)
Variable env : Env.
Variable allowLists : option (list AllowList).   (* candyMachineOpts *)
Variable wallet_publicKey : option PublicKey.
Variable candyMachine : option CandyMachine.
Variable guardsAndGroups : gmap string GuardGroup.

(** [opts.groupLabel || "default"] *)
Definition labelOrDefault (opts : MintOpts) : string :=
  or_string (opts_groupLabel opts) "default".

(** Lines 161-164, outside the [try], as a function of the memo that the
    callback closes over.  With a truthy label the expression reads
    [proofMemo.merkles[...]], which throws when the memo has no
    [merkles]. *)
Definition allowListFrom (memo : ProofMemo) (opts : MintOpts)
  : Error + option AllowListSettings :=
  if truthy_string (opts_groupLabel opts) then
    let label := default "" (opts_groupLabel opts) in
    match merkles memo with
    | None => inl (TypeError label)
    | Some ms =>
        match ms !! label with
        | None => inr None
        | Some merkle => inr (Some {| settings_proof := proof merkle |})
        end
    end
  else inr None.

(** The same for the memo computed from [allowLists] and the wallet. *)
Definition allowListOf (opts : MintOpts) : Error + option AllowListSettings :=
  allowListFrom (proofMemo allowLists wallet_publicKey) opts.

(** [callCandyGuardRouteBuilder(mx, params)] *)
Definition callCandyGuardRouteBuilder (p : RouteParams) : TransactionBuilder :=
  {| tb_instruction := RouteIx p;
     tb_feePayer := identity env;
     tb_signers := routeSigners env p;
     tb_context := None |}.

(** [await mintFromCandyMachineBuilder(mx, params)], the call of request
    [index]. *)
Definition mintFromCandyMachineBuilder (index : nat) (p : MintParams)
  : IO TransactionBuilder :=
  let* _ := IO.emit (MintBuilderCall index p) in
  match mintBuilder env index p with
  | inl e => IO.throw e
  | inr (signers, ctx) =>
      IO.ret {| tb_instruction := MintIx p;
                tb_feePayer := identity env;
                tb_signers := signers;
                tb_context := Some ctx |}
  end.

(** Lines 176-192: the optional leading route builder. *)
Definition routePart (cm : CandyMachine) (opts : MintOpts)
    (allowList : option AllowListSettings) : Error + list TransactionBuilder :=
  match allowList with
  | None => inr []
  | Some _ =>
      match merkles (proofMemo allowLists wallet_publicKey)
            ≫= (fun ms => ms !! labelOrDefault opts) with
      | None => inl (TypeError "proof")
      | Some merkle =>
          if negb (truthy_number (Z.of_nat (length (proof merkle)))) then
            inl (newError Messages.NotInAllowList)
          else
            inr [callCandyGuardRouteBuilder
                   {| route_candyMachine := cm;
                      route_guard := "allowList";
                      route_group := opts_groupLabel opts;
                      route_path := "proof";
                      route_merkleProof := proof merkle |}]
      end
  end.

(** [opts.nftGuards && opts.nftGuards[index]?.field] *)
Definition nftGuardAt (opts : MintOpts) (index : nat)
    (field : NftPaymentMintSettings -> option PublicKey) : option PublicKey :=
  match nftGuards opts with
  | None => None
  | Some gs => gs !! index ≫= field
  end.

(** The argument of the mint builder of request [index] (lines 196-204). *)
Definition mintParams (cm : CandyMachine) (opts : MintOpts)
    (allowList : option AllowListSettings) (index : nat) : MintParams :=
  {| mint_candyMachine := cm;
     collectionUpdateAuthority := authorityAddress cm;
     mint_group := opts_groupLabel opts;
     guards := {| nftBurn := nftGuardAt opts index burn;
                  nftPayment := nftGuardAt opts index payment;
                  nftGate := nftGuardAt opts index gate;
                  guards_allowList := allowList |} |}.

(** The loop of lines 193-207 over the remaining indices. *)
Fixpoint mintLoop (cm : CandyMachine) (opts : MintOpts)
    (allowList : option AllowListSettings) (indices : list nat)
    (transactionBuilders : list TransactionBuilder)
  : IO (list TransactionBuilder) :=
  match indices with
  | [] => IO.ret transactionBuilders
  | index :: rest =>
      let* t := mintFromCandyMachineBuilder index
                  (mintParams cm opts allowList index) in
      mintLoop cm opts allowList rest (transactionBuilders ++ [t])
  end.

(** Lines 175-207: the transaction plan.  The loop runs while
    [index < quantityString]: for an integer, [Z.to_nat quantityString]
    times, none when it is negative. *)
Definition buildPlan (cm : CandyMachine) (quantityString : Z)
    (opts : MintOpts) (allowList : option AllowListSettings)
  : IO (list TransactionBuilder) :=
  let* transactionBuilders := IO.lift (routePart cm opts allowList) in
  mintLoop cm opts allowList (seq 0 (Z.to_nat quantityString))
    transactionBuilders.

(** [await mx.rpc().getLatestBlockhash()] *)
Definition rpc_getLatestBlockhash : IO BlockhashWithExpiryBlockHeight :=
  ([GetLatestBlockhash], getLatestBlockhash env).

(** [t.toTransaction(blockhash)] *)
Definition toTransaction (bh : BlockhashWithExpiryBlockHeight)
    (t : TransactionBuilder) : Transaction :=
  {| tx_instruction := tb_instruction t;
     feePayer := tb_feePayer t;
     recentBlockhash := Some (blockhash bh);
     tx_lastValidBlockHeight := Some (lastValidBlockHeight bh);
     signatures := [] |}.

(** [tx.partialSign(s)] *)
Definition partialSign (publicKey : PublicKey) (tx : Transaction) : Transaction :=
  {| tx_instruction := tx_instruction tx;
     feePayer := feePayer tx;
     recentBlockhash := recentBlockhash tx;
     tx_lastValidBlockHeight := tx_lastValidBlockHeight tx;
     signatures := signatures tx ++ [publicKey] |}.

(** [signers[key] = s]: the keys of the dictionary, in insertion order. *)
Definition dict_set (key : PublicKey) (signers : list PublicKey)
  : list PublicKey :=
  if bool_decide (key ∈ signers) then signers else signers ++ [key].

(** The inner [forEach] of lines 217-222, for one signer. *)
Definition collectSigner (acc : list PublicKey * Transaction) (s : Signer)
  : list PublicKey * Transaction :=
  let '(signers, tx) := acc in
  match s with
  | IdentitySigner pk => (dict_set pk signers, tx)
  | KeypairSigner pk => (signers, partialSign pk tx)
  | WrappedSigner pk => (signers, partialSign pk tx)
  | OtherSigner _ => (signers, tx)
  end.

(** Lines 215-216. *)
Definition assignPayerAndBlockhash (bh : BlockhashWithExpiryBlockHeight)
    (tx : Transaction) : Transaction :=
  {| tx_instruction := tx_instruction tx;
     feePayer := wallet_publicKey;
     recentBlockhash := Some (blockhash bh);
     tx_lastValidBlockHeight := tx_lastValidBlockHeight tx;
     signatures := signatures tx |}.

(** [transactionBuilders[i].getSigners()]; [i] is always in range, the
    transactions being the image of the builders. *)
Definition getSignersAt (transactionBuilders : list TransactionBuilder)
    (i : nat) : list Signer :=
  match transactionBuilders !! i with
  | Some t => tb_signers t
  | None => []
  end.

(** The outer [forEach] of lines 214-223, from index [i] on. *)
Fixpoint forEachTransaction (bh : BlockhashWithExpiryBlockHeight)
    (transactionBuilders : list TransactionBuilder) (i : nat)
    (transactions : list Transaction) (signers : list PublicKey)
  : list PublicKey * list Transaction :=
  match transactions with
  | [] => (signers, [])
  | tx :: rest =>
      let '(signers1, tx1) :=
        foldl collectSigner (signers, assignPayerAndBlockhash bh tx)
          (getSignersAt transactionBuilders i) in
      let '(signers2, rest2) :=
        forEachTransaction bh transactionBuilders (S i) rest signers1 in
      (signers2, tx1 :: rest2)
  end.

(** Lines 226-228.  The hook drops the array that [signAllTransactions]
    resolves to and later sends [transactions], so what the wallet does
    is visible only as signatures put on those same objects. *)
Fixpoint signLoop (signers : list PublicKey) (transactions : list Transaction)
  : IO (list Transaction) :=
  match signers with
  | [] => IO.ret transactions
  | signer :: rest =>
      let* _ := IO.emit (SignAllTransactions signer transactions) in
      match signAllTransactions env signer transactions with
      | Some e => IO.throw e
      | None => signLoop rest (map (partialSign signer) transactions)
      end
  end.

(** [await mx.rpc().sendAndConfirmTransaction(tx, { commitment })] *)
Definition rpc_sendAndConfirmTransaction (tx : Transaction) (c : Commitment)
  : IO string :=
  let r := sendAndConfirmTransaction env tx c in
  ([SendAndConfirm tx c (succeeded r)], r).

(** Lines 229-235. [shift] on both arrays, then the route submission. *)
Definition submitRoute (allowList : option AllowListSettings)
    (signedTransactions : list Transaction)
    (transactionBuilders : list TransactionBuilder)
  : IO (list Transaction * list TransactionBuilder) :=
  match allowList with
  | None => IO.ret (signedTransactions, transactionBuilders)
  | Some _ =>
      match signedTransactions with
      | [] => IO.throw (TypeError "serialize")
      | allowListCallGuardRouteTx :: rest =>
          let* _ := rpc_sendAndConfirmTransaction
                      allowListCallGuardRouteTx processed in
          IO.ret (rest, tail transactionBuilders)
      end
  end.

(** One element of the [map] of lines 237-245: the submission, and what
    its promise settles to. *)
Definition submitMint (transactionBuilders : list TransactionBuilder)
    (i : nat) (tx : Transaction) : Event * (Error + Output) :=
  let r := sendAndConfirmTransaction env tx finalized in
  (SendAndConfirm tx finalized (succeeded r),
   match r with
   | inl e => inl e
   | inr sig =>
       match transactionBuilders !! i with
       | Some t => inr {| out_signature := sig; out_context := tb_context t |}
       | None => inl (TypeError "getContext")
       end
   end).

(** Lines 236-246: every submission is started, then all are awaited. *)
Definition submitMints (transactionBuilders : list TransactionBuilder)
    (signedTransactions : list Transaction) : IO (list Output) :=
  let started := imap (submitMint transactionBuilders) signedTransactions in
  (started.*1, Promise_all started.*2).

(** Lines 247-257: the lookups; [.catch((e) => null)] turns a failed
    lookup into an absent slot. *)
Fixpoint lookupAll (output : list Output) : IO (list (option Nft)) :=
  match output with
  | [] => IO.ret []
  | o :: rest =>
      match out_context o with
      | None => IO.throw (TypeError "mintSigner")
      | Some context =>
          let r := findByMint env context in
          let* _ := IO.emit (FindByMint context (succeeded r)) in
          let* found := lookupAll rest in
          IO.ret (match r with inl _ => None | inr nft => Some nft end :: found)
      end
  end.

(** Lines 175-257, everything in the [try] block that talks to the
    outside world, up to the assignment of [nfts]. *)
Definition network (cm : CandyMachine) (quantityString : Z)
    (opts : MintOpts) (allowList : option AllowListSettings)
  : IO (list (option Nft)) :=
  let* transactionBuilders := buildPlan cm quantityString opts allowList in
  let* bh := rpc_getLatestBlockhash in
  let transactions := map (toTransaction bh) transactionBuilders in
  let '(signers, transactions) :=
    forEachTransaction bh transactionBuilders 0 transactions [] in
  let* transactions := signLoop signers transactions in
  let* (signedTransactions, transactionBuilders) :=
    submitRoute allowList transactions transactionBuilders in
  let* output := submitMints transactionBuilders signedTransactions in
  lookupAll output.

(** [guards.mintLimit?.mintCounter] *)
Definition counterOf (guards : GuardGroup) : option loc :=
  mintLimit guards ≫= mintCounter.

(** The callback of lines 258-261 for one group; [n] is [nfts.length]. *)
Definition bump (n : Z) (h : gmap loc Z) (guards : GuardGroup) : gmap loc Z :=
  match counterOf guards with
  | Some c => <[c := default 0 (h !! c) + n]> h
  | None => h
  end.

(** [Object.values]; the order is immaterial to [bump]. *)
Definition Object_values (g : gmap string GuardGroup) : list GuardGroup :=
  (map_to_list g).*2.

(** The [try] block (lines 168-261). *)
Definition tryBlock (quantityString : Z) (opts : MintOpts)
    (allowList : option AllowListSettings) : Stmt unit :=
  match candyMachine with
  | None => Stmt.throw (newError Messages.CandyMachineNotLoaded)
  | Some cm =>
      do* _ := Stmt.emit (SetMinting true) in
      do* found := Stmt.liftIO (network cm quantityString opts allowList) in
      do* _ := Stmt.set_nfts found in
      do* s := Stmt.get in
      Stmt.set_heap
        (foldl (bump (Z.of_nat (length (nfts s)))) (heap s)
           (Object_values guardsAndGroups))
  end.

(** The [catch] clause (lines 267-286). *)
Definition catchClause (error : Error) : Stmt unit :=
  let message := classify error in
  do* _ := Stmt.emit (ConsoleError error) in
  Stmt.throw (newError message).

(** The [finally] clause (lines 287-291). *)
Definition finallyClause : Stmt unit :=
  do* _ := Stmt.emit (SetMinting false) in
  do* _ := Stmt.emit Refresh in
  do* s := Stmt.get in
  Stmt.return_ (omap id (nfts s)).

(** The body of the callback.  [quantityString] defaults to [1];
    [guardsAndGroups] holds the own properties of the object, and
    [allowLists] are the allow-lists that the memo was computed from. *)
Definition mint_body (quantityString : option Z) (opts : MintOpts) : Stmt unit :=
  let quantityString := default 1 quantityString in
  if negb (bool_decide (is_Some (guardsAndGroups !! labelOrDefault opts)))
  then Stmt.throw (newError Messages.UnknownGroup)
  else
    match allowListOf opts with
    | inl e => Stmt.throw e
    | inr allowList =>
        do* _ := Stmt.set_nfts [] in
        Stmt.try_catch_finally
          (tryBlock quantityString opts allowList)
          catchClause
          finallyClause
    end.

(** The callback: the promise it settles to and the state it leaves. *)
Definition mint (quantityString : option Z) (opts : MintOpts) (s : St)
  : Promise (list Nft) * St :=
  let '(c, s') := mint_body quantityString opts s in (settle c, s').

End Mint.

(** ** Token holdings (lines 60-69) *)

(** [Token] of [./types] and the fields of [Metadata] that the hook
    reads. *)
Record Token := {
  token_mint : PublicKey;     (* the field [mint] *)
  balance : Z;
  decimals : Z
}.

Record Metadata := {
  md_address : PublicKey;     (* the field [address] *)
  md_model : string
}.

(** [!a?.length] *)
Definition no_length {A} (a : option (list A)) : bool :=
  match a with
  | None => true
  | Some l => negb (truthy_number (Z.of_nat (length l)))
  end.

(** [!a.find(p)]: the found element is an object, hence truthy. *)
Definition not_found {A} (p : A -> bool) (a : list A) : bool :=
  match List.find p a with
  | Some _ => false
  | None => true
  end.

(** The memo of lines 64-69. *)
Definition tokenHoldings (nftHoldings : option (list Metadata))
    (allTokens : option (list Token)) : list Token :=
  if no_length nftHoldings || no_length allTokens then []
  else
    List.filter
      (fun x =>
         not_found (fun y => String.eqb (token_mint x) (md_address y))
           (default [] nftHoldings))
      (default [] allTokens).

(** ** The wallet's NFTs and tokens (lines 309-330) *)

(** [x.filter((a) => a.model == "metadata")], what [setNftHoldings]
    receives. *)
Definition metadataOnly (x : list Metadata) : list Metadata :=
  List.filter (fun a => String.eqb (md_model a) "metadata") x.

(** The fields read of an entry of [getParsedTokenAccountsByOwner]:
    [account.data.parsed.info.mint] and [.tokenAmount]. *)
Record ParsedTokenAccount := {
  info_mint : string;
  tokenAmount_amount : string;
  tokenAmount_decimals : Z
}.

(** [a.map(f)] with a callback that may throw: the first throw ends
    it. *)
Fixpoint Array_map {A B} (f : A -> Error + B) (a : list A) : Error + list B :=
  match a with
  | [] => inr []
  | x :: rest =>
      match f x with
      | inl e => inl e
      | inr y =>
          match Array_map f rest with
          | inl e => inl e
          | inr ys => inr (y :: ys)
          end
      end
  end.

Section TokenAccounts.
(** [parseInt], with [None] for [NaN], and [new PublicKey], which throws
    on a string that is no key. *)
Variable parseInt : string -> option Z.
Variable newPublicKey : string -> Error + PublicKey.

(** [n > 1]; a comparison with [NaN] is false. *)
Definition gt_one (n : option Z) : bool :=
  match n with
  | Some v => 1 <? v
  | None => false
  end.

(** The object literal of lines 325-329.  The amount is parsed a second
    time; the entries that line 322 keeps have a number there. *)
Definition toToken (x : ParsedTokenAccount) : Error + Token :=
  match newPublicKey (info_mint x) with
  | inl e => inl e
  | inr key =>
      inr {| token_mint := key;
             balance := default 0 (parseInt (tokenAmount_amount x));
             decimals := tokenAmount_decimals x |}
  end.

(** The function of lines 317-330, applied to what the request answered;
    [setAllTokens] receives its result when it is fulfilled. *)
Definition fetchTokens (response : Error + list ParsedTokenAccount)
  : Error + list Token :=
  match response with
  | inl e => inl e
  | inr value =>
      let tokenAccounts :=
        List.filter (fun x => gt_one (parseInt (tokenAmount_amount x))) value in
      Array_map toToken tokenAccounts
  end.

End TokenAccounts.

(** ** Prices and guard states (lines 378-413) *)

(** [Object.entries]; the order is immaterial below, every key being
    assigned once. *)
Definition Object_entries {V} (g : gmap string V) : list (string * V) :=
  map_to_list g.

(** The argument of [parseGuardStates] (lines 403-409). *)
Record GuardStatesArgs := {
  gs_guards : GuardGroup;
  gs_candyMachine : option CandyMachine;
  gs_walletAddress : option PublicKey;
  gs_tokenHoldings : list Token;
  gs_balance : Z
}.

Section Derived.
(** [guardToPaymentUtil] and [parseGuardStates] are in [./utils], outside
    [src/], as are their result types. *)
Variables ParsedPricesForUI GuardGroupStates : Type.
Variable guardToPaymentUtil : GuardGroup -> ParsedPricesForUI.
Variable parseGuardStates : GuardStatesArgs -> GuardGroupStates.

(** The memo of lines 378-394. *)
Definition prices (guardsAndGroups : gmap string GuardGroup)
  : gmap string ParsedPricesForUI :=
  foldl (fun groupPayments entry =>
           <[fst entry := guardToPaymentUtil (snd entry)]> groupPayments)
    ∅ (Object_entries guardsAndGroups).

(** The memo of lines 396-413. *)
Definition guardStates (candyMachine : option CandyMachine)
    (wallet_publicKey : option PublicKey) (tokenHoldings : list Token)
    (balance : Z) (guardsAndGroups : gmap string GuardGroup)
  : gmap string GuardGroupStates :=
  foldl (fun groupPayments entry =>
           <[fst entry :=
               parseGuardStates
                 {| gs_guards := snd entry;
                    gs_candyMachine := candyMachine;
                    gs_walletAddress := wallet_publicKey;
                    gs_tokenHoldings := tokenHoldings;
                    gs_balance := balance |}]> groupPayments)
    ∅ (Object_entries guardsAndGroups).

End Derived.

Arguments prices {ParsedPricesForUI} _ _.
Arguments guardStates {GuardGroupStates} _ _ _ _ _ _.

(** ** The guard groups effect (lines 339-376) *)

(** [candyMachine.candyGuard], over the library's type of guard sets. *)
Record CandyGuardGroup (Guards : Type) := {
  group_label : string;
  group_guards : Guards
}.
Arguments group_label {Guards} _.
Arguments group_guards {Guards} _.

Record CandyGuard (Guards : Type) := {
  candyGuard_guards : Guards;
  candyGuard_groups : list (CandyGuardGroup Guards)
}.
Arguments candyGuard_guards {Guards} _.
Arguments candyGuard_groups {Guards} _.

(** The first argument of [parseGuardGroup] (lines 349-355, 362-369). *)
Record ParseGuardGroupArgs (Guards : Type) := {
  pg_guards : Guards;
  pg_label : option string;
  pg_candyMachine : CandyMachine;
  pg_nftHoldings : list Metadata;
  pg_verifyProof : MerkleRoot -> option string -> option bool;
  pg_walletAddress : PublicKey
}.
Arguments pg_guards {Guards} _.
Arguments pg_label {Guards} _.

Section GuardsEffect.
(** [mergeGuards] and [parseGuardGroup] are in [./utils], outside
    [src/]. *)
Variable Guards : Type.
Variable mergeGuards : list Guards -> Guards.
Variable parseGuardGroup : ParseGuardGroupArgs Guards -> Error + GuardGroup.

(** The argument of the call for the default group. *)
Definition defaultArgs (walletAddress : PublicKey) (candyMachine : CandyMachine)
    (candyGuard : CandyGuard Guards) (nftHoldings : list Metadata)
    (verifyProof : MerkleRoot -> option string -> option bool)
  : ParseGuardGroupArgs Guards :=
  {| pg_guards := candyGuard_guards candyGuard;
     pg_label := None;
     pg_candyMachine := candyMachine;
     pg_nftHoldings := nftHoldings;
     pg_verifyProof := verifyProof;
     pg_walletAddress := walletAddress |}.

(** The argument of the call for the group [x]. *)
Definition groupArgs (walletAddress : PublicKey) (candyMachine : CandyMachine)
    (candyGuard : CandyGuard Guards) (nftHoldings : list Metadata)
    (verifyProof : MerkleRoot -> option string -> option bool)
    (x : CandyGuardGroup Guards) : ParseGuardGroupArgs Guards :=
  {| pg_guards := mergeGuards [candyGuard_guards candyGuard; group_guards x];
     pg_label := Some (group_label x);
     pg_candyMachine := candyMachine;
     pg_nftHoldings := nftHoldings;
     pg_verifyProof := verifyProof;
     pg_walletAddress := walletAddress |}.

(** [guards[x.label] = ...], once per group whose call resolved.  The
    assignments happen as the calls resolve: [order] lists the indices
    of the groups in that order. *)
Definition assignGroups (guards : gmap string GuardGroup)
    (groups : list (CandyGuardGroup Guards)) (parsed : list GuardGroup)
    (order : list nat) : gmap string GuardGroup :=
  foldl (fun g i =>
           match groups !! i, parsed !! i with
           | Some x, Some p => <[group_label x := p]> g
           | _, _ => g
           end)
    guards order.

(** The effect: [None] when it returns at once (line 341), otherwise
    the error that rejects the inner function or the value handed to
    [setGuardsAndGroups].  Within one run [parseGuardGroup] is taken to
    be a function of its argument. *)
Definition guardsEffect (order : list nat)
    (wallet_publicKey : option PublicKey)
    (candyMachine : option CandyMachine) (candyGuard : CandyGuard Guards)
    (nftHoldings : list Metadata)
    (verifyProof : MerkleRoot -> option string -> option bool)
  : option (Error + gmap string GuardGroup) :=
  match wallet_publicKey, candyMachine with
  | Some walletAddress, Some cm =>
      Some
        match parseGuardGroup
                (defaultArgs walletAddress cm candyGuard nftHoldings verifyProof)
        with
        | inl e => inl e
        | inr d =>
            let guards := {[ "default" := d ]} in
            match Promise_all
                    (map (fun x =>
                            parseGuardGroup
                              (groupArgs walletAddress cm candyGuard
                                 nftHoldings verifyProof x))
                       (candyGuard_groups candyGuard))
            with
            | inl e => inl e
            | inr parsed =>
                inr (assignGroups guards (candyGuard_groups candyGuard) parsed
                     order)
            end
        end
  | _, _ => None
  end.

End GuardsEffect.

Arguments defaultArgs {Guards} _ _ _ _ _.
Arguments groupArgs {Guards} _ _ _ _ _ _ _.
Arguments assignGroups {Guards} _ _ _ _.
Arguments guardsEffect {Guards} _ _ _ _ _ _ _ _.

(** ** Refresh (lines 125-148) *)

Record Items := {
  available : Z;
  remaining : Z;
  redeemed : Z
}.

(** What [findByAddress] resolves to: the candy machine and its three
    counts, which are big numbers. *)
Record FetchedCandyMachine := {
  fetched : CandyMachine;
  itemsAvailable : Z;
  itemsRemaining : Z;
  itemsMinted : Z
}.

(** The state that [refresh] writes: the candy machine, the items, the
    flag [status.candyMachine], and what was sent to [console.error]
    and how often [fetchCandyMachine] was called. *)
Record RefreshState := {
  rs_candyMachine : option CandyMachine;
  rs_items : Items;
  rs_loading : bool;
  rs_console : list Error;
  rs_fetches : nat
}.

Definition setLoading (b : bool) (s : RefreshState) : RefreshState :=
  {| rs_candyMachine := rs_candyMachine s; rs_items := rs_items s;
     rs_loading := b; rs_console := rs_console s;
     rs_fetches := rs_fetches s |}.

Definition setCandyMachine (cndy : CandyMachine) (s : RefreshState)
  : RefreshState :=
  {| rs_candyMachine := Some cndy; rs_items := rs_items s;
     rs_loading := rs_loading s; rs_console := rs_console s;
     rs_fetches := rs_fetches s |}.

Definition setItems (items : Items) (s : RefreshState) : RefreshState :=
  {| rs_candyMachine := rs_candyMachine s; rs_items := items;
     rs_loading := rs_loading s; rs_console := rs_console s;
     rs_fetches := rs_fetches s |}.

Definition console_error (e : Error) (s : RefreshState) : RefreshState :=
  {| rs_candyMachine := rs_candyMachine s; rs_items := rs_items s;
     rs_loading := rs_loading s; rs_console := rs_console s ++ [e];
     rs_fetches := rs_fetches s |}.

Definition countFetch (s : RefreshState) : RefreshState :=
  {| rs_candyMachine := rs_candyMachine s; rs_items := rs_items s;
     rs_loading := rs_loading s; rs_console := rs_console s;
     rs_fetches := S (rs_fetches s) |}.

Section Refresh.
(** [mx.candyMachines().findByAddress], asked with [candyMachineId]; an
    identifier that is not a public key makes [new PublicKey] throw,
    which rejects [fetchCandyMachine] like a failed request. *)
Variable findByAddress : string -> Error + FetchedCandyMachine.
Variable candyMachineId : string.

(** [BN.prototype.toNumber] of [bn.js], which throws on a number that it
    cannot hand over as a JavaScript number. *)
Variable BN_toNumber : Z -> Error + Z.

(** The object literal of lines 138-142: the three conversions in order,
    the first that throws ending the evaluation. *)
Definition itemsOf (cndy : FetchedCandyMachine) : Error + Items :=
  match BN_toNumber (itemsAvailable cndy) with
  | inl e => inl e
  | inr a =>
      match BN_toNumber (itemsRemaining cndy) with
      | inl e => inl e
      | inr r =>
          match BN_toNumber (itemsMinted cndy) with
          | inl e => inl e
          | inr m => inr {| available := a; remaining := r; redeemed := m |}
          end
      end
  end.

(** The [then] callback of lines 136-145. *)
Definition onFetched (cndy : FetchedCandyMachine) (s : RefreshState)
  : option Error * RefreshState :=
  let s1 := setCandyMachine (fetched cndy) s in
  match itemsOf cndy with
  | inl e => (Some e, s1)
  | inr items => (None, setItems items s1)
  end.

(** The callback of lines 131-148. *)
Definition refresh (wallet_publicKey : option PublicKey) (s : RefreshState)
  : Promise unit * RefreshState :=
  match wallet_publicKey with
  | None => (Rejected (newError "Wallet not loaded yet!"), s)
  | Some _ =>
      let s1 := countFetch (setLoading true s) in
      let '(failure, s2) :=
        match findByAddress candyMachineId with
        | inl e => (Some e, s1)
        | inr cndy => onFetched cndy s1
        end in
      let s3 := match failure with
                | Some e => console_error e s2
                | None => s2
                end in
      (Fulfilled None, setLoading false s3)
  end.

End Refresh.

(** ** Observations on traces and states *)

(** The submissions of a trace, in order: transaction, commitment, and
    whether it was confirmed. *)
Definition submission (ev : Event) : option (Transaction * Commitment * bool) :=
  match ev with
  | SendAndConfirm tx c ok => Some (tx, c, ok)
  | _ => None
  end.

Definition sends (evs : list Event) : list (Transaction * Commitment * bool) :=
  omap submission evs.

Definition isBlockhashFetch (ev : Event) : bool :=
  match ev with
  | GetLatestBlockhash => true
  | _ => false
  end.

Definition blockhashFetches (evs : list Event) : nat :=
  length (filter (fun ev => isBlockhashFetch ev = true) evs).


Definition isRouteIx (i : Instruction) : bool :=
  match i with
  | RouteIx _ => true
  | MintIx _ => false
  end.

(** The route parameters of lines 181-190 for given allow-list settings. *)
Definition routeParams (cm : CandyMachine) (opts : MintOpts)
    (a : AllowListSettings) : RouteParams :=
  {| route_candyMachine := cm;
     route_guard := "allowList";
     route_group := opts_groupLabel opts;
     route_path := "proof";
     route_merkleProof := settings_proof a |}.

(** What signing leaves untouched in a transaction. *)
Definition envelope (tx : Transaction)
  : Instruction * option PublicKey * option string :=
  (tx_instruction tx, feePayer tx, recentBlockhash tx).

(** The value a finished call yields, for a call that did not throw. *)
Definition resolved {A} (r : Error + list A) : list A :=
  match r with
  | inl _ => []
  | inr l => l
  end.

(** The event of submitting one mint transaction. *)
Definition mintSubmission (env : Env) (tx : Transaction) : Event :=
  SendAndConfirm tx finalized
    (succeeded (sendAndConfirmTransaction env tx finalized)).

(** What the trace records for a submitted mint transaction. *)
Definition finalizedSend (env : Env) (tx : Transaction)
  : Transaction * Commitment * bool :=
  (tx, finalized, succeeded (sendAndConfirmTransaction env tx finalized)).

(** The slot that the lookup of one output leaves in [nfts]. *)
Definition slotOf (env : Env) (o : Output) : option Nft :=
  match out_context o with
  | None => None
  | Some context =>
      match findByMint env context with
      | inl _ => None
      | inr nft => Some nft
      end
  end.

(** The lookups of a trace, in order. *)
Definition lookup_of (ev : Event) : option (MintContext * bool) :=
  match ev with
  | FindByMint ctx found => Some (ctx, found)
  | _ => None
  end.

Definition lookups (evs : list Event) : list (MintContext * bool) :=
  omap lookup_of evs.

(** Events that are neither a submission nor a blockhash fetch. *)
Definition calm (ev : Event) : Prop :=
  submission ev = None /\ isBlockhashFetch ev = false.

(** Events that are not a lookup either. *)
Definition quiet (ev : Event) : Prop :=
  calm ev /\ lookup_of ev = None.

(** How the submission of the mint transactions [txs] of [builders]
    settles the result of a run of the network stage: a rejected
    submission fails the run before any lookup, and otherwise the run
    yields one slot per submitted transaction. *)
Definition reconciled (env : Env) (builders : list TransactionBuilder)
    (txs : list Transaction) (run : IO (list (option Nft))) : Prop :=
  match snd (submitMints env builders txs) with
  | inl e => snd run = inl e /\ lookups (fst run) = []
  | inr output =>
      snd run = inr (map (slotOf env) output)
      /\ length output = length txs
  end.

(** A transaction that carries the plan's blockhash and fee payer. *)
Definition stamped (payer : option PublicKey)
    (bh : BlockhashWithExpiryBlockHeight) (tx : Transaction) : Prop :=
  recentBlockhash tx = Some (blockhash bh) /\ feePayer tx = payer.

(** The number of groups whose mint-limit counter is the object [c]. *)
Definition owners (c : loc) (g : gmap string GuardGroup) : nat :=
  length (filter (fun guards => counterOf guards = Some c) (Object_values g)).

(** The [count] of the counter object [c]. *)
Definition countAt (h : gmap loc Z) (c : loc) : Z := default 0 (h !! c).

(** The calls of the mint builder in a trace, in order: request index
    and argument. *)
Definition builderCall (ev : Event) : option (nat * MintParams) :=
  match ev with
  | MintBuilderCall index p => Some (index, p)
  | _ => None
  end.

Definition builderCalls (evs : list Event) : list (nat * MintParams) :=
  omap builderCall evs.

(** The transactions handed to the wallet for signing, call by call. *)
Definition signingRequest (ev : Event) : option (list Transaction) :=
  match ev with
  | SignAllTransactions _ txs => Some txs
  | _ => None
  end.

Definition signingRequests (evs : list Event) : list (list Transaction) :=
  omap signingRequest evs.

(** The transaction of a submission. *)
Definition submitted (x : Transaction * Commitment * bool) : Transaction :=
  fst (fst x).

(** The envelope that lines 209-216 give the transaction made from the
    builder [t]. *)
Definition planned (payer : option PublicKey)
    (bh : BlockhashWithExpiryBlockHeight) (t : TransactionBuilder)
  : Instruction * option PublicKey * option string :=
  (tb_instruction t, payer, Some (blockhash bh)).

(** The place of an event in the course of a mint call. *)
Definition phase (ev : Event) : nat :=
  match ev with
  | SetMinting true => 0
  | MintBuilderCall _ _ => 1
  | GetLatestBlockhash => 2
  | SignAllTransactions _ _ => 3
  | SendAndConfirm _ processed _ => 4
  | SendAndConfirm _ finalized _ => 5
  | FindByMint _ _ => 6
  | ConsoleError _ => 7
  | SetMinting false => 8
  | Refresh => 9
  end%nat.

(** The batch signings of a trace: the wallet asked and how many
    transactions it was handed. *)
Definition batchSigning (ev : Event) : option (PublicKey * nat) :=
  match ev with
  | SignAllTransactions pk txs => Some (pk, length txs)
  | _ => None
  end.

Definition batchSignings (evs : list Event) : list (PublicKey * nat) :=
  omap batchSigning evs.

(** The key that a signer puts on its own transaction at once (lines
    219-221), if it is of that kind. *)
Definition immediateKey (s : Signer) : option PublicKey :=
  match s with
  | KeypairSigner pk | WrappedSigner pk => Some pk
  | IdentitySigner _ | OtherSigner _ => None
  end.

(** The key under which a signer is kept for batch signing (line 218). *)
Definition batchKey (s : Signer) : option PublicKey :=
  match s with
  | IdentitySigner pk => Some pk
  | _ => None
  end.

Definition isFinalized (x : Transaction * Commitment * bool) : bool :=
  match snd (fst x) with
  | finalized => true
  | processed => false
  end.

(** The number of submissions at [finalized] commitment. *)
Definition finalizedCount (evs : list Event) : nat :=
  length (List.filter isFinalized (sends evs)).

(** Phases that may hold several events: builder calls, batch signings,
    mint submissions and lookups. *)
Definition repeatable (k : nat) : bool :=
  match k with
  | 1 | 3 | 5 | 6 => true
  | _ => false
  end%nat.

(** The order in which the phases of two successive events may stand. *)
Definition precedes (a b : nat) : Prop :=
  (a < b)%nat \/ (a = b /\ repeatable a = true).

(** ** A reference instance of the Merkle interface

    A transparent Merkle tree: a leaf is the bytes of its address and an
    inner node the concatenation of its children, so distinct addresses
    have distinct leaves.  The layers are paired as [merkletreejs] does
    (an odd last node is promoted unchanged), and the proof of a leaf is
    the list of its siblings, bottom up. *)

Module ListMerkle.

Definition leaf (a : string) : Bytes := list_byte_of_string a.

Fixpoint pairUp (layer : list Bytes) : list Bytes :=
  match layer with
  | a :: b :: rest => (a ++ b) :: pairUp rest
  | _ => layer
  end.

Fixpoint rootOf (fuel : nat) (layer : list Bytes) : Bytes :=
  match fuel, layer with
  | _, [] => []
  | _, [r] => r
  | O, r :: _ => r
  | S fuel', _ => rootOf fuel' (pairUp layer)
  end.

Definition sibling (layer : list Bytes) (i : nat) : list Bytes :=
  option_list (layer !! (if Nat.even i then S i else pred i)).

Fixpoint pathOf (fuel : nat) (layer : list Bytes) (i : nat) : list Bytes :=
  match fuel, layer with
  | _, [] => []
  | _, [_] => []
  | O, _ => []
  | S fuel', _ => sibling layer i ++ pathOf fuel' (pairUp layer) (Nat.div2 i)
  end.

Fixpoint indexOfLeaf (a : string) (l : list string) : option nat :=
  match l with
  | [] => None
  | x :: rest =>
      if String.eqb x a then Some O else S <$> indexOfLeaf a rest
  end.

Definition getMerkleTree (l : list string) : list Bytes := map leaf l.

Definition getRoot (t : list Bytes) : Bytes := rootOf (length t) t.

Definition getMerkleProof (l : list string) (a : string) : list Bytes :=
  match indexOfLeaf a l with
  | None => []
  | Some i => pathOf (length l) (map leaf l) i
  end.

End ListMerkle.

(** ** A reference environment

    The wallet is ["payer"]; request [i] mints with the fresh key
    ["mint" i].  The three predicates say which route submission, which
    mint submissions and which lookups fail. *)

Module Demo.

Definition digit (i : nat) : string := String (ascii_of_nat (48 + i)) "".

Definition mintKey (i : nat) : PublicKey := "mint" +:+ digit i.

Definition rpcError (m : string) : Error :=
  {| msg := None; message := Some m; code := None |}.

Definition isMint (tx : Transaction) (key : PublicKey) : bool :=
  bool_decide (key ∈ signatures tx).

Definition env (routeFails : bool) (failingMints failingLookups : list PublicKey)
  : Env :=
  {| identity := Some "payer";
     routeSigners := fun _ => [IdentitySigner "payer"];
     mintBuilder := fun i _ =>
       inr ([IdentitySigner "payer"; KeypairSigner (mintKey i)],
            {| mintSigner := mintKey i; tokenAddress := "token" +:+ digit i |});
     getLatestBlockhash :=
       inr {| blockhash := "bh1"; lastValidBlockHeight := 100 |};
     signAllTransactions := fun _ _ => None;
     sendAndConfirmTransaction := fun tx c =>
       match c with
       | processed =>
           if routeFails then inl (rpcError "custom program error: 0x1770")
           else inr "sig-route"
       | finalized =>
           if existsb (isMint tx) failingMints
           then inl (rpcError "custom program error: 0x137")
           else inr "sig-mint"
       end;
     findByMint := fun ctx =>
       if bool_decide (mintSigner ctx ∈ failingLookups)
       then inl (rpcError "Account not found")
       else inr ("nft-" +:+ mintSigner ctx) |}.

Definition cm : CandyMachine :=
  {| address := "candy"; authorityAddress := "authority" |}.

(** A default group with an allow-list guard and a mint limit whose
    counter is the object at location 0, and a group ["wl"] with its own
    counter at location 1. *)
Definition groups (root : Bytes) : gmap string GuardGroup :=
  <["wl" := {| allowList := Some root;
               mintLimit := Some {| mintCounter := Some 1%nat |} |}]>
  (<["default" := {| allowList := Some root;
                     mintLimit := Some {| mintCounter := Some 0%nat |} |}]> ∅).

Definition s0 : St :=
  {| trace := []; heap := <[1%nat := 0]> (<[0%nat := 5]> ∅); nfts := [] |}.

Definition allowLists : option (list AllowList) :=
  Some [ {| groupLabel := "wl"; addresses := ["A"; "B"; "C"] |};
         {| groupLabel := "default"; addresses := ["A"; "B"] |} ].

Definition opts (label : option string) : MintOpts :=
  {| opts_groupLabel := label; nftGuards := None |}.

(** Guard sets reduced to an optional allow-list root; merging keeps the
    last root given; parsing fails on the label ["bad"]. *)
Definition mergeGuards (gs : list (option Bytes)) : option Bytes :=
  foldl (fun acc g => match g with Some _ => g | None => acc end) None gs.

Definition parseGuardGroup (a : ParseGuardGroupArgs (option Bytes))
  : Error + GuardGroup :=
  if bool_decide (pg_label a = Some "bad") then inl (rpcError "bad group")
  else inr {| allowList := pg_guards a; mintLimit := None |}.

Definition candyGuard (labels : list string) : CandyGuard (option Bytes) :=
  {| candyGuard_guards := None;
     candyGuard_groups :=
       map (fun l => {| group_label := l;
                        group_guards := Some [Byte.x01] |})
         labels |}.

Definition findByAddress (minted : Z) (id : string)
  : Error + FetchedCandyMachine :=
  if String.eqb id "candy"
  then inr {| fetched := cm; itemsAvailable := 10; itemsRemaining := 7;
              itemsMinted := minted |}
  else inl (rpcError "Account not found").

(** [toNumber] as [bn.js] has it: numbers of more than 53 bits throw. *)
Definition BN_toNumber (n : Z) : Error + Z :=
  if Z.abs n <? 2 ^ 53 then inr n
  else inl (rpcError "Number can only safely store up to 53 bits").

(** Decimal digits only, read most significant first. *)
Fixpoint digits (acc : Z) (s : string) : option Z :=
  match s with
  | EmptyString => Some acc
  | String c rest =>
      let n := Z.of_nat (nat_of_ascii c) - 48 in
      if (0 <=? n) && (n <=? 9) then digits (10 * acc + n) rest else None
  end.

Definition parseInt (s : string) : option Z :=
  match s with
  | EmptyString => None
  | _ => digits 0 s
  end.

Definition newPublicKey (s : string) : Error + PublicKey :=
  if String.eqb s "" then inl (rpcError "Invalid public key input")
  else inr s.

Definition r0 : RefreshState :=
  {| rs_candyMachine := None;
     rs_items := {| available := 0; remaining := 0; redeemed := 0 |};
     rs_loading := false; rs_console := []; rs_fetches := 0 |}.

End Demo.

(** * Properties *)

(** ** JavaScript preliminaries *)

Lemma Buffer_equals_refl (b : Bytes) : Buffer_equals b b = true.
Proof.
  induction b as [|x b IH]; simpl; [reflexivity|].
  rewrite IH, andb_true_r. now apply Byte.byte_dec_lb.
Qed.

Example indexOf_absent : indexOf "Account not found" "0x137" = -1.
Proof. reflexivity. Qed.

Example indexOf_inside :
  indexOf "custom program error: 0x137" "0x137" = 22.
Proof. reflexivity. Qed.

Example indexOf_prefix : indexOf "0x138 is the code" "0x138" = 0.
Proof. reflexivity. Qed.

Lemma indexOf_zero_prefix (s sub : string) :
  indexOf s sub = 0 -> substring 0 (String.length sub) s = sub.
Proof.
  unfold indexOf. destruct (String.index 0 sub s) as [n|] eqn:E; [|discriminate].
  intros Hn. assert (n = 0%nat) as -> by lia.
  now apply index_correct1 in E.
Qed.

(** ** The reference Merkle instance satisfies the interface *)

Lemma indexOfLeaf_absent (a : string) (l : list string) :
  a ∉ l -> ListMerkle.indexOfLeaf a l = None.
Proof.
  induction l as [|x l IH]; simpl; intros Hnot; [reflexivity|].
  destruct (String.eqb_spec x a) as [->|Hne].
  - exfalso. apply Hnot. left.
  - rewrite IH; [reflexivity|]. intros Hin. apply Hnot. now right.
Qed.

Lemma ListMerkle_proof_absent (l : list string) (a : string) :
  a ∉ l -> ListMerkle.getMerkleProof l a = [].
Proof.
  intros Hnot. unfold ListMerkle.getMerkleProof.
  now rewrite indexOfLeaf_absent.
Qed.

#[local] Instance listMerkle : MerkleLib := {|
  MerkleTree := list Bytes;
  getMerkleTree := ListMerkle.getMerkleTree;
  getRoot := ListMerkle.getRoot;
  getMerkleProof := ListMerkle.getMerkleProof;
  getMerkleProof_absent := ListMerkle_proof_absent
|}.

(** ** Allow-list index *)

Section AllowListFacts.
Context `{ML : MerkleLib}.

Lemma no_allowLists_cons (al : AllowList) (als : list AllowList) :
  no_allowLists (Some (al :: als)) = false.
Proof. reflexivity. Qed.

Lemma no_allowLists_middle (pre post : list AllowList) (al : AllowList) :
  no_allowLists (Some (pre ++ al :: post)) = false.
Proof. destruct pre; reflexivity. Qed.

Lemma foldl_addMerkle_other (publicKey : PublicKey) (post : list AllowList)
    (m : gmap string Merkle) (label : string) :
  label ∉ (groupLabel <$> post) ->
  foldl (addMerkle publicKey) m post !! label = m !! label.
Proof.
  revert m. induction post as [|al post IH]; intros m Hnot; [reflexivity|].
  rewrite fmap_cons in Hnot. apply not_elem_of_cons in Hnot as [Hne Hnot].
  simpl. rewrite IH by assumption.
  unfold addMerkle. now rewrite lookup_insert_ne.
Qed.

(** An entry that no later entry overrides is the one [merkles] holds
    for its label. *)
Lemma buildMerkles_lookup (publicKey : PublicKey) (pre post : list AllowList)
    (al : AllowList) :
  groupLabel al ∉ (groupLabel <$> post) ->
  buildMerkles (pre ++ al :: post) publicKey !! groupLabel al
  = Some {| tree := getMerkleTree (addresses al);
            proof := getMerkleProof (addresses al) publicKey |}.
Proof.
  intros Hnot. unfold buildMerkles. rewrite foldl_app. simpl.
  rewrite foldl_addMerkle_other by assumption.
  unfold addMerkle. now rewrite lookup_insert_eq.
Qed.

(** With the root of the configured tree, [verifyProof] answers [true]
    for every wallet: the wallet's proof plays no part in the answer. *)
Lemma verifyProof_own_root (publicKey : PublicKey) (pre post : list AllowList)
    (al : AllowList) :
  groupLabel al ∉ (groupLabel <$> post) ->
  verifyProof (proofMemo (Some (pre ++ al :: post)) (Some publicKey))
    (RootBytes (getRoot (getMerkleTree (addresses al))))
    (Some (groupLabel al))
  = Some true.
Proof.
  intros Hnot. unfold proofMemo. rewrite no_allowLists_middle. simpl.
  unfold verifyProof_merkles. simpl.
  rewrite buildMerkles_lookup by assumption. simpl.
  now rewrite Buffer_equals_refl.
Qed.

(** A label without an entry gets [undefined], which is neither [true]
    nor [false]. *)
Lemma verifyProof_unknown_label (publicKey : PublicKey)
    (allowLists : list AllowList) (root : MerkleRoot) (label : string) :
  label ∉ (groupLabel <$> allowLists) ->
  verifyProof_merkles (buildMerkles allowLists publicKey) root (Some label)
  = None.
Proof.
  intros Hnot. unfold verifyProof_merkles, buildMerkles. simpl.
  now rewrite foldl_addMerkle_other, lookup_empty.
Qed.

End AllowListFacts.

(** C3. For an address that is not in a configured allow-list,
    [getMerkleProof] gives the empty proof, and yet [verifyProof], asked
    with the root of that list's tree and the list's label, answers
    [true]: the test [!!merkle.proof] of line 115 holds for every array,
    the empty one included. *)
Theorem verifyProof_accepts_non_member `{ML : MerkleLib}
    (pre post : list AllowList) (al : AllowList) (publicKey : PublicKey) :
  groupLabel al ∉ (groupLabel <$> post) ->
  publicKey ∉ addresses al ->
  getMerkleProof (addresses al) publicKey = []
  /\ verifyProof (proofMemo (Some (pre ++ al :: post)) (Some publicKey))
       (RootBytes (getRoot (getMerkleTree (addresses al))))
       (Some (groupLabel al))
     = Some true.
Proof.
  intros Hlast Hnot. split.
  - now apply getMerkleProof_absent.
  - now apply verifyProof_own_root.
Qed.

Lemma verifyProof_accepts_non_member_witness :
  @getMerkleProof listMerkle ["A"; "B"] "C" = []
  /\ verifyProof
       (@proofMemo listMerkle
          (Some ([] ++ {| groupLabel := "wl"; addresses := ["A"; "B"] |} :: []))
          (Some "C"))
       (RootBytes (@getRoot listMerkle (@getMerkleTree listMerkle ["A"; "B"])))
       (Some "wl")
     = Some true.
Proof.
  apply (@verifyProof_accepts_non_member listMerkle []
           [] {| groupLabel := "wl"; addresses := ["A"; "B"] |} "C").
  - simpl. apply not_elem_of_nil.
  - simpl. intros H. repeat (apply elem_of_cons in H as [H|H]; [discriminate|]).
    now apply elem_of_nil in H.
Defined.

(** C8. Without any configured allow-list ([allowLists] undefined or
    empty) [verifyProof] answers [true] for every wallet, root and label;
    with allow-lists configured and no wallet address it answers [false]
    for every root and label. *)
Theorem verifyProof_open_mint_and_no_wallet `{ML : MerkleLib}
    (wallet_publicKey : option PublicKey) (root : MerkleRoot)
    (label : option string) (al : AllowList) (als : list AllowList) :
  verifyProof (proofMemo None wallet_publicKey) root label = Some true
  /\ verifyProof (proofMemo (Some []) wallet_publicKey) root label = Some true
  /\ verifyProof (proofMemo (Some (al :: als)) None) root label = Some false.
Proof. repeat split. Qed.

(** ** Error classifier *)

Lemma classify_no_message (c : option Z) :
  classify {| msg := None; message := None; code := c |} = Messages.Timeout.
Proof. reflexivity. Qed.

Lemma classify_code_sold_out (m : string) (message : option string) :
  m <> "" ->
  classify {| msg := Some m; message := message; code := Some 311 |}
  = Messages.SoldOut.
Proof.
  intros Hm. unfold classify. simpl.
  destruct (String.eqb_spec m "") as [->|_]; [contradiction|reflexivity].
Qed.

Lemma classify_code_not_started (m : string) (message : option string) :
  m <> "" ->
  classify {| msg := Some m; message := message; code := Some 312 |}
  = Messages.MintingPeriodNotStarted.
Proof.
  intros Hm. unfold classify. simpl.
  destruct (String.eqb_spec m "") as [->|_]; [contradiction|reflexivity].
Qed.

(** A message is classified by its first five characters only: unless it
    starts with ["0x138"], the generic message is kept. *)
Lemma classify_not_prefixed (m : string) :
  m <> "" -> indexOf m "0x138" <> 0 ->
  classify (newError m) = Messages.MintFailed.
Proof.
  intros Hm Hidx. unfold classify. simpl.
  destruct (String.eqb_spec m "") as [->|_]; [contradiction|]. simpl.
  unfold truthy_number. destruct (Z.eqb_spec (indexOf m "0x138") 0); [lia|].
  reflexivity.
Qed.

Lemma or_string_falsy (o : option string) (d : string) :
  truthy_string o = false -> or_string o d = d.
Proof.
  destruct o as [m|]; simpl; [|reflexivity].
  now destruct (String.eqb m "").
Qed.

Lemma or_string_truthy (o : option string) (d : string) :
  truthy_string o = true -> o = Some (or_string o d).
Proof.
  destruct o as [m|]; simpl; [|discriminate].
  now destruct (String.eqb m "").
Qed.

Lemma prefixes_exclusive (s : string) :
  indexOf s "0x138" = 0 -> indexOf s "0x137" = 0 -> False.
Proof.
  intros H8 H7. apply indexOf_zero_prefix in H8, H7.
  simpl String.length in H8, H7. congruence.
Qed.

Lemma truthy_number_false (n : Z) : truthy_number n = false -> n = 0.
Proof.
  unfold truthy_number. now destruct (Z.eqb_spec n 0).
Qed.

(** The insufficient-funds branch cannot be taken: it needs the message to
    start with both ["0x138"] and ["0x137"]. *)
Lemma classify_never_insufficient_funds (e : Error) :
  msg e <> Some Messages.InsufficientFunds ->
  classify e <> Messages.InsufficientFunds.
Proof.
  intros Hmsg. unfold classify.
  destruct (truthy_string (msg e)) eqn:T; simpl.
  - destruct (code_is e 311); [discriminate|].
    destruct (code_is e 312); [discriminate|].
    intros Heq. apply Hmsg.
    rewrite (or_string_truthy _ Messages.MintFailed T). now rewrite Heq.
  - rewrite (or_string_falsy _ _ T).
    destruct (truthy_string (message e)); simpl; [|discriminate].
    destruct (truthy_number (indexOf _ "0x138")) eqn:E8; [discriminate|].
    destruct (truthy_number (indexOf _ "0x137")) eqn:E7; [discriminate|].
    exfalso. apply truthy_number_false in E8, E7.
    exact (prefixes_exclusive _ E8 E7).
Qed.

(** With no [msg], [SOLD OUT!] is the answer exactly for the messages that
    start with ["0x138"]. *)
Lemma classify_sold_out_iff (m : string) :
  m <> "" ->
  classify (newError m) = Messages.SoldOut <-> indexOf m "0x138" = 0.
Proof.
  intros Hm. unfold classify. simpl.
  destruct (String.eqb_spec m "") as [->|_]; [contradiction|]. simpl.
  destruct (truthy_number (indexOf m "0x138")) eqn:E8.
  - split; [discriminate|]. intros H0. rewrite H0 in E8. discriminate.
  - apply truthy_number_false in E8. split; [now intros _|]. intros _.
    destruct (truthy_number (indexOf m "0x137")) eqn:E7; [reflexivity|].
    apply truthy_number_false in E7. destruct (prefixes_exclusive _ E8 E7).
Qed.

(** C4. A failure whose message contains the sold-out signature ["0x137"]
    (or the insufficient-funds signature ["0x135"]) after other text is
    classified as the generic [MintFailed]: the [indexOf] results of lines
    272-275 are used as conditions, so the first branch is taken for every
    message that does not start with ["0x138"]. *)
Theorem classify_misses_signatures :
  classify (newError "failed to send transaction: custom program error: 0x137")
  = Messages.MintFailed
  /\ classify (newError "failed to send transaction: custom program error: 0x135")
     = Messages.MintFailed
  /\ classify (newError "0x137") = Messages.MintFailed
  /\ classify {| msg := None; message := None; code := None |} = Messages.Timeout.
Proof. repeat split. Qed.

(** ** Traces *)

Lemma sends_app (a b : list Event) : sends (a ++ b) = sends a ++ sends b.
Proof. apply omap_app. Qed.

Lemma blockhashFetches_app (a b : list Event) :
  blockhashFetches (a ++ b) = (blockhashFetches a + blockhashFetches b)%nat.
Proof. unfold blockhashFetches. now rewrite filter_app, length_app. Qed.

Lemma blockhashFetches_cons (ev : Event) (evs : list Event) :
  blockhashFetches (ev :: evs)
  = ((if isBlockhashFetch ev then 1 else 0) + blockhashFetches evs)%nat.
Proof.
  unfold blockhashFetches. rewrite filter_cons.
  destruct (decide (isBlockhashFetch ev = true)) as [H|H].
  - now rewrite H.
  - now destruct (isBlockhashFetch ev).
Qed.

Lemma calm_sends (evs : list Event) : Forall calm evs -> sends evs = [].
Proof.
  induction 1 as [|ev evs [Hs _] _ IH]; [reflexivity|].
  unfold sends in *. simpl. now rewrite Hs.
Qed.

Lemma calm_fetches (evs : list Event) :
  Forall calm evs -> blockhashFetches evs = 0%nat.
Proof.
  induction 1 as [|ev evs [_ Hb] _ IH]; [reflexivity|].
  rewrite blockhashFetches_cons, Hb, IH. reflexivity.
Qed.

Lemma quiet_calm (evs : list Event) : Forall quiet evs -> Forall calm evs.
Proof. intros H. eapply Forall_impl; [exact H|]. now intros ev [Hc _]. Qed.

Lemma quiet_sends (evs : list Event) : Forall quiet evs -> sends evs = [].
Proof. intros H. now apply calm_sends, quiet_calm. Qed.

Lemma quiet_fetches (evs : list Event) :
  Forall quiet evs -> blockhashFetches evs = 0%nat.
Proof. intros H. now apply calm_fetches, quiet_calm. Qed.

Lemma quiet_lookups (evs : list Event) : Forall quiet evs -> lookups evs = [].
Proof.
  induction 1 as [|ev evs [_ Hl] _ IH]; [reflexivity|].
  unfold lookups in *. simpl. now rewrite Hl.
Qed.

Lemma lookups_app (a b : list Event) :
  lookups (a ++ b) = lookups a ++ lookups b.
Proof. apply omap_app. Qed.

Lemma Promise_all_length {A} (rs : list (Error + A)) (l : list A) :
  Promise_all rs = inr l -> length l = length rs.
Proof.
  revert l. induction rs as [|[e|a] rs IH]; simpl; intros l H.
  - now inversion H.
  - discriminate.
  - destruct (Promise_all rs) as [e|l']; [discriminate|].
    inversion H; subst. simpl. f_equal. now apply IH.
Qed.

Lemma Promise_all_lookup {A} (rs : list (Error + A)) (l : list A)
    (i : nat) (a : A) :
  Promise_all rs = inr l -> l !! i = Some a -> rs !! i = Some (inr a).
Proof.
  revert l i. induction rs as [|[e|x] rs IH]; simpl; intros l i H Hi.
  - inversion H; subst. discriminate.
  - discriminate.
  - destruct (Promise_all rs) as [e|l']; [discriminate|].
    inversion H; subst. destruct i as [|i]; simpl in *.
    + now inversion Hi.
    + now apply (IH l').
Qed.

(** ** Stages of the mint call *)

Section Stages.
Context `{ML : MerkleLib}.
Variable env : Env.
Variable allowLists : option (list AllowList).
Variable wallet_publicKey : option PublicKey.

(** *** The plan *)

Lemma mintLoop_spec (cm : CandyMachine) (opts : MintOpts)
    (al : option AllowListSettings) (indices : list nat)
    (acc : list TransactionBuilder) :
  Forall quiet (fst (mintLoop env cm opts al indices acc))
  /\ forall plan,
      snd (mintLoop env cm opts al indices acc) = inr plan ->
      exists mints,
        plan = acc ++ mints
        /\ map tb_instruction mints
           = map (fun i => MintIx (mintParams cm opts al i)) indices
        /\ Forall (fun t => is_Some (tb_context t)) mints.
Proof.
  revert acc. induction indices as [|i rest IH]; intros acc; simpl.
  - split; [constructor|]. intros plan H. inversion H; subst.
    exists []. now rewrite app_nil_r.
  - unfold mintFromCandyMachineBuilder. simpl.
    destruct (mintBuilder env i (mintParams cm opts al i))
      as [e|[signers ctx]]; simpl.
    + split; [repeat constructor|]. intros plan H. discriminate.
    + match goal with |- context [mintLoop env cm opts al rest ?a] =>
        destruct (IH a) as [Hq Hr];
        destruct (mintLoop env cm opts al rest a) as [E r] eqn:Eloop
      end.
      simpl in *. split; [repeat constructor; assumption|].
      intros plan ->. destruct (Hr plan eq_refl) as (mints & -> & Hix & Hctx).
      eexists (_ :: mints). rewrite <- app_assoc. simpl.
      split; [reflexivity|]. split; [now rewrite Hix|].
      constructor; [now eexists|assumption].
Qed.

(** The loop cannot fail when the builder does not. *)
Lemma mintLoop_total (cm : CandyMachine) (opts : MintOpts)
    (al : option AllowListSettings) (indices : list nat)
    (acc : list TransactionBuilder) :
  (forall i p, succeeded (mintBuilder env i p) = true) ->
  succeeded (snd (mintLoop env cm opts al indices acc)) = true.
Proof.
  intros Hok. revert acc. induction indices as [|i rest IH]; intros acc; simpl.
  - reflexivity.
  - unfold mintFromCandyMachineBuilder. simpl.
    specialize (Hok i (mintParams cm opts al i)).
    destruct (mintBuilder env i (mintParams cm opts al i))
      as [e|[signers ctx]]; [discriminate|]. simpl.
    match goal with |- context [mintLoop env cm opts al rest ?a] =>
      specialize (IH a); destruct (mintLoop env cm opts al rest a) as [E r]
    end.
    exact IH.
Qed.

(** *** The allow-list settings and the route builder *)

Lemma empty_length_falsy {A} (l : list A) :
  negb (truthy_number (Z.of_nat (length l))) = true <-> l = [].
Proof. destruct l; simpl; split; intros H; try reflexivity; discriminate. Qed.

Lemma labelOrDefault_truthy (opts : MintOpts) :
  truthy_string (opts_groupLabel opts) = true ->
  opts_groupLabel opts = Some (labelOrDefault opts).
Proof. apply or_string_truthy. Qed.


(** Settings are present exactly for a truthy label that has an entry in
    [merkles]; they hold that entry's proof. *)
Lemma allowListOf_Some (opts : MintOpts) (a : AllowListSettings) :
  allowListOf allowLists wallet_publicKey opts = inr (Some a) ->
  truthy_string (opts_groupLabel opts) = true
  /\ exists ms merkle,
      merkles (proofMemo allowLists wallet_publicKey) = Some ms
      /\ ms !! labelOrDefault opts = Some merkle
      /\ a = {| settings_proof := proof merkle |}.
Proof.
  unfold allowListOf, allowListFrom.
  destruct (truthy_string (opts_groupLabel opts)) eqn:T; [|discriminate].
  rewrite (labelOrDefault_truthy _ T). simpl.
  destruct (merkles _) as [ms|]; [|discriminate].
  destruct (ms !! labelOrDefault opts) as [merkle|] eqn:Em; [|discriminate].
  intros H. inversion H; subst. split; [reflexivity|].
  now exists ms, merkle.
Qed.

Lemma routePart_None (cm : CandyMachine) (opts : MintOpts) :
  routePart env allowLists wallet_publicKey cm opts None = inr [].
Proof. reflexivity. Qed.

Lemma routePart_Some (cm : CandyMachine) (opts : MintOpts)
    (a : AllowListSettings) :
  allowListOf allowLists wallet_publicKey opts = inr (Some a) ->
  routePart env allowLists wallet_publicKey cm opts (Some a)
  = match settings_proof a with
    | [] => inl (newError Messages.NotInAllowList)
    | _ :: _ =>
        inr [callCandyGuardRouteBuilder env (routeParams cm opts a)]
    end.
Proof.
  intros H. apply allowListOf_Some in H as (_ & ms & merkle & Hms & Hm & ->).
  unfold routePart. rewrite Hms. simpl. rewrite Hm. simpl.
  destruct (proof merkle); reflexivity.
Qed.

Lemma buildPlan_spec (cm : CandyMachine) (quantityString : Z)
    (opts : MintOpts) (al : option AllowListSettings) :
  let run := buildPlan env allowLists wallet_publicKey cm
               quantityString opts al in
  Forall quiet (fst run)
  /\ forall plan,
      snd run = inr plan ->
      exists route mints,
        routePart env allowLists wallet_publicKey cm opts al = inr route
        /\ plan = route ++ mints
        /\ map tb_instruction mints
           = map (fun i => MintIx (mintParams cm opts al i))
               (seq 0 (Z.to_nat quantityString))
        /\ Forall (fun t => is_Some (tb_context t)) mints.
Proof.
  unfold buildPlan, IO.bind, IO.lift. simpl.
  destruct (routePart env allowLists wallet_publicKey cm opts al)
    as [e|route]; simpl.
  - split; [constructor|]. discriminate.
  - destruct (mintLoop_spec cm opts al (seq 0 (Z.to_nat quantityString)) route)
      as [Hq Hr].
    destruct (mintLoop env cm opts al _ route) as [E r]. simpl in *.
    split; [assumption|]. intros plan ->.
    destruct (Hr plan eq_refl) as (mints & -> & Hix & Hctx).
    now exists route, mints.
Qed.

(** A failed validation of the proof ends the plan before any event. *)
Lemma buildPlan_route_fails (cm : CandyMachine) (quantityString : Z)
    (opts : MintOpts) (al : option AllowListSettings) (e : Error) :
  routePart env allowLists wallet_publicKey cm opts al = inl e ->
  buildPlan env allowLists wallet_publicKey cm quantityString opts al
  = ([], inl e).
Proof. intros H. unfold buildPlan, IO.bind, IO.lift. now rewrite H. Qed.

(** *** Stamping and signing *)

Lemma partialSign_envelope (pk : PublicKey) (tx : Transaction) :
  envelope (partialSign pk tx) = envelope tx.
Proof. reflexivity. Qed.

Lemma collectSigners_envelope (ss : list Signer) (signers : list PublicKey)
    (tx : Transaction) :
  envelope (snd (foldl collectSigner (signers, tx) ss)) = envelope tx.
Proof.
  revert signers tx. induction ss as [|s ss IH]; intros signers tx; simpl.
  - reflexivity.
  - destruct s; simpl; rewrite IH; reflexivity.
Qed.

Lemma stamped_envelope (bh : BlockhashWithExpiryBlockHeight)
    (tx tx' : Transaction) :
  envelope tx' = envelope tx ->
  stamped wallet_publicKey bh tx -> stamped wallet_publicKey bh tx'.
Proof.
  unfold envelope, stamped. intros H [Hb Hp].
  inversion H as [[Hi Hf Hr]]. now rewrite Hr, Hf.
Qed.

(** Lines 214-223 leave every transaction with the fetched blockhash and
    the wallet as fee payer, and keep their instructions in order. *)
Lemma forEachTransaction_spec (bh : BlockhashWithExpiryBlockHeight)
    (builders : list TransactionBuilder) (i : nat)
    (txs : list Transaction) (signers : list PublicKey) :
  let r := forEachTransaction wallet_publicKey bh builders i txs signers in
  Forall (stamped wallet_publicKey bh) (snd r)
  /\ map tx_instruction (snd r) = map tx_instruction txs.
Proof.
  revert i signers. induction txs as [|tx txs IH]; intros i signers; simpl.
  - split; [constructor|reflexivity].
  - pose proof (collectSigners_envelope (getSignersAt builders i) signers
                  (assignPayerAndBlockhash wallet_publicKey bh tx)) as He.
    destruct (foldl collectSigner _ _) as [signers1 tx1]. simpl in He.
    specialize (IH (S i) signers1).
    destruct (forEachTransaction wallet_publicKey bh builders (S i) txs signers1)
      as [signers2 rest2]. simpl in *.
    destruct IH as [IH1 IH2]. split.
    + constructor; [|assumption].
      apply (stamped_envelope bh _ _ He). now split.
    + rewrite IH2. f_equal. now inversion He.
Qed.

Lemma signLoop_spec (signers : list PublicKey) (txs : list Transaction) :
  Forall quiet (fst (signLoop env signers txs))
  /\ forall txs',
      snd (signLoop env signers txs) = inr txs' ->
      map envelope txs' = map envelope txs.
Proof.
  revert txs. induction signers as [|pk signers IH]; intros txs; simpl.
  - split; [constructor|]. intros txs' H. now inversion H.
  - destruct (signAllTransactions env pk txs) as [e|]; simpl.
    + split; [repeat constructor|]. discriminate.
    + specialize (IH (map (partialSign pk) txs)).
      destruct (signLoop env signers (map (partialSign pk) txs)) as [E r].
      simpl in *. destruct IH as [Hq Hr]. split.
      * constructor; [now split|assumption].
      * intros txs' ->. rewrite (Hr txs' eq_refl), map_map.
        apply map_ext. intros tx. apply partialSign_envelope.
Qed.

Lemma Forall_stamped_envelope (bh : BlockhashWithExpiryBlockHeight)
    (txs txs' : list Transaction) :
  map envelope txs' = map envelope txs ->
  Forall (stamped wallet_publicKey bh) txs ->
  Forall (stamped wallet_publicKey bh) txs'.
Proof.
  revert txs. induction txs' as [|tx' txs' IH]; intros [|tx txs] H Hall;
    try discriminate; [constructor|].
  simpl in H.
  assert (He : envelope tx' = envelope tx) by congruence.
  assert (Ht : map envelope txs' = map envelope txs) by congruence.
  inversion Hall; subst. constructor.
  - eapply stamped_envelope; eassumption.
  - eapply IH; eassumption.
Qed.

Lemma map_envelope_instruction (txs txs' : list Transaction) :
  map envelope txs' = map envelope txs ->
  map tx_instruction txs' = map tx_instruction txs.
Proof.
  intros H. apply (f_equal (map (fun e => fst (fst e)))) in H.
  now rewrite !map_map in H.
Qed.

(** *** Submission and lookup *)

Lemma submitMints_events_from (builders : list TransactionBuilder)
    (g : nat -> nat) (txs : list Transaction) :
  (imap (fun i => submitMint env builders (g i)) txs).*1
  = map (mintSubmission env) txs.
Proof.
  revert g. induction txs as [|tx txs IH]; intros g; [reflexivity|].
  simpl. f_equal. apply (IH (fun i => g (S i))).
Qed.

(** Every mint transaction is submitted, whichever of them fail. *)
Lemma submitMints_events (builders : list TransactionBuilder)
    (txs : list Transaction) :
  fst (submitMints env builders txs) = map (mintSubmission env) txs.
Proof. apply (submitMints_events_from builders (fun i => i)). Qed.

Lemma submitMints_length (builders : list TransactionBuilder)
    (txs : list Transaction) (output : list Output) :
  snd (submitMints env builders txs) = inr output ->
  length output = length txs.
Proof.
  unfold submitMints. simpl. intros H.
  apply Promise_all_length in H. now rewrite H, length_fmap, length_imap.
Qed.

Lemma submitMints_context (builders : list TransactionBuilder)
    (txs : list Transaction) (output : list Output) :
  snd (submitMints env builders txs) = inr output ->
  Forall (fun t => is_Some (tb_context t)) builders ->
  Forall (fun o => is_Some (out_context o)) output.
Proof.
  unfold submitMints. simpl. intros H Hctx.
  apply Forall_lookup. intros i o Hi.
  pose proof (Promise_all_lookup _ _ _ _ H Hi) as Hr.
  rewrite list_lookup_fmap, list_lookup_imap in Hr.
  destruct (txs !! i) as [tx|]; [|discriminate]. simpl in Hr.
  destruct (sendAndConfirmTransaction env tx finalized); [discriminate|].
  destruct (builders !! i) as [t|] eqn:Et; [|discriminate].
  inversion Hr; subst. simpl.
  eapply (proj1 (Forall_lookup _ _) Hctx); eassumption.
Qed.

(** A failed lookup is an absent slot, never a failure of the stage. *)
Lemma lookupAll_spec (output : list Output) :
  Forall calm (fst (lookupAll env output))
  /\ (forall found, snd (lookupAll env output) = inr found ->
       length found = length output)
  /\ (Forall (fun o => is_Some (out_context o)) output ->
      succeeded (snd (lookupAll env output)) = true).
Proof.
  induction output as [|o output (IH1 & IH2 & IH3)]; simpl.
  - split; [constructor|]. split; [|reflexivity].
    intros found H. now inversion H.
  - destruct (out_context o) as [ctx|] eqn:Ec; simpl.
    + destruct (lookupAll env output) as [E [e|found']]; simpl in *;
        rewrite ?app_nil_r.
      * split; [constructor; [now split|assumption]|].
        split; [discriminate|].
        intros Hall. inversion Hall; subst. now apply IH3.
      * split; [constructor; [now split|assumption]|].
        split; [|reflexivity].
        intros found H. inversion H; subst. simpl. f_equal. now apply IH2.
    + split; [constructor|]. split; [discriminate|].
      intros Hall. inversion Hall as [|? ? [c Hc]]; subst. congruence.
Qed.

(** With a context in every output, as [submitMints] leaves them, the
    lookups cannot throw: each yields its item or an absent slot. *)
Lemma lookupAll_slots (output : list Output) :
  Forall (fun o => is_Some (out_context o)) output ->
  snd (lookupAll env output) = inr (map (slotOf env) output).
Proof.
  induction 1 as [|o output [ctx Hc] _ IH]; [reflexivity|].
  simpl. unfold slotOf at 1. rewrite Hc. simpl.
  destruct (lookupAll env output) as [E r]. simpl in *. now rewrite IH.
Qed.

(** *** The whole network stage *)


Lemma network_eq (cm : CandyMachine) (q : Z) (opts : MintOpts)
    (al : option AllowListSettings) :
  network env allowLists wallet_publicKey cm q opts al
  = let '(E1, rp) := buildPlan env allowLists wallet_publicKey cm q opts al in
    match rp with
    | inl e => (E1, inl e)
    | inr plan =>
        match getLatestBlockhash env with
        | inl e => (E1 ++ [GetLatestBlockhash], inl e)
        | inr bh =>
            let '(signers, txs) :=
              forEachTransaction wallet_publicKey bh plan 0
                (map (toTransaction bh) plan) [] in
            let '(E2, rs) := signLoop env signers txs in
            match rs with
            | inl e => (E1 ++ GetLatestBlockhash :: E2, inl e)
            | inr txs' =>
                let '(E3, rr) := submitRoute env al txs' plan in
                match rr with
                | inl e => (E1 ++ GetLatestBlockhash :: E2 ++ E3, inl e)
                | inr (stx, bs) =>
                    let '(E4, ro) := submitMints env bs stx in
                    match ro with
                    | inl e =>
                        (E1 ++ GetLatestBlockhash :: E2 ++ E3 ++ E4, inl e)
                    | inr output =>
                        let '(E5, r) := lookupAll env output in
                        (E1 ++ GetLatestBlockhash :: E2 ++ E3 ++ E4 ++ E5, r)
                    end
                end
            end
        end
    end.
Proof.
  unfold network, IO.bind, rpc_getLatestBlockhash.
  destruct (buildPlan env allowLists wallet_publicKey cm q opts al)
    as [E1 [e|plan]]; [reflexivity|].
  destruct (getLatestBlockhash env) as [e|bh]; [reflexivity|].
  destruct (forEachTransaction _ _ _ _ _ _) as [signers txs].
  destruct (signLoop env signers txs) as [E2 [e|txs']]; [reflexivity|].
  destruct (submitRoute env al txs' plan) as [E3 [e|[stx bs]]].
  { simpl. now rewrite <- ?app_assoc. }
  destruct (submitMints env bs stx) as [E4 [e|output]].
  { simpl. now rewrite <- ?app_assoc. }
  destruct (lookupAll env output) as [E5 r].
  simpl. now rewrite <- ?app_assoc.
Qed.

Lemma sends_mintSubmissions (txs : list Transaction) :
  sends (map (mintSubmission env) txs) = map (finalizedSend env) txs.
Proof. induction txs as [|tx txs IH]; simpl; [reflexivity|]. now f_equal. Qed.

Lemma fetches_mintSubmissions (txs : list Transaction) :
  blockhashFetches (map (mintSubmission env) txs) = 0%nat.
Proof.
  induction txs as [|tx txs IH]; [reflexivity|].
  simpl. now rewrite blockhashFetches_cons.
Qed.

(** The three ways lines 229-235 can go. *)
Lemma submitRoute_spec (al : option AllowListSettings)
    (txs : list Transaction) (builders : list TransactionBuilder) :
  (al = None
   /\ submitRoute env al txs builders = ([], inr (txs, builders)))
  \/ (al <> None /\ txs = []
      /\ submitRoute env al txs builders = ([], inl (TypeError "serialize")))
  \/ (exists rtx rest,
        al <> None /\ txs = rtx :: rest
        /\ submitRoute env al txs builders
           = ([SendAndConfirm rtx processed
                 (succeeded (sendAndConfirmTransaction env rtx processed))],
              match sendAndConfirmTransaction env rtx processed with
              | inl e => inl e
              | inr _ => inr (rest, tail builders)
              end)).
Proof.
  destruct al as [a|]; [|now left]. right.
  destruct txs as [|rtx rest]; [now left|]. right.
  exists rtx, rest. split; [discriminate|]. split; [reflexivity|].
  unfold submitRoute, rpc_sendAndConfirmTransaction, IO.bind. simpl.
  now destruct (sendAndConfirmTransaction env rtx processed).
Qed.

Opaque submitMints submitRoute buildPlan.

(** The blockhash is fetched at most once, exactly once when the plan
    was built, and whatever is submitted carries it. *)
Lemma network_blockhash (cm : CandyMachine) (q : Z) (opts : MintOpts)
    (al : option AllowListSettings) :
  let run := network env allowLists wallet_publicKey cm q opts al in
  (blockhashFetches (fst run) <= 1)%nat
  /\ (succeeded (snd (buildPlan env allowLists wallet_publicKey cm q opts al))
      = true -> blockhashFetches (fst run) = 1%nat)
  /\ (forall tx c ok,
        (tx, c, ok) ∈ sends (fst run) ->
        blockhashFetches (fst run) = 1%nat
        /\ exists bh, getLatestBlockhash env = inr bh
                     /\ stamped wallet_publicKey bh tx).
Proof.
  cbv zeta. rewrite network_eq.
  pose proof (buildPlan_spec cm q opts al) as [Hq1 _]. simpl in Hq1.
  destruct (buildPlan env allowLists wallet_publicKey cm q opts al)
    as [E1 [e|plan]]; cbn [fst snd succeeded] in *.
  { rewrite (quiet_fetches _ Hq1), (quiet_sends _ Hq1).
    split; [lia|]. split; [discriminate|]. intros tx c ok Hin.
    now apply elem_of_nil in Hin. }
  destruct (getLatestBlockhash env) as [e|bh] eqn:Hbh; simpl.
  { rewrite blockhashFetches_app, sends_app, (quiet_fetches _ Hq1),
      (quiet_sends _ Hq1). simpl.
    split; [reflexivity|]. split; [reflexivity|]. intros tx c ok Hin.
    now apply elem_of_nil in Hin. }
  pose proof (forEachTransaction_spec bh plan 0 (map (toTransaction bh) plan) [])
    as [Hst _]. simpl in Hst.
  destruct (forEachTransaction _ _ _ _ _ _) as [signers txs]. simpl in Hst.
  pose proof (signLoop_spec signers txs) as [Hq2 Henv].
  destruct (signLoop env signers txs) as [E2 [e|txs']]; cbn [fst snd succeeded] in *.
  { rewrite blockhashFetches_app, sends_app, blockhashFetches_cons,
      (quiet_fetches _ Hq1), (quiet_sends _ Hq1), (quiet_fetches _ Hq2).
    simpl. rewrite (quiet_sends _ Hq2).
    split; [reflexivity|]. split; [reflexivity|]. intros tx c ok Hin.
    now apply elem_of_nil in Hin. }
  assert (Hst' : Forall (stamped wallet_publicKey bh) txs').
  { eapply Forall_stamped_envelope; [apply Henv; reflexivity|assumption]. }
  assert (Hcount : forall E,
    blockhashFetches E = 0%nat ->
    blockhashFetches (E1 ++ GetLatestBlockhash :: E2 ++ E) = 1%nat).
  { intros E HE.
    rewrite blockhashFetches_app, blockhashFetches_cons, blockhashFetches_app,
      (quiet_fetches _ Hq1), (quiet_fetches _ Hq2), HE. reflexivity. }
  assert (Hsends : forall E,
    sends (E1 ++ GetLatestBlockhash :: E2 ++ E) = sends E).
  { intros E. rewrite sends_app, (quiet_sends _ Hq1). simpl.
    change (omap submission (E2 ++ E)) with (sends (E2 ++ E)).
    now rewrite sends_app, (quiet_sends _ Hq2). }
  assert (Hgoal : forall E (r : Error + list (option Nft)),
    blockhashFetches E = 0%nat ->
    (forall tx c ok, (tx, c, ok) ∈ sends E -> tx ∈ txs') ->
    (blockhashFetches (fst (E1 ++ GetLatestBlockhash :: E2 ++ E, r)) <= 1)%nat
    /\ (true = true ->
        blockhashFetches (fst (E1 ++ GetLatestBlockhash :: E2 ++ E, r))
        = 1%nat)
    /\ (forall tx c ok,
          (tx, c, ok) ∈ sends (fst (E1 ++ GetLatestBlockhash :: E2 ++ E, r)) ->
          blockhashFetches (fst (E1 ++ GetLatestBlockhash :: E2 ++ E, r))
          = 1%nat
          /\ exists bh0, @inr Error _ bh = inr bh0
                        /\ stamped wallet_publicKey bh0 tx)).
  { intros E r HE Hin. simpl. rewrite (Hcount E HE), Hsends.
    split; [lia|]. split; [reflexivity|]. intros tx c ok Htx.
    split; [reflexivity|]. exists bh. split; [reflexivity|].
    eapply (proj1 (Forall_forall _ _) Hst'). eapply Hin. eassumption. }
  destruct (submitRoute_spec al txs' plan)
    as [[-> Hr]|[(Hal & -> & Hr)|(rtx & rest & Hal & -> & Hr)]]; rewrite Hr.
  - (* no route *)
    pose proof (submitMints_events plan txs') as Hev.
    destruct (submitMints env plan txs') as [E4 [e|output]]; simpl in Hev;
      subst E4.
    + apply (Hgoal (map (mintSubmission env) txs') (inl e)).
      * apply fetches_mintSubmissions.
      * intros tx c ok. rewrite sends_mintSubmissions.
        intros Hin. apply list_elem_of_fmap in Hin as (tx0 & Heq & Hin).
        now inversion Heq; subst.
    + pose proof (lookupAll_spec output) as [Hq5 _].
      destruct (lookupAll env output) as [E5 r]. simpl in Hq5.
      apply (Hgoal (map (mintSubmission env) txs' ++ E5) r).
      * now rewrite blockhashFetches_app, fetches_mintSubmissions,
          (calm_fetches _ Hq5).
      * intros tx c ok.
        rewrite sends_app, sends_mintSubmissions, (calm_sends _ Hq5),
          app_nil_r.
        intros Hin. apply list_elem_of_fmap in Hin as (tx0 & Heq & Hin).
        now inversion Heq; subst.
  - (* route expected, nothing to shift *)
    apply (Hgoal [] _); [reflexivity|].
    intros tx c ok Hin. now apply elem_of_nil in Hin.
  - (* route submitted *)
    destruct (sendAndConfirmTransaction env rtx processed) as [e|sig] eqn:Es.
    + apply (Hgoal [_] _); [reflexivity|].
      intros tx c ok Hin. apply list_elem_of_singleton in Hin.
      inversion Hin; subst. left.
    + pose proof (submitMints_events (tail plan) rest) as Hev.
      destruct (submitMints env (tail plan) rest) as [E4 [e|output]];
        simpl in Hev; subst E4.
      * apply (Hgoal (_ :: map (mintSubmission env) rest) (inl e)).
        -- now rewrite blockhashFetches_cons, fetches_mintSubmissions.
        -- intros tx c ok. simpl.
           change (omap submission (map (mintSubmission env) rest))
             with (sends (map (mintSubmission env) rest)).
           rewrite sends_mintSubmissions. intros Hin.
           apply elem_of_cons in Hin as [Heq|Hin].
           ++ inversion Heq; subst. left.
           ++ apply list_elem_of_fmap in Hin as (tx0 & Heq & Hin).
              inversion Heq; subst. now right.
      * pose proof (lookupAll_spec output) as [Hq5 _].
        destruct (lookupAll env output) as [E5 r]. simpl in Hq5.
        apply (Hgoal (_ :: map (mintSubmission env) rest ++ E5) r).
        -- now rewrite blockhashFetches_cons, blockhashFetches_app,
             fetches_mintSubmissions, (calm_fetches _ Hq5).
        -- intros tx c ok. simpl.
           change (omap submission (map (mintSubmission env) rest ++ E5))
             with (sends (map (mintSubmission env) rest ++ E5)).
           rewrite sends_app, sends_mintSubmissions, (calm_sends _ Hq5),
             app_nil_r.
           intros Hin. apply elem_of_cons in Hin as [Heq|Hin].
           ++ inversion Heq; subst. left.
           ++ apply list_elem_of_fmap in Hin as (tx0 & Heq & Hin).
              inversion Heq; subst. now right.
Qed.

Lemma routePart_length (cm : CandyMachine) (opts : MintOpts)
    (al : option AllowListSettings) (route : list TransactionBuilder) :
  routePart env allowLists wallet_publicKey cm opts al = inr route ->
  match al with
  | None => route = []
  | Some _ => exists p, route = [callCandyGuardRouteBuilder env p]
  end.
Proof.
  unfold routePart. destruct al as [a|]; [|now inversion 1].
  destruct (merkles _ ≫= _) as [merkle|]; [|discriminate].
  destruct (negb _); [discriminate|]. inversion 1. now eexists.
Qed.

Lemma lookups_mintSubmissions (txs : list Transaction) :
  lookups (map (mintSubmission env) txs) = [].
Proof. induction txs as [|tx txs IH]; [reflexivity|exact IH]. Qed.

(** How a run of the network stage looks from outside: either it fails
    before anything is submitted, or the signed transactions mirror the
    plan and are submitted, the route transaction first and alone. *)
Lemma network_shape (cm : CandyMachine) (q : Z) (opts : MintOpts)
    (al : option AllowListSettings) :
  let run := network env allowLists wallet_publicKey cm q opts al in
  (sends (fst run) = [] /\ lookups (fst run) = []
   /\ exists e, snd run = inl e)
  \/ exists route mints txs',
      snd (buildPlan env allowLists wallet_publicKey cm q opts al)
      = inr (route ++ mints)
      /\ routePart env allowLists wallet_publicKey cm opts al = inr route
      /\ (length mints = Z.to_nat q
          /\ Forall (fun t => isRouteIx (tb_instruction t) = false) mints)
      /\ map tx_instruction txs' = map tb_instruction (route ++ mints)
      /\ ((al = None
           /\ sends (fst run) = map (finalizedSend env) txs'
           /\ reconciled env mints txs' run)
          \/ exists rtx rest,
              al <> None /\ txs' = rtx :: rest
              /\ ((exists e,
                     sendAndConfirmTransaction env rtx processed = inl e
                     /\ sends (fst run) = [(rtx, processed, false)]
                     /\ lookups (fst run) = []
                     /\ snd run = inl e)
                  \/ (succeeded (sendAndConfirmTransaction env rtx processed)
                      = true
                      /\ sends (fst run)
                         = (rtx, processed, true)
                           :: map (finalizedSend env) rest
                      /\ reconciled env mints rest run))).
Proof.
  cbv zeta. rewrite network_eq.
  pose proof (buildPlan_spec cm q opts al) as [Hq1 Hspec].
  cbv zeta in Hq1, Hspec.
  destruct (buildPlan env allowLists wallet_publicKey cm q opts al)
    as [E1 [e|plan]]; cbn [fst snd] in *.
  { left. split; [now apply quiet_sends|].
    split; [now apply quiet_lookups|now exists e]. }
  destruct (Hspec plan eq_refl) as (route & mints & Hroute & -> & Hix & Hctx).
  clear Hspec.
  destruct (getLatestBlockhash env) as [e|bh] eqn:Hbh; cbn [fst snd].
  { left. split; [|split; [|now exists e]].
    - now rewrite sends_app, (quiet_sends _ Hq1).
    - now rewrite lookups_app, (quiet_lookups _ Hq1). }
  pose proof (forEachTransaction_spec bh (route ++ mints) 0
                (map (toTransaction bh) (route ++ mints)) []) as [_ Hin1].
  cbv zeta in Hin1.
  destruct (forEachTransaction _ _ _ _ _ _) as [signers txs].
  cbn [fst snd] in Hin1.
  pose proof (signLoop_spec signers txs) as [Hq2 Henv].
  destruct (signLoop env signers txs) as [E2 [e|txs']]; cbn [fst snd] in *.
  { left. split; [|split; [|now exists e]].
    - rewrite sends_app, (quiet_sends _ Hq1). simpl. now apply quiet_sends.
    - rewrite lookups_app, (quiet_lookups _ Hq1). simpl.
      now apply quiet_lookups. }
  assert (Hinstr : map tx_instruction txs'
                   = map tb_instruction (route ++ mints)).
  { rewrite (map_envelope_instruction _ _ (Henv txs' eq_refl)), Hin1.
    now rewrite map_map. }
  assert (Hsends : forall E,
    sends (E1 ++ GetLatestBlockhash :: E2 ++ E) = sends E).
  { intros E. rewrite sends_app, (quiet_sends _ Hq1). simpl.
    change (omap submission (E2 ++ E)) with (sends (E2 ++ E)).
    now rewrite sends_app, (quiet_sends _ Hq2). }
  assert (Hlookups : forall E,
    lookups (E1 ++ GetLatestBlockhash :: E2 ++ E) = lookups E).
  { intros E. rewrite lookups_app, (quiet_lookups _ Hq1). simpl.
    change (omap lookup_of (E2 ++ E)) with (lookups (E2 ++ E)).
    now rewrite lookups_app, (quiet_lookups _ Hq2). }
  assert (Hlen : length mints = Z.to_nat q
                 /\ Forall (fun t => isRouteIx (tb_instruction t) = false)
                      mints).
  { split.
    - apply (f_equal length) in Hix.
      now rewrite !length_map, length_seq in Hix.
    - apply Forall_forall. intros t Ht.
      assert (Hi : tb_instruction t ∈ map tb_instruction mints)
        by now apply list_elem_of_fmap_2.
      rewrite Hix in Hi. apply list_elem_of_fmap in Hi as (i & -> & _).
      reflexivity. }
  pose proof (routePart_length cm opts al route Hroute) as Hrl.
  assert (Hrec : forall pre stx,
    lookups pre = [] ->
    reconciled env mints stx
      (let '(E4, ro) := submitMints env mints stx in
       match ro with
       | inl e => (E1 ++ GetLatestBlockhash :: E2 ++ pre ++ E4, inl e)
       | inr output =>
           let '(E5, r) := lookupAll env output in
           (E1 ++ GetLatestBlockhash :: E2 ++ pre ++ E4 ++ E5, r)
       end)
    /\ sends (fst (let '(E4, ro) := submitMints env mints stx in
                   match ro with
                   | inl e => (E1 ++ GetLatestBlockhash :: E2 ++ pre ++ E4,
                               inl e)
                   | inr output =>
                       let '(E5, r) := lookupAll env output in
                       (E1 ++ GetLatestBlockhash :: E2 ++ pre ++ E4 ++ E5, r)
                   end))
       = sends pre ++ map (finalizedSend env) stx).
  { intros pre stx Hpre. unfold reconciled.
    pose proof (submitMints_events mints stx) as Hev.
    pose proof (submitMints_length mints stx) as Hlo.
    pose proof (submitMints_context mints stx) as Hco.
    destruct (submitMints env mints stx) as [E4 [e|output]];
      cbn [fst snd] in *; subst E4.
    - split; [split; [reflexivity|]|].
      + now rewrite Hlookups, lookups_app, Hpre, lookups_mintSubmissions.
      + now rewrite Hsends, sends_app, sends_mintSubmissions.
    - pose proof (lookupAll_spec output) as (Hq5 & _ & _).
      pose proof (lookupAll_slots output (Hco output eq_refl Hctx)) as Hsl.
      destruct (lookupAll env output) as [E5 r]. cbn [fst snd] in *.
      split; [split; [now rewrite Hsl|now apply Hlo]|].
      rewrite Hsends, !sends_app, sends_mintSubmissions, (calm_sends _ Hq5).
      now rewrite app_nil_r. }
  destruct (submitRoute_spec al txs' (route ++ mints))
    as [[-> Hr]|[(Hal & -> & Hr)|(rtx & rest & Hal & -> & Hr)]]; rewrite Hr.
  - (* no route *)
    subst route. cbn [app] in *.
    right. exists [], mints, txs'.
    do 4 (split; [assumption || reflexivity|]). left.
    split; [reflexivity|].
    destruct (Hrec [] txs' eq_refl) as [H1 H2].
    split; [exact H2|exact H1].
  - (* nothing to shift *)
    left. cbn [fst snd]. split; [|split; [|now eexists]].
    + now rewrite Hsends.
    + now rewrite Hlookups.
  - (* the route transaction is submitted *)
    destruct al as [a|]; [|contradiction]. destruct Hrl as [p ->].
    cbn [app tail] in *.
    right. eexists [_], mints, (rtx :: rest).
    do 4 (split; [assumption || reflexivity|]). right.
    exists rtx, rest. split; [assumption|]. split; [reflexivity|].
    destruct (sendAndConfirmTransaction env rtx processed) as [e|sig] eqn:Es;
      cbn [fst snd succeeded].
    + left. exists e. split; [reflexivity|]. split; [|split; [|reflexivity]].
      * now rewrite Hsends.
      * now rewrite Hlookups.
    + right. split; [reflexivity|].
      destruct (Hrec [SendAndConfirm rtx processed true] rest eq_refl)
        as [H1 H2].
      split; [exact H2|exact H1].
Qed.


Transparent submitMints submitRoute buildPlan.

End Stages.

(** ** Mint-limit counters *)

Lemma bump_countAt (n : Z) (h : gmap loc Z) (guards : GuardGroup) (c : loc) :
  countAt (bump n h guards) c
  = countAt h c + (if decide (counterOf guards = Some c) then n else 0).
Proof.
  unfold bump, countAt.
  destruct (counterOf guards) as [c'|] eqn:Ec.
  - destruct (decide (Some c' = Some c)) as [Heq|Hne].
    + inversion Heq; subst. now rewrite lookup_insert_eq.
    + rewrite lookup_insert_ne by congruence. lia.
  - rewrite decide_False by discriminate. lia.
Qed.

(** After the loop of lines 258-261 a counter has grown by [n] once for
    every group that holds it. *)
Lemma foldl_bump_countAt (n : Z) (gs : list GuardGroup) (h : gmap loc Z)
    (c : loc) :
  countAt (foldl (bump n) h gs) c
  = countAt h c
    + n * Z.of_nat (length (filter (fun g => counterOf g = Some c) gs)).
Proof.
  revert h. induction gs as [|g gs IH]; intros h; simpl.
  - lia.
  - rewrite IH, bump_countAt, filter_cons.
    destruct (decide (counterOf g = Some c)); simpl length; lia.
Qed.

(** ** The callback as a whole *)

Section Callback.
Context `{ML : MerkleLib}.
Variable env : Env.
Variable allowLists : option (list AllowList).
Variable wallet_publicKey : option PublicKey.
Variable candyMachine : option CandyMachine.
Variable guardsAndGroups : gmap string GuardGroup.

(** The catch clause logs the caught value and completes by throwing an
    error that carries the classified message. *)
Lemma catchClause_eq (error : Error) (s : St) :
  catchClause error s
  = (Throw (newError (classify error)),
     {| trace := trace s ++ [ConsoleError error];
        heap := heap s; nfts := nfts s |}).
Proof. reflexivity. Qed.

(** The finally clause completes by returning: whatever completion
    reached it, a throw included, is replaced. *)
Lemma finallyClause_eq (s : St) :
  finallyClause s
  = (Return (omap id (nfts s)),
     {| trace := (trace s ++ [SetMinting false]) ++ [Refresh];
        heap := heap s; nfts := nfts s |}).
Proof. reflexivity. Qed.

Lemma try_catch_finally_returns {A} (body : Stmt A)
    (handler : Error -> Stmt A) (s : St) :
  exists v s',
    Stmt.try_catch_finally body handler finallyClause s = (Return v, s').
Proof.
  unfold Stmt.try_catch_finally.
  destruct (body s) as [b s1].
  destruct (match b with Throw e => handler e s1 | _ => (b, s1) end)
    as [c s2].
  rewrite finallyClause_eq. now eexists _, _.
Qed.

(** The callback, case by case. *)
Lemma mint_eq (quantityString : option Z) (opts : MintOpts) (s : St) :
  mint env allowLists wallet_publicKey candyMachine guardsAndGroups
    quantityString opts s
  = if negb (bool_decide (is_Some (guardsAndGroups !! labelOrDefault opts)))
    then (Rejected (newError Messages.UnknownGroup), s)
    else
      match allowListOf allowLists wallet_publicKey opts with
      | inl e => (Rejected e, s)
      | inr al =>
          match candyMachine with
          | None =>
              (Fulfilled (Some []),
               {| trace := trace s
                    ++ [ConsoleError (newError Messages.CandyMachineNotLoaded);
                        SetMinting false; Refresh];
                  heap := heap s; nfts := [] |})
          | Some cm =>
              let run := network env allowLists wallet_publicKey cm
                           (default 1 quantityString) opts al in
              match snd run with
              | inl e =>
                  (Fulfilled (Some []),
                   {| trace := trace s ++ SetMinting true :: fst run
                        ++ [ConsoleError e; SetMinting false; Refresh];
                      heap := heap s; nfts := [] |})
              | inr found =>
                  (Fulfilled (Some (omap id found)),
                   {| trace := trace s ++ SetMinting true :: fst run
                        ++ [SetMinting false; Refresh];
                      heap := foldl (bump (Z.of_nat (length found))) (heap s)
                                (Object_values guardsAndGroups);
                      nfts := found |})
              end
          end
      end.
Proof.
  unfold mint, mint_body.
  destruct (negb (bool_decide _)); [reflexivity|].
  destruct (allowListOf allowLists wallet_publicKey opts) as [e|al];
    [reflexivity|].
  unfold Stmt.bind, Stmt.set_nfts, Stmt.try_catch_finally, tryBlock.
  cbn [trace heap nfts].
  destruct candyMachine as [cm|].
  - unfold Stmt.bind, Stmt.emit, Stmt.liftIO, Stmt.set_nfts, Stmt.get,
      Stmt.set_heap. cbn [trace heap nfts].
    destruct (network env allowLists wallet_publicKey cm _ opts al)
      as [E [e|found]]; cbn [fst snd].
    + rewrite catchClause_eq, finallyClause_eq. cbn [trace heap nfts settle].
      f_equal. f_equal. rewrite <- !app_assoc. reflexivity.
    + rewrite finallyClause_eq. cbn [trace heap nfts settle].
      f_equal. f_equal. rewrite <- !app_assoc. reflexivity.
  - unfold Stmt.throw. rewrite catchClause_eq, finallyClause_eq.
    cbn [trace heap nfts settle]. f_equal. f_equal.
    rewrite <- !app_assoc. reflexivity.
Qed.

End Callback.

(** What the callback adds around the events of the network stage. *)

Lemma sends_wrap (E tl : list Event) :
  Forall quiet tl -> sends (SetMinting true :: E ++ tl) = sends E.
Proof.
  intros Hq. simpl. change (omap submission (E ++ tl)) with (sends (E ++ tl)).
  now rewrite sends_app, (quiet_sends _ Hq), app_nil_r.
Qed.

Lemma fetches_wrap (E tl : list Event) :
  Forall quiet tl ->
  blockhashFetches (SetMinting true :: E ++ tl) = blockhashFetches E.
Proof.
  intros Hq.
  rewrite blockhashFetches_cons, blockhashFetches_app, (quiet_fetches _ Hq).
  simpl. lia.
Qed.

Lemma quiet_failure_tail (e : Error) :
  Forall quiet [ConsoleError e; SetMinting false; Refresh].
Proof. repeat constructor. Qed.

Lemma quiet_success_tail : Forall quiet [SetMinting false; Refresh].
Proof. repeat constructor. Qed.

(** The events that a call adds to the trace. *)
Lemma mint_trace_extends `{ML : MerkleLib} (env : Env)
    (allowLists : option (list AllowList)) (wallet_publicKey : option PublicKey)
    (candyMachine : option CandyMachine) (guardsAndGroups : gmap string GuardGroup)
    (q : option Z) (opts : MintOpts) (s : St) :
  let m := mint env allowLists wallet_publicKey candyMachine guardsAndGroups
             q opts s in
  exists evs,
    trace (snd m) = trace s ++ evs
    /\ ((evs = [] /\ exists e, fst m = Rejected e)
        \/ (candyMachine = None /\ sends evs = []
            /\ blockhashFetches evs = 0%nat)
        \/ exists cm al,
            candyMachine = Some cm
            /\ allowListOf allowLists wallet_publicKey opts = inr al
            /\ sends evs
               = sends (fst (network env allowLists wallet_publicKey cm
                               (default 1 q) opts al))
            /\ blockhashFetches evs
               = blockhashFetches
                   (fst (network env allowLists wallet_publicKey cm
                           (default 1 q) opts al))).
Proof.
  cbv zeta. rewrite mint_eq.
  destruct (negb (bool_decide _)).
  { exists []. cbn [fst snd]. rewrite app_nil_r. split; [reflexivity|].
    left. split; [reflexivity|]. now eexists. }
  destruct (allowListOf allowLists wallet_publicKey opts) as [e|al] eqn:Hal.
  { exists []. cbn [fst snd]. rewrite app_nil_r. split; [reflexivity|].
    left. split; [reflexivity|]. now eexists. }
  destruct candyMachine as [cm|].
  - cbv zeta.
    destruct (network env allowLists wallet_publicKey cm (default 1 q) opts al)
      as [E [e|found]] eqn:Hnet; cbn [fst snd trace].
    + eexists. split; [reflexivity|]. right. right. exists cm, al.
      rewrite Hnet. cbn [fst]. split; [reflexivity|]. split; [reflexivity|].
      split; [apply sends_wrap | apply fetches_wrap];
        apply quiet_failure_tail.
    + eexists. split; [reflexivity|]. right. right. exists cm, al.
      rewrite Hnet. cbn [fst]. split; [reflexivity|]. split; [reflexivity|].
      split; [apply sends_wrap | apply fetches_wrap];
        apply quiet_success_tail.
  - cbn [fst snd trace]. eexists. split; [reflexivity|]. right. left.
    split; [reflexivity|]. split; reflexivity.
Qed.

(** ** Validation *)

Section Validation.
Context `{ML : MerkleLib}.
Variable env : Env.
Variable allowLists : option (list AllowList).
Variable wallet_publicKey : option PublicKey.
Variable guardsAndGroups : gmap string GuardGroup.

(** An unknown label is thrown outside the [try]: the call rejects and
    the state is untouched. *)
Lemma mint_unknown_group (candyMachine : option CandyMachine)
    (q : option Z) (opts : MintOpts) (s : St) :
  guardsAndGroups !! labelOrDefault opts = None ->
  mint env allowLists wallet_publicKey candyMachine guardsAndGroups q opts s
  = (Rejected (newError Messages.UnknownGroup), s).
Proof.
  intros Hnone. rewrite mint_eq, Hnone.
  rewrite bool_decide_eq_false_2; [reflexivity|].
  intros [g Hg]. discriminate.
Qed.

(** A truthy label with no [merkles] in the memo (no allow-list
    configured, or no wallet address) makes line 162 throw, outside the
    [try] as well. *)
Lemma mint_label_without_merkles (candyMachine : option CandyMachine)
    (q : option Z) (opts : MintOpts) (s : St) :
  is_Some (guardsAndGroups !! labelOrDefault opts) ->
  truthy_string (opts_groupLabel opts) = true ->
  merkles (proofMemo allowLists wallet_publicKey) = None ->
  mint env allowLists wallet_publicKey candyMachine guardsAndGroups q opts s
  = (Rejected (TypeError (default "" (opts_groupLabel opts))), s).
Proof.
  intros Hknown Hlabel Hnone.
  rewrite mint_eq, (bool_decide_eq_true_2 _ Hknown). cbn [negb].
  unfold allowListOf, allowListFrom. now rewrite Hlabel, Hnone.
Qed.

(** A missing candy machine is thrown inside the [try]. *)
Lemma mint_not_loaded (q : option Z) (opts : MintOpts) (s : St)
    (al : option AllowListSettings) :
  is_Some (guardsAndGroups !! labelOrDefault opts) ->
  allowListOf allowLists wallet_publicKey opts = inr al ->
  mint env allowLists wallet_publicKey None guardsAndGroups q opts s
  = (Fulfilled (Some []),
     {| trace := trace s
          ++ [ConsoleError (newError Messages.CandyMachineNotLoaded);
              SetMinting false; Refresh];
        heap := heap s; nfts := [] |}).
Proof.
  intros Hknown Hal.
  now rewrite mint_eq, (bool_decide_eq_true_2 _ Hknown), Hal.
Qed.

End Validation.

(** C6. A call for a group with allow-list settings whose proof is empty
    raises [NotInAllowList] before anything is built or submitted, and
    nothing is retried; but the error is raised inside the [try], so the
    catch clause logs it and the [return] of the finally clause replaces
    the throw: the call is fulfilled with the empty list. *)
Theorem mint_not_in_allow_list `{ML : MerkleLib} (env : Env)
    (allowLists : option (list AllowList)) (wallet_publicKey : option PublicKey)
    (cm : CandyMachine) (guardsAndGroups : gmap string GuardGroup)
    (q : option Z) (opts : MintOpts) (s : St) (a : AllowListSettings) :
  is_Some (guardsAndGroups !! labelOrDefault opts) ->
  allowListOf allowLists wallet_publicKey opts = inr (Some a) ->
  settings_proof a = [] ->
  mint env allowLists wallet_publicKey (Some cm) guardsAndGroups q opts s
  = (Fulfilled (Some []),
     {| trace := trace s
          ++ [SetMinting true;
              ConsoleError (newError Messages.NotInAllowList);
              SetMinting false; Refresh];
        heap := heap s; nfts := [] |}).
Proof.
  intros Hknown Hal Hempty.
  rewrite mint_eq, (bool_decide_eq_true_2 _ Hknown), Hal. cbn [negb]. cbv zeta.
  assert (Hnet : network env allowLists wallet_publicKey cm (default 1 q) opts
                   (Some a)
                 = ([], inl (newError Messages.NotInAllowList))).
  { rewrite network_eq.
    rewrite (buildPlan_route_fails env allowLists wallet_publicKey cm _ opts
               (Some a) (newError Messages.NotInAllowList)); [reflexivity|].
    rewrite (routePart_Some env _ _ cm opts a Hal). now rewrite Hempty. }
  now rewrite Hnet.
Qed.

Lemma mint_not_in_allow_list_witness :
  let m := @mint listMerkle (Demo.env false [] []) Demo.allowLists (Some "D")
             (Some Demo.cm) (Demo.groups []) (Some 2) (Demo.opts (Some "wl"))
             Demo.s0 in
  fst m = Fulfilled (Some []) /\ sends (trace (snd m)) = [].
Proof.
  intros m.
  assert (Hm : m = (Fulfilled (Some []),
                    {| trace := trace Demo.s0
                         ++ [SetMinting true;
                             ConsoleError (newError Messages.NotInAllowList);
                             SetMinting false; Refresh];
                       heap := heap Demo.s0; nfts := [] |})).
  { apply (@mint_not_in_allow_list listMerkle (Demo.env false [] [])
             Demo.allowLists (Some "D") Demo.cm (Demo.groups []) (Some 2)
             (Demo.opts (Some "wl")) Demo.s0
             {| settings_proof := [] |}).
    - vm_compute. now eexists.
    - vm_compute. reflexivity.
    - reflexivity. }
  rewrite Hm. split; reflexivity.
Defined.

(** ** Failures inside the try block *)




(** ** Reconciliation *)

(** C2 (as amended). When a mint call reaches reconciliation, the lookup
    results [found] have one slot for each finalized mint transaction,
    that is, as many as the requested quantity; every mint-limit counter
    grows by that number of slots, absent ones included, once for each
    group that holds it; and the call is fulfilled with exactly the
    non-absent items. *)
Theorem mint_reconciliation `{ML : MerkleLib} (env : Env)
    (allowLists : option (list AllowList)) (wallet_publicKey : option PublicKey)
    (cm : CandyMachine) (guardsAndGroups : gmap string GuardGroup)
    (q : option Z) (opts : MintOpts) (s : St)
    (al : option AllowListSettings) (found : list (option Nft)) :
  is_Some (guardsAndGroups !! labelOrDefault opts) ->
  allowListOf allowLists wallet_publicKey opts = inr al ->
  snd (network env allowLists wallet_publicKey cm (default 1 q) opts al)
  = inr found ->
  let m := mint env allowLists wallet_publicKey (Some cm) guardsAndGroups
             q opts s in
  fst m = Fulfilled (Some (omap id found))
  /\ length found = Z.to_nat (default 1 q)
  /\ forall c,
      countAt (heap (snd m)) c
      = countAt (heap s) c
        + Z.of_nat (length found) * Z.of_nat (owners c guardsAndGroups).
Proof.
  intros Hknown Hal Hnet. cbv zeta.
  rewrite mint_eq, (bool_decide_eq_true_2 _ Hknown), Hal. cbn [negb]. cbv zeta.
  rewrite Hnet. cbn [fst snd heap]. split; [reflexivity|]. split.
  - destruct (network_shape env allowLists wallet_publicKey cm (default 1 q)
                opts al)
      as [(_ & _ & e & He)|(route & mints & txs' & _ & Hroute & [Hlen _]
                            & Hinstr & Hcases)].
    { rewrite Hnet in He. discriminate. }
    apply (f_equal length) in Hinstr.
    rewrite !length_map, length_app in Hinstr.
    apply routePart_length in Hroute.
    assert (Hslots : forall stx,
      reconciled env mints stx
        (network env allowLists wallet_publicKey cm (default 1 q) opts al) ->
      length found = length stx).
    { intros stx. unfold reconciled.
      destruct (snd (submitMints env mints stx)) as [e|output];
        rewrite Hnet; intros [H1 H2]; [discriminate|].
      inversion H1; subst found. now rewrite length_map. }
    destruct Hcases as [(-> & _ & Hrec)
                       |(rtx & rest & Hal' & -> & [(e & _ & _ & _ & He)
                                                  |(_ & _ & Hrec)])].
    + subst route. rewrite (Hslots _ Hrec). simpl in Hinstr. lia.
    + rewrite Hnet in He. discriminate.
    + destruct al as [a|]; [|contradiction].
      destruct Hroute as [p ->]. rewrite (Hslots _ Hrec).
      simpl in Hinstr. lia.
  - intros c. unfold owners. apply foldl_bump_countAt.
Qed.

Lemma mint_reconciliation_witness :
  let env := Demo.env false [] ["mint1"] in
  let m := @mint listMerkle env Demo.allowLists (Some "A") (Some Demo.cm)
             (Demo.groups []) (Some 3) (Demo.opts None) Demo.s0 in
  fst m = Fulfilled (Some ["nft-mint0"; "nft-mint2"])
  /\ countAt (heap (snd m)) 0%nat = countAt (heap Demo.s0) 0%nat + 3 * 1.
Proof.
  intros env m.
  destruct (@mint_reconciliation listMerkle env Demo.allowLists (Some "A")
              Demo.cm (Demo.groups []) (Some 3) (Demo.opts None) Demo.s0 None
              [Some "nft-mint0"; None; Some "nft-mint2"])
    as (Hr & _ & Hc).
  - vm_compute. now eexists.
  - reflexivity.
  - vm_compute. reflexivity.
  - split; [exact Hr|]. exact (Hc 0%nat).
Defined.

(** C2 as stated fails: a call that resolves 2 of 3 requested items
    returns 2 items and moves the counter of its group from 5 to 8, by 3
    and not by 2. *)
Lemma mint_counter_counts_absent_slots :
  let m := @mint listMerkle (Demo.env false [] ["mint1"]) Demo.allowLists
             (Some "A") (Some Demo.cm) (Demo.groups []) (Some 3)
             (Demo.opts None) Demo.s0 in
  nfts (snd m) = [Some "nft-mint0"; None; Some "nft-mint2"]
  /\ fst m = Fulfilled (Some ["nft-mint0"; "nft-mint2"])
  /\ countAt (heap Demo.s0) 0%nat = 5
  /\ countAt (heap (snd m)) 0%nat = 8
  /\ countAt (heap (snd m)) 0%nat <> countAt (heap Demo.s0) 0%nat + 2.
Proof. vm_compute. repeat split. discriminate. Qed.

(** ** The route transaction *)

(** C5. In a mint call with allow-list settings the route transaction is
    the first submission, at [processed] commitment, and the mint
    transactions are submitted, at [finalized] commitment, only after it
    was confirmed; when the route submission fails no mint transaction is
    submitted and the failure is logged, but the call does not fail: it is
    fulfilled with the empty list, the [return] of the finally clause
    having replaced the classified error thrown by the catch clause. *)
Theorem mint_route_gate `{ML : MerkleLib} (env : Env)
    (allowLists : option (list AllowList)) (wallet_publicKey : option PublicKey)
    (cm : CandyMachine) (guardsAndGroups : gmap string GuardGroup)
    (q : option Z) (opts : MintOpts) (s : St) (a : AllowListSettings) :
  is_Some (guardsAndGroups !! labelOrDefault opts) ->
  allowListOf allowLists wallet_publicKey opts = inr (Some a) ->
  let m := mint env allowLists wallet_publicKey (Some cm) guardsAndGroups
             q opts s in
  exists evs,
    trace (snd m) = trace s ++ evs
    /\ (sends evs = []
        \/ exists rtx rest,
            tx_instruction rtx = RouteIx (routeParams cm opts a)
            /\ Forall (fun tx => isRouteIx (tx_instruction tx) = false) rest
            /\ (sends evs
                = (rtx, processed, true) :: map (finalizedSend env) rest
                \/ exists e,
                    sendAndConfirmTransaction env rtx processed = inl e
                    /\ sends evs = [(rtx, processed, false)]
                    /\ ConsoleError e ∈ evs
                    /\ fst m = Fulfilled (Some []))).
Proof.
  intros Hknown Hal. cbv zeta.
  rewrite mint_eq, (bool_decide_eq_true_2 _ Hknown), Hal. cbn [negb]. cbv zeta.
  destruct (network_shape env allowLists wallet_publicKey cm (default 1 q)
              opts (Some a))
    as [(Hs & _ & e & He)|(route & mints & txs' & _ & Hroute & [_ Hmints]
                           & Hinstr & Hcases)].
  { rewrite He. cbn [fst snd trace]. eexists. split; [reflexivity|]. left.
    rewrite sends_wrap by apply quiet_failure_tail. exact Hs. }
  destruct Hcases as [(Hnone & _)|(rtx & rest & _ & -> & Hrun)];
    [discriminate|].
  rewrite (routePart_Some env _ _ cm opts a Hal) in Hroute.
  destruct (settings_proof a) eqn:Hp; [discriminate|].
  inversion Hroute; subst route. clear Hroute.
  simpl in Hinstr.
  assert (Hrtx : tx_instruction rtx = RouteIx (routeParams cm opts a))
    by congruence.
  assert (Hrest : Forall (fun tx => isRouteIx (tx_instruction tx) = false) rest).
  { assert (Hmap : map tx_instruction rest = map tb_instruction mints)
      by congruence.
    apply Forall_forall. intros tx Htx.
    assert (Hi : tx_instruction tx ∈ map tx_instruction rest)
      by now apply list_elem_of_fmap_2.
    rewrite Hmap in Hi. apply list_elem_of_fmap in Hi as (t & -> & Ht).
    exact (proj1 (Forall_forall _ _) Hmints t Ht). }
  destruct Hrun as [(e & Hsend & Hs & _ & He)|(Hok & Hs & _)].
  - rewrite He. cbn [fst snd trace]. eexists. split; [reflexivity|]. right.
    exists rtx, rest. split; [exact Hrtx|]. split; [exact Hrest|]. right.
    exists e. split; [exact Hsend|]. split.
    + rewrite sends_wrap by apply quiet_failure_tail. exact Hs.
    + split; [|reflexivity].
      apply elem_of_cons. right. apply elem_of_app. right. left.
  - destruct (snd (network env allowLists wallet_publicKey cm (default 1 q)
                     opts (Some a))) as [e|found];
      cbn [fst snd trace]; eexists; (split; [reflexivity|]); right;
      exists rtx, rest; (split; [exact Hrtx|]); (split; [exact Hrest|]); left.
    + rewrite sends_wrap by apply quiet_failure_tail. exact Hs.
    + rewrite sends_wrap by apply quiet_success_tail. exact Hs.
Qed.

Lemma mint_route_gate_witness :
  let env := Demo.env true [] [] in
  let m := @mint listMerkle env Demo.allowLists (Some "A") (Some Demo.cm)
             (Demo.groups []) (Some 2) (Demo.opts (Some "wl")) Demo.s0 in
  fst m = Fulfilled (Some [])
  /\ map (fun x => (snd (fst x), snd x)) (sends (trace (snd m)))
     = [(processed, false)]
  /\ exists evs, trace (snd m) = trace Demo.s0 ++ evs.
Proof.
  intros env m. split; [vm_compute; reflexivity|].
  split; [vm_compute; reflexivity|].
  destruct (@mint_route_gate listMerkle env Demo.allowLists (Some "A") Demo.cm
              (Demo.groups []) (Some 2) (Demo.opts (Some "wl")) Demo.s0
              {| settings_proof :=
                   @getMerkleProof listMerkle ["A"; "B"; "C"] "A" |})
    as (evs & Htr & _).
  - vm_compute. now eexists.
  - vm_compute. reflexivity.
  - exists evs. exact Htr.
Defined.

(** ** The default group *)



(** * Further properties of the hook *)

(** ** The course of a mint call *)

Lemma sorted_block (k : nat) (E : list Event) (rest : list nat) :
  repeatable k = true ->
  Forall (fun ev => phase ev = k) E ->
  Forall (fun x => (k < x)%nat) rest ->
  StronglySorted precedes rest ->
  StronglySorted precedes (map phase E ++ rest).
Proof.
  intros Hk HE Hrest Hs. induction E as [|ev E IH]; [exact Hs|].
  inversion HE as [|? ? Hev HE']; subst. simpl.
  constructor; [now apply IH|].
  apply Forall_app. split.
  - apply Forall_forall. intros x Hx.
    apply list_elem_of_fmap in Hx as (ev' & -> & Hin).
    right. split; [|exact Hk].
    symmetry. exact (proj1 (Forall_forall _ _) HE' ev' Hin).
  - eapply Forall_impl; [exact Hrest|]. intros x Hx. now left.
Qed.

Lemma sorted_single (k : nat) (rest : list nat) :
  Forall (fun x => (k < x)%nat) rest ->
  StronglySorted precedes rest ->
  StronglySorted precedes (k :: rest).
Proof.
  intros Hrest Hs. constructor; [exact Hs|].
  eapply Forall_impl; [exact Hrest|]. intros x Hx. now left.
Qed.

Lemma Forall_phase_lt (k j : nat) (E : list Event) (rest : list nat) :
  (k < j)%nat ->
  Forall (fun ev => phase ev = j) E ->
  Forall (fun x => (k < x)%nat) rest ->
  Forall (fun x => (k < x)%nat) (map phase E ++ rest).
Proof.
  intros Hlt HE Hrest. apply Forall_app. split; [|exact Hrest].
  apply Forall_forall. intros x Hx.
  apply list_elem_of_fmap in Hx as (ev & -> & Hin).
  now rewrite (proj1 (Forall_forall _ _) HE ev Hin).
Qed.

Section Phases.
Context `{ML : MerkleLib}.
Variable env : Env.
Variable allowLists : option (list AllowList).
Variable wallet_publicKey : option PublicKey.

Lemma mintLoop_phase (cm : CandyMachine) (opts : MintOpts)
    (al : option AllowListSettings) (indices : list nat)
    (acc : list TransactionBuilder) :
  Forall (fun ev => phase ev = 1%nat)
    (fst (mintLoop env cm opts al indices acc)).
Proof.
  revert acc. induction indices as [|i rest IH]; intros acc; simpl;
    [constructor|].
  unfold mintFromCandyMachineBuilder. simpl.
  destruct (mintBuilder env i (mintParams cm opts al i)) as [e|[signers ctx]];
    simpl; [repeat constructor|].
  match goal with |- context [mintLoop env cm opts al rest ?a] =>
    specialize (IH a); destruct (mintLoop env cm opts al rest a) as [E r]
  end.
  simpl in *. now constructor.
Qed.

Lemma buildPlan_phase (cm : CandyMachine) (q : Z) (opts : MintOpts)
    (al : option AllowListSettings) :
  Forall (fun ev => phase ev = 1%nat)
    (fst (buildPlan env allowLists wallet_publicKey cm q opts al)).
Proof.
  unfold buildPlan, IO.bind, IO.lift.
  destruct (routePart env allowLists wallet_publicKey cm opts al) as [e|route];
    [constructor|].
  pose proof (mintLoop_phase cm opts al (seq 0 (Z.to_nat q)) route) as H.
  destruct (mintLoop env cm opts al _ route) as [E r]. exact H.
Qed.

Lemma signLoop_phase (signers : list PublicKey) (txs : list Transaction) :
  Forall (fun ev => phase ev = 3%nat) (fst (signLoop env signers txs)).
Proof.
  revert txs. induction signers as [|pk signers IH]; intros txs; simpl;
    [constructor|].
  destruct (signAllTransactions env pk txs) as [e|]; simpl;
    [repeat constructor|].
  specialize (IH (map (partialSign pk) txs)).
  destruct (signLoop env signers _) as [E r]. simpl in *. now constructor.
Qed.

Lemma submitRoute_phase (al : option AllowListSettings)
    (txs : list Transaction) (builders : list TransactionBuilder) :
  Forall (fun ev => phase ev = 4%nat) (fst (submitRoute env al txs builders)).
Proof.
  destruct (submitRoute_spec env al txs builders)
    as [[_ ->]|[(_ & _ & ->)|(rtx & rest & _ & _ & ->)]];
    repeat constructor.
Qed.

Lemma submitMints_phase (builders : list TransactionBuilder)
    (txs : list Transaction) :
  Forall (fun ev => phase ev = 5%nat) (fst (submitMints env builders txs)).
Proof.
  rewrite submitMints_events. apply Forall_forall. intros ev Hev.
  now apply list_elem_of_fmap in Hev as (tx & -> & _).
Qed.

Lemma lookupAll_phase (output : list Output) :
  Forall (fun ev => phase ev = 6%nat) (fst (lookupAll env output)).
Proof.
  induction output as [|o output IH]; simpl; [constructor|].
  destruct (out_context o) as [ctx|]; simpl; [|constructor].
  destruct (lookupAll env output) as [E [e|found]]; simpl in *;
    rewrite ?app_nil_r; now constructor.
Qed.

(** The events of the network stage, by phase. *)
Lemma network_blocks (cm : CandyMachine) (q : Z) (opts : MintOpts)
    (al : option AllowListSettings) :
  exists E1 F E2 E3 E4 E5,
    fst (network env allowLists wallet_publicKey cm q opts al)
    = E1 ++ F ++ E2 ++ E3 ++ E4 ++ E5
    /\ Forall (fun ev => phase ev = 1%nat) E1
    /\ (F = [] \/ F = [GetLatestBlockhash])
    /\ Forall (fun ev => phase ev = 3%nat) E2
    /\ Forall (fun ev => phase ev = 4%nat) E3
    /\ Forall (fun ev => phase ev = 5%nat) E4
    /\ Forall (fun ev => phase ev = 6%nat) E5
    /\ (length E3 <= 1)%nat.
Proof.
  rewrite network_eq.
  pose proof (buildPlan_phase cm q opts al) as H1.
  destruct (buildPlan env allowLists wallet_publicKey cm q opts al)
    as [E1 [e|plan]]; cbn [fst] in *.
  { exists E1, [], [], [], [], []. rewrite !app_nil_r.
    repeat split; try assumption; try (now left); try (now right);
      try (simpl; lia); constructor. }
  destruct (getLatestBlockhash env) as [e|bh]; cbn [fst].
  { exists E1, [GetLatestBlockhash], [], [], [], [].
    repeat split; try assumption; try (now left); try (now right);
      try (simpl; lia); constructor. }
  destruct (forEachTransaction _ _ _ _ _ _) as [signers txs].
  pose proof (signLoop_phase signers txs) as H2.
  destruct (signLoop env signers txs) as [E2 [e|txs']]; cbn [fst] in *.
  { exists E1, [GetLatestBlockhash], E2, [], [], []. rewrite !app_nil_r.
    repeat split; try assumption; try (now left); try (now right);
      try (simpl; lia); constructor. }
  pose proof (submitRoute_phase al txs' plan) as H3.
  assert (Hl3 : (length (fst (submitRoute env al txs' plan)) <= 1)%nat).
  { destruct (submitRoute_spec env al txs' plan)
      as [[_ ->]|[(_ & _ & ->)|(rtx & rest & _ & _ & ->)]]; simpl; lia. }
  destruct (submitRoute env al txs' plan) as [E3 [e|[stx bs]]];
    cbn [fst] in *.
  { exists E1, [GetLatestBlockhash], E2, E3, [], []. rewrite !app_nil_r.
    repeat split; try assumption; try (now left); try (now right);
      try (simpl; lia); constructor. }
  pose proof (submitMints_phase bs stx) as H4.
  destruct (submitMints env bs stx) as [E4 [e|output]]; cbn [fst] in *.
  { exists E1, [GetLatestBlockhash], E2, E3, E4, []. rewrite !app_nil_r.
    repeat split; try assumption; try (now left); try (now right);
      try (simpl; lia); constructor. }
  pose proof (lookupAll_phase output) as H5.
  destruct (lookupAll env output) as [E5 r]; cbn [fst] in *.
  exists E1, [GetLatestBlockhash], E2, E3, E4, E5.
  repeat split; try assumption; try (now right).
Qed.

End Phases.

Lemma network_sorted `{ML : MerkleLib} (env : Env)
    (allowLists : option (list AllowList)) (wallet_publicKey : option PublicKey)
    (cm : CandyMachine) (q : Z) (opts : MintOpts)
    (al : option AllowListSettings) (rest : list nat) :
  Forall (fun x => (6 < x)%nat) rest ->
  StronglySorted precedes rest ->
  let N := fst (network env allowLists wallet_publicKey cm q opts al) in
  StronglySorted precedes (map phase N ++ rest)
  /\ Forall (fun x => (0 < x)%nat) (map phase N ++ rest)
  /\ Forall (fun ev => (phase ev < 7)%nat) N.
Proof.
  intros Hrest Hs. cbv zeta.
  destruct (network_blocks env allowLists wallet_publicKey cm q opts al)
    as (E1 & F & E2 & E3 & E4 & E5 & -> & H1 & HF & H2 & H3 & H4 & H5 & Hl3).
  assert (Hw : forall k, (k < 7)%nat ->
            Forall (fun x => (k < x)%nat) rest).
  { intros k Hk. eapply Forall_impl; [exact Hrest|]. simpl. lia. }
  rewrite !map_app, <- !app_assoc.
  assert (S5 : StronglySorted precedes (map phase E5 ++ rest)).
  { apply (sorted_block 6); auto. }
  assert (S4 : StronglySorted precedes (map phase E4 ++ map phase E5 ++ rest)).
  { apply (sorted_block 5); auto.
    apply (Forall_phase_lt 5 6); auto. }
  assert (L4 : forall k, (k < 5)%nat ->
            Forall (fun x => (k < x)%nat)
              (map phase E4 ++ map phase E5 ++ rest)).
  { intros k Hk. apply (Forall_phase_lt k 5); [lia|assumption|].
    apply (Forall_phase_lt k 6); [lia|assumption|]. apply Hw. lia. }
  assert (S3 : StronglySorted precedes
                 (map phase E3 ++ map phase E4 ++ map phase E5 ++ rest)).
  { destruct E3 as [|ev [|ev' E3]]; [exact S4| |simpl in Hl3; lia].
    inversion H3 as [|? ? Hev _]; subst. simpl. rewrite Hev.
    apply sorted_single; [apply L4; lia|exact S4]. }
  assert (L3 : forall k, (k < 4)%nat ->
            Forall (fun x => (k < x)%nat)
              (map phase E3 ++ map phase E4 ++ map phase E5 ++ rest)).
  { intros k Hk. apply (Forall_phase_lt k 4); [lia|assumption|].
    apply L4. lia. }
  assert (S2 : StronglySorted precedes
                 (map phase E2 ++ map phase E3 ++ map phase E4
                  ++ map phase E5 ++ rest)).
  { apply (sorted_block 3); auto. }
  assert (L2 : forall k, (k < 3)%nat ->
            Forall (fun x => (k < x)%nat)
              (map phase E2 ++ map phase E3 ++ map phase E4
               ++ map phase E5 ++ rest)).
  { intros k Hk. apply (Forall_phase_lt k 3); [lia|assumption|].
    apply L3. lia. }
  assert (SF : StronglySorted precedes
                 (map phase F ++ map phase E2 ++ map phase E3 ++ map phase E4
                  ++ map phase E5 ++ rest)
               /\ forall k, (k < 2)%nat ->
                    Forall (fun x => (k < x)%nat)
                      (map phase F ++ map phase E2 ++ map phase E3
                       ++ map phase E4 ++ map phase E5 ++ rest)).
  { destruct HF as [->| ->]; simpl.
    - split; [exact S2|]. intros k Hk. apply L2. lia.
    - split; [apply sorted_single; [apply L2; lia|exact S2]|].
      intros k Hk. constructor; [lia|]. apply L2. lia. }
  destruct SF as [SF LF].
  split; [|split].
  - apply (sorted_block 1); auto.
  - apply (Forall_phase_lt 0 1); [lia|assumption|]. apply LF. lia.
  - rewrite !Forall_app. repeat split.
    + eapply Forall_impl; [exact H1|]. simpl. intros ev ->. lia.
    + destruct HF as [->| ->]; repeat constructor.
    + eapply Forall_impl; [exact H2|]. simpl. intros ev ->. lia.
    + eapply Forall_impl; [exact H3|]. simpl. intros ev ->. lia.
    + eapply Forall_impl; [exact H4|]. simpl. intros ev ->. lia.
    + eapply Forall_impl; [exact H5|]. simpl. intros ev ->. lia.
Qed.

(** X1. The events of a mint call come in the order of lines 170-290: the
    status is set, the mint builders are called, the blockhash is
    fetched, the batch signers sign, the route transaction is submitted,
    the mint transactions are submitted, the items are looked up, an
    error is logged, the status is reset and the refresh is started; only
    builder calls, batch signings, mint submissions and lookups can occur
    more than once. *)
Theorem mint_phases_ordered `{ML : MerkleLib} (env : Env)
    (allowLists : option (list AllowList)) (wallet_publicKey : option PublicKey)
    (candyMachine : option CandyMachine) (guardsAndGroups : gmap string GuardGroup)
    (q : option Z) (opts : MintOpts) (s : St) :
  let m := mint env allowLists wallet_publicKey candyMachine guardsAndGroups
             q opts s in
  exists evs,
    trace (snd m) = trace s ++ evs
    /\ StronglySorted precedes (map phase evs).
Proof.
  cbv zeta. rewrite mint_eq.
  destruct (negb (bool_decide _)).
  { exists []. cbn [snd]. rewrite app_nil_r. split; [reflexivity|constructor]. }
  destruct (allowListOf allowLists wallet_publicKey opts) as [e|al].
  { exists []. cbn [snd]. rewrite app_nil_r. split; [reflexivity|constructor]. }
  destruct candyMachine as [cm|].
  - cbv zeta.
    destruct (snd (network env allowLists wallet_publicKey cm (default 1 q)
                     opts al)) as [e|found]; cbn [snd trace];
      eexists; (split; [reflexivity|]); rewrite map_cons, map_app.
    + destruct (network_sorted env allowLists wallet_publicKey cm
                  (default 1 q) opts al [7; 8; 9]%nat) as (HS & HL & _).
      * repeat constructor; lia.
      * repeat (apply sorted_single; [repeat constructor; lia|]).
        constructor.
      * apply sorted_single; assumption.
    + destruct (network_sorted env allowLists wallet_publicKey cm
                  (default 1 q) opts al [8; 9]%nat) as (HS & HL & _).
      * repeat constructor; lia.
      * repeat (apply sorted_single; [repeat constructor; lia|]).
        constructor.
      * apply sorted_single; assumption.
  - cbn [snd trace]. eexists. split; [reflexivity|]. simpl.
    repeat (apply sorted_single; [repeat constructor; lia|]). constructor.
Qed.

(** X2. Every mint call that is not rejected ends by resetting the status
    and starting the refresh, in that order and once: nothing before
    these two events is a status reset or a refresh.  A rejected call
    does neither, and leaves the state as it was. *)
Theorem mint_cleanup_once `{ML : MerkleLib} (env : Env)
    (allowLists : option (list AllowList)) (wallet_publicKey : option PublicKey)
    (candyMachine : option CandyMachine) (guardsAndGroups : gmap string GuardGroup)
    (q : option Z) (opts : MintOpts) (s : St) :
  let m := mint env allowLists wallet_publicKey candyMachine guardsAndGroups
             q opts s in
  (exists e, fst m = Rejected e /\ snd m = s)
  \/ exists v pre,
      fst m = Fulfilled (Some v)
      /\ trace (snd m) = trace s ++ pre ++ [SetMinting false; Refresh]
      /\ Forall (fun ev => (phase ev < 8)%nat) pre.
Proof.
  cbv zeta. rewrite mint_eq.
  destruct (negb (bool_decide _)); [left; now eexists|].
  destruct (allowListOf allowLists wallet_publicKey opts) as [e|al];
    [left; now eexists|].
  right. destruct candyMachine as [cm|].
  - cbv zeta.
    destruct (network_sorted env allowLists wallet_publicKey cm (default 1 q)
                opts al [] ltac:(constructor) ltac:(constructor))
      as (_ & _ & HN).
    assert (HN8 : Forall (fun ev => (phase ev < 8)%nat)
                    (fst (network env allowLists wallet_publicKey cm
                            (default 1 q) opts al))).
    { eapply Forall_impl; [exact HN|]. simpl. lia. }
    destruct (snd (network env allowLists wallet_publicKey cm (default 1 q)
                     opts al)) as [e|found]; cbn [fst snd trace].
    + eexists _, (SetMinting true :: _ ++ [ConsoleError e]).
      split; [reflexivity|]. split.
      * simpl. now rewrite <- app_assoc.
      * constructor; [simpl; lia|]. apply Forall_app. split; [exact HN8|].
        repeat constructor.
    + eexists _, (SetMinting true :: _).
      split; [reflexivity|]. split; [reflexivity|].
      constructor; [simpl; lia|exact HN8].
  - cbn [fst snd trace].
    eexists _, [ConsoleError (newError Messages.CandyMachineNotLoaded)].
    split; [reflexivity|]. split; [reflexivity|]. repeat constructor.
Qed.

(** ** When a mint call is rejected *)

Lemma merkles_None_iff `{ML : MerkleLib} (allowLists : option (list AllowList))
    (wallet_publicKey : option PublicKey) :
  merkles (proofMemo allowLists wallet_publicKey) = None
  <-> no_allowLists allowLists = true \/ wallet_publicKey = None.
Proof.
  unfold proofMemo. destruct (no_allowLists allowLists).
  - split; [now left|reflexivity].
  - destruct wallet_publicKey as [pk|]; simpl.
    + split; [discriminate|]. intros [H|H]; discriminate.
    + split; [now right|reflexivity].
Qed.

Lemma label_default (opts : MintOpts) :
  truthy_string (opts_groupLabel opts) = true ->
  default "" (opts_groupLabel opts) = labelOrDefault opts.
Proof.
  unfold labelOrDefault.
  destruct (opts_groupLabel opts) as [l|]; simpl; [|discriminate].
  now destruct (String.eqb l "").
Qed.

Lemma allowListOf_inl_iff `{ML : MerkleLib}
    (allowLists : option (list AllowList)) (wallet_publicKey : option PublicKey)
    (opts : MintOpts) (e : Error) :
  allowListOf allowLists wallet_publicKey opts = inl e
  <-> truthy_string (opts_groupLabel opts) = true
      /\ merkles (proofMemo allowLists wallet_publicKey) = None
      /\ e = TypeError (labelOrDefault opts).
Proof.
  unfold allowListOf, allowListFrom.
  destruct (truthy_string (opts_groupLabel opts)) eqn:T.
  - cbv zeta. rewrite (label_default _ T).
    destruct (merkles _) as [ms|].
    + split; [|intros (_ & H & _); discriminate].
      destruct (ms !! labelOrDefault opts); discriminate.
    + split.
      * intros H. inversion H. now repeat split.
      * intros (_ & _ & ->). reflexivity.
  - split; [discriminate|]. intros (H & _). discriminate.
Qed.

(** X3. For a label that [Object.prototype] does not hold, a mint call is
    rejected in exactly two cases: the requested label (or ["default"])
    has no guard group, which gives the error of line 159; or the group
    exists, a label was given, and no allow-list is configured or no
    wallet is connected, which makes line 162 read a property of
    [undefined]. *)
Theorem mint_rejects_iff `{ML : MerkleLib} (env : Env)
    (allowLists : option (list AllowList)) (wallet_publicKey : option PublicKey)
    (candyMachine : option CandyMachine) (guardsAndGroups : gmap string GuardGroup)
    (q : option Z) (opts : MintOpts) (s : St) (e : Error) :
  labelOrDefault opts ∉ Object_prototype_keys ->
  let m := mint env allowLists wallet_publicKey candyMachine guardsAndGroups
             q opts s in
  fst m = Rejected e
  <-> (guardsAndGroups !! labelOrDefault opts = None
       /\ e = newError Messages.UnknownGroup)
      \/ (is_Some (guardsAndGroups !! labelOrDefault opts)
          /\ truthy_string (opts_groupLabel opts) = true
          /\ (no_allowLists allowLists = true \/ wallet_publicKey = None)
          /\ e = TypeError (labelOrDefault opts)).
Proof.
  intros _. cbv zeta. rewrite mint_eq.
  destruct (guardsAndGroups !! labelOrDefault opts) as [g|] eqn:Hg.
  - rewrite bool_decide_eq_true_2 by now eexists. cbn [negb].
    destruct (allowListOf allowLists wallet_publicKey opts) as [e0|al] eqn:Hal.
    + apply allowListOf_inl_iff in Hal as (HT & Hm & ->).
      apply merkles_None_iff in Hm. cbn [fst]. split.
      * intros H. inversion H; subst. right.
        split; [now eexists|]. now repeat split.
      * intros [[H _]|(_ & _ & _ & ->)]; [discriminate|reflexivity].
    + assert (Hnot :
        ~ (truthy_string (opts_groupLabel opts) = true
           /\ (no_allowLists allowLists = true \/ wallet_publicKey = None)
           /\ e = TypeError (labelOrDefault opts))).
      { intros (HT & Hm & He). apply merkles_None_iff in Hm.
        assert (Hinl : allowListOf allowLists wallet_publicKey opts = inl e)
          by (apply allowListOf_inl_iff; now repeat split).
        rewrite Hal in Hinl. discriminate. }
      destruct candyMachine as [cm|]; cbv zeta;
        [destruct (snd (network env allowLists wallet_publicKey cm
                          (default 1 q) opts al))|];
        cbn [fst]; (split; [discriminate|]);
        (intros [[H _]|(_ & H)]; [discriminate|destruct (Hnot H)]).
  - rewrite bool_decide_eq_false_2 by (intros [g Hg']; discriminate).
    cbn [negb fst]. split.
    + intros H. inversion H. now left.
    + intros [[_ ->]|([g Hg'] & _)]; [reflexivity|discriminate].
Qed.

Lemma mint_rejects_iff_witness :
  let m := @mint listMerkle (Demo.env false [] []) None (Some "A")
             (Some Demo.cm) (Demo.groups []) (Some 2) (Demo.opts (Some "wl"))
             Demo.s0 in
  fst m = Rejected (TypeError "wl").
Proof.
  intros m.
  apply (@mint_rejects_iff listMerkle (Demo.env false [] []) None (Some "A")
           (Some Demo.cm) (Demo.groups []) (Some 2) (Demo.opts (Some "wl"))
           Demo.s0 (TypeError "wl")).
  - unfold Object_prototype_keys. intros H. vm_compute in H.
    repeat (apply elem_of_cons in H as [H|H]; [discriminate|]).
    inversion H.
  - right. split; [vm_compute; now eexists|]. split; [reflexivity|].
    split; [now left|reflexivity].
Defined.

(** ** Submissions *)

Lemma finalizedCount_sends (evs evs' : list Event) :
  sends evs = sends evs' -> finalizedCount evs = finalizedCount evs'.
Proof. unfold finalizedCount. now intros ->. Qed.

Lemma finalized_all (env : Env) (txs : list Transaction) :
  length (List.filter isFinalized (map (finalizedSend env) txs)) = length txs.
Proof. induction txs as [|tx txs IH]; simpl; [reflexivity|]. now rewrite IH. Qed.

Lemma lookups_wrap (E tl : list Event) :
  Forall quiet tl -> lookups (SetMinting true :: E ++ tl) = lookups E.
Proof.
  intros Hq. simpl. change (omap lookup_of (E ++ tl)) with (lookups (E ++ tl)).
  now rewrite lookups_app, (quiet_lookups _ Hq), app_nil_r.
Qed.

Lemma submitMints_all_confirmed (env : Env)
    (builders : list TransactionBuilder) (txs : list Transaction)
    (output : list Output) :
  snd (submitMints env builders txs) = inr output ->
  Forall (fun tx => succeeded (sendAndConfirmTransaction env tx finalized)
                    = true) txs.
Proof.
  unfold submitMints. cbn [snd]. intros H.
  pose proof (Promise_all_length _ _ H) as Hlen.
  rewrite length_fmap, length_imap in Hlen.
  apply Forall_lookup. intros i tx Hi.
  assert (Hlt : (i < length output)%nat).
  { rewrite Hlen. eapply lookup_lt_Some. eassumption. }
  apply lookup_lt_is_Some in Hlt as [o Ho].
  pose proof (Promise_all_lookup _ _ _ _ H Ho) as Hr.
  rewrite list_lookup_fmap, list_lookup_imap, Hi in Hr. simpl in Hr.
  now destruct (sendAndConfirmTransaction env tx finalized).
Qed.

(** The network stage submits all mint transactions or none. *)
Lemma network_all_or_none `{ML : MerkleLib} (env : Env)
    (allowLists : option (list AllowList)) (wallet_publicKey : option PublicKey)
    (cm : CandyMachine) (q : Z) (opts : MintOpts)
    (al : option AllowListSettings) :
  let N := fst (network env allowLists wallet_publicKey cm q opts al) in
  finalizedCount N = 0%nat \/ finalizedCount N = Z.to_nat q.
Proof.
  cbv zeta. unfold finalizedCount.
  destruct (network_shape env allowLists wallet_publicKey cm q opts al)
    as [(Hs & _)|(route & mints & txs' & _ & Hroute & [Hlen _] & Hinstr
                  & Hcases)].
  { left. now rewrite Hs. }
  apply (f_equal length) in Hinstr.
  rewrite !length_map, length_app in Hinstr.
  apply routePart_length in Hroute.
  destruct Hcases as [(-> & Hs & _)
                     |(rtx & rest & Hal & -> & [(e & _ & Hs & _)
                                               |(_ & Hs & _)])].
  - right. subst route. rewrite Hs, finalized_all. simpl in Hinstr. lia.
  - left. now rewrite Hs.
  - right. destruct al as [a|]; [|contradiction]. destruct Hroute as [p ->].
    rewrite Hs. simpl. rewrite finalized_all. simpl in Hinstr. lia.
Qed.

(** X4. A mint call submits either all the mint transactions of the
    request or none: the number of submissions at [finalized] commitment
    is 0 or the requested quantity, whichever of them are then rejected
    (line 237 starts them all before any is awaited). *)
Theorem mint_submits_all_or_none `{ML : MerkleLib} (env : Env)
    (allowLists : option (list AllowList)) (wallet_publicKey : option PublicKey)
    (candyMachine : option CandyMachine) (guardsAndGroups : gmap string GuardGroup)
    (q : option Z) (opts : MintOpts) (s : St) :
  let m := mint env allowLists wallet_publicKey candyMachine guardsAndGroups
             q opts s in
  exists evs,
    trace (snd m) = trace s ++ evs
    /\ (finalizedCount evs = 0%nat
        \/ finalizedCount evs = Z.to_nat (default 1 q)).
Proof.
  cbv zeta.
  destruct (mint_trace_extends env allowLists wallet_publicKey candyMachine
              guardsAndGroups q opts s)
    as (evs & Htr & [(Hnil & _)|[(_ & Hs & _)|(cm & al & _ & _ & Hs & _)]]);
    exists evs; (split; [exact Htr|]).
  - left. now rewrite Hnil.
  - left. unfold finalizedCount. now rewrite Hs.
  - rewrite (finalizedCount_sends _ _ Hs). apply network_all_or_none.
Qed.

(** A rejected mint submission fails the network stage before any
    lookup. *)
Lemma network_rejected_submission `{ML : MerkleLib} (env : Env)
    (allowLists : option (list AllowList)) (wallet_publicKey : option PublicKey)
    (cm : CandyMachine) (q : Z) (opts : MintOpts)
    (al : option AllowListSettings) (tx : Transaction) :
  let run := network env allowLists wallet_publicKey cm q opts al in
  (tx, finalized, false) ∈ sends (fst run) ->
  (exists e, snd run = inl e) /\ lookups (fst run) = [].
Proof.
  cbv zeta. intros Hin.
  assert (Hrec : forall stx,
    (tx, finalized, false) ∈ map (finalizedSend env) stx ->
    forall builders,
    reconciled env builders stx
      (network env allowLists wallet_publicKey cm q opts al) ->
    (exists e, snd (network env allowLists wallet_publicKey cm q opts al)
               = inl e)
    /\ lookups (fst (network env allowLists wallet_publicKey cm q opts al))
       = []).
  { intros stx Hstx builders. unfold reconciled.
    destruct (snd (submitMints env builders stx)) as [e|output] eqn:Hsub.
    - intros [H1 H2]. split; [now exists e|exact H2].
    - intros _. exfalso.
      apply submitMints_all_confirmed in Hsub.
      apply list_elem_of_fmap in Hstx as (tx0 & Heq & Hin0).
      inversion Heq as [[Htx Hok]]. subst tx0.
      rewrite (proj1 (Forall_forall _ _) Hsub tx Hin0) in Hok. discriminate. }
  destruct (network_shape env allowLists wallet_publicKey cm q opts al)
    as [(Hs & _)|(route & mints & txs' & _ & _ & _ & _ & Hcases)].
  { rewrite Hs in Hin. now apply elem_of_nil in Hin. }
  destruct Hcases as [(_ & Hs & Hr)
                     |(rtx & rest & _ & _ & [(e & _ & Hs & _)
                                            |(_ & Hs & Hr)])].
  - rewrite Hs in Hin. exact (Hrec txs' Hin mints Hr).
  - rewrite Hs in Hin. apply list_elem_of_singleton in Hin. discriminate.
  - rewrite Hs in Hin. apply elem_of_cons in Hin as [Heq|Hin];
      [discriminate|].
    exact (Hrec rest Hin mints Hr).
Qed.

Lemma finalizedCount_pos (evs : list Event) (tx : Transaction) (ok : bool) :
  (tx, finalized, ok) ∈ sends evs -> finalizedCount evs <> 0%nat.
Proof.
  unfold finalizedCount. intros Hin Hz.
  apply list_elem_of_In in Hin.
  assert (Hf : In (tx, finalized, ok) (List.filter isFinalized (sends evs)))
    by (apply List.filter_In; split; [exact Hin|reflexivity]).
  destruct (List.filter isFinalized (sends evs)); [exact Hf|discriminate].
Qed.

(** X5. When one of the mint submissions of a call is rejected, the call
    is fulfilled with the empty list, no item is looked up and no counter
    changes, although all the mint transactions of the request were
    submitted and the others may have been confirmed. *)
Theorem mint_rejected_submission `{ML : MerkleLib} (env : Env)
    (allowLists : option (list AllowList)) (wallet_publicKey : option PublicKey)
    (candyMachine : option CandyMachine) (guardsAndGroups : gmap string GuardGroup)
    (q : option Z) (opts : MintOpts) (s : St)
    (tx : Transaction) (evs : list Event) :
  let m := mint env allowLists wallet_publicKey candyMachine guardsAndGroups
             q opts s in
  trace (snd m) = trace s ++ evs ->
  (tx, finalized, false) ∈ sends evs ->
  fst m = Fulfilled (Some [])
  /\ heap (snd m) = heap s
  /\ lookups evs = []
  /\ finalizedCount evs = Z.to_nat (default 1 q).
Proof.
  cbv zeta. rewrite mint_eq.
  destruct (negb (bool_decide _)).
  { cbn [fst snd]. intros Htr Hin. rewrite <- (app_nil_r (trace s)) in Htr at 1.
    apply app_inv_head in Htr. subst evs. now apply elem_of_nil in Hin. }
  destruct (allowListOf allowLists wallet_publicKey opts) as [e|al].
  { cbn [fst snd]. intros Htr Hin. rewrite <- (app_nil_r (trace s)) in Htr at 1.
    apply app_inv_head in Htr. subst evs. now apply elem_of_nil in Hin. }
  destruct candyMachine as [cm|].
  - cbv zeta.
    pose proof (network_rejected_submission env allowLists wallet_publicKey cm
                  (default 1 q) opts al tx) as Hrej. cbv zeta in Hrej.
    pose proof (network_all_or_none env allowLists wallet_publicKey cm
                  (default 1 q) opts al) as Hall. cbv zeta in Hall.
    destruct (network env allowLists wallet_publicKey cm (default 1 q) opts al)
      as [N [e|found]]; cbn [fst snd trace heap] in *;
      intros Htr Hin; apply app_inv_head in Htr; subst evs.
    + rewrite sends_wrap in Hin by apply quiet_failure_tail.
      destruct (Hrej Hin) as [_ Hl].
      split; [reflexivity|]. split; [reflexivity|]. split.
      * now rewrite lookups_wrap by apply quiet_failure_tail.
      * rewrite (finalizedCount_sends _ N)
          by (apply sends_wrap, quiet_failure_tail).
        destruct Hall as [H0|Hq]; [|exact Hq].
        destruct (finalizedCount_pos _ _ _ Hin H0).
    + rewrite sends_wrap in Hin by apply quiet_success_tail.
      destruct (Hrej Hin) as [[e He] _]. discriminate.
  - cbn [fst snd trace]. intros Htr Hin. apply app_inv_head in Htr.
    subst evs. now apply elem_of_nil in Hin.
Qed.

Lemma mint_rejected_submission_witness :
  let env := Demo.env false ["mint1"] [] in
  let m := @mint listMerkle env Demo.allowLists (Some "A") (Some Demo.cm)
             (Demo.groups []) (Some 3) (Demo.opts None) Demo.s0 in
  fst m = Fulfilled (Some [])
  /\ heap (snd m) = heap Demo.s0
  /\ map snd (sends (trace (snd m))) = [true; false; true].
Proof.
  intros env m.
  pose (tx := match List.find (fun x => negb (snd x)) (sends (trace (snd m)))
              with
              | Some x => fst (fst x)
              | None => {| tx_instruction :=
                             MintIx (mintParams Demo.cm (Demo.opts None) None 0);
                           feePayer := None; recentBlockhash := None;
                           tx_lastValidBlockHeight := None;
                           signatures := [] |}
              end).
  destruct (@mint_rejected_submission listMerkle env Demo.allowLists (Some "A")
              (Some Demo.cm) (Demo.groups []) (Some 3) (Demo.opts None)
              Demo.s0 tx (trace (snd m)))
    as (Hr & Hh & _).
  - reflexivity.
  - vm_compute. right. left.
  - split; [exact Hr|]. split; [exact Hh|]. vm_compute. reflexivity.
Defined.

(** ** Signers (lines 213-228) *)

Lemma dict_set_elem (k x : PublicKey) (l : list PublicKey) :
  x ∈ dict_set k l <-> x = k \/ x ∈ l.
Proof.
  unfold dict_set. destruct (bool_decide (k ∈ l)) eqn:E.
  - apply bool_decide_eq_true in E. split; [now right|].
    intros [->|H]; assumption.
  - rewrite elem_of_app, list_elem_of_singleton. tauto.
Qed.

Lemma dict_set_NoDup (k : PublicKey) (l : list PublicKey) :
  NoDup l -> NoDup (dict_set k l).
Proof.
  intros Hl. unfold dict_set. destruct (bool_decide (k ∈ l)) eqn:E; [exact Hl|].
  apply bool_decide_eq_false in E.
  apply NoDup_app. split; [exact Hl|]. split.
  - intros x Hx Hk. apply list_elem_of_singleton in Hk. now subst.
  - apply NoDup_singleton.
Qed.

Lemma batchKey_elem (pk : PublicKey) (ss : list Signer) :
  pk ∈ omap batchKey ss <-> IdentitySigner pk ∈ ss.
Proof.
  rewrite list_elem_of_omap. split.
  - intros (sg & Hin & Hk). destruct sg; try discriminate.
    now inversion Hk; subst.
  - intros Hin. now exists (IdentitySigner pk).
Qed.

Lemma collectSigners_spec (ss : list Signer) (signers : list PublicKey)
    (tx : Transaction) :
  let r := foldl collectSigner (signers, tx) ss in
  (NoDup signers -> NoDup (fst r))
  /\ (forall pk, pk ∈ fst r <-> pk ∈ signers \/ IdentitySigner pk ∈ ss)
  /\ signatures (snd r) = signatures tx ++ omap immediateKey ss.
Proof.
  revert signers tx. induction ss as [|sg ss IH]; intros signers tx; simpl.
  - split; [auto|]. split; [|now rewrite app_nil_r].
    intros pk. split; [now left|]. intros [H|H]; [exact H|].
    now apply elem_of_nil in H.
  - destruct sg as [k|k|k|k]; simpl;
      match goal with |- context [foldl collectSigner (?l, ?t) ss] =>
        destruct (IH l t) as (H1 & H2 & H3)
      end; (split; [|split]).
    + intros Hn. apply H1. now apply dict_set_NoDup.
    + intros pk. rewrite H2, dict_set_elem, elem_of_cons.
      split; [intros [[->|H]|H]|intros [H|[H|H]]]; auto.
      inversion H; subst. auto.
    + exact H3.
    + exact H1.
    + intros pk. rewrite H2, elem_of_cons.
      split; [intros [H|H]|intros [H|[H|H]]]; auto. discriminate.
    + rewrite H3. simpl. now rewrite <- app_assoc.
    + exact H1.
    + intros pk. rewrite H2, elem_of_cons.
      split; [intros [H|H]|intros [H|[H|H]]]; auto. discriminate.
    + rewrite H3. simpl. now rewrite <- app_assoc.
    + exact H1.
    + intros pk. rewrite H2, elem_of_cons.
      split; [intros [H|H]|intros [H|[H|H]]]; auto. discriminate.
    + exact H3.
Qed.

Lemma forEachTransaction_signers (wallet_publicKey : option PublicKey)
    (bh : BlockhashWithExpiryBlockHeight) (builders : list TransactionBuilder)
    (i : nat) (txs : list Transaction) (signers : list PublicKey) :
  let r := forEachTransaction wallet_publicKey bh builders i txs signers in
  (NoDup signers -> NoDup (fst r))
  /\ (forall pk,
        pk ∈ fst r
        <-> pk ∈ signers
            \/ exists j, (j < length txs)%nat
                        /\ IdentitySigner pk ∈ getSignersAt builders (i + j))
  /\ (forall j tx',
        snd r !! j = Some tx' ->
        exists tx,
          txs !! j = Some tx
          /\ signatures tx'
             = signatures tx
               ++ omap immediateKey (getSignersAt builders (i + j))).
Proof.
  revert i signers. induction txs as [|tx txs IH]; intros i signers; simpl.
  - split; [auto|]. split; [|intros j tx' H; discriminate].
    intros pk. split; [now left|]. intros [H|(j & Hj & _)]; [exact H|lia].
  - destruct (collectSigners_spec (getSignersAt builders i) signers
                (assignPayerAndBlockhash wallet_publicKey bh tx))
      as (C1 & C2 & C3).
    destruct (foldl collectSigner _ _) as [signers1 tx1]. simpl in C1, C2, C3.
    destruct (IH (S i) signers1) as (I1 & I2 & I3).
    destruct (forEachTransaction wallet_publicKey bh builders (S i) txs signers1)
      as [signers2 rest2]. simpl in *.
    split; [auto|]. split.
    + intros pk. rewrite I2, C2. split.
      * intros [[H|H]|(j & Hj & H)]; [now left| |].
        -- right. exists 0%nat. rewrite Nat.add_0_r. split; [lia|exact H].
        -- right. exists (S j). rewrite Nat.add_succ_r. split; [lia|exact H].
      * intros [H|(j & Hj & H)]; [now left; left|].
        destruct j as [|j].
        -- rewrite Nat.add_0_r in H. now left; right.
        -- right. exists j. rewrite Nat.add_succ_r in H. split; [lia|exact H].
    + intros [|j] tx' Hj; simpl in Hj.
      * inversion Hj; subst. exists tx. rewrite Nat.add_0_r.
        split; [reflexivity|exact C3].
      * destruct (I3 j tx' Hj) as (tx0 & Htx0 & Hsig).
        exists tx0. rewrite Nat.add_succ_r. split; [exact Htx0|exact Hsig].
Qed.

Lemma signLoop_batchSignings (env : Env) (signers : list PublicKey)
    (txs : list Transaction) :
  let E := fst (signLoop env signers txs) in
  (batchSignings E).*1 `prefix_of` signers
  /\ Forall (fun x => snd x = length txs) (batchSignings E)
  /\ (succeeded (snd (signLoop env signers txs)) = true ->
      (batchSignings E).*1 = signers).
Proof.
  cbv zeta. revert txs. induction signers as [|pk signers IH]; intros txs; simpl.
  - split; [exists []; reflexivity|]. split; [constructor|reflexivity].
  - destruct (signAllTransactions env pk txs) as [e|]; simpl.
    + split; [now exists signers|]. split; [repeat constructor|discriminate].
    + destruct (IH (map (partialSign pk) txs)) as (P & F & S).
      destruct (signLoop env signers (map (partialSign pk) txs)) as [E r].
      simpl in *. split; [|split].
      * now apply prefix_cons.
      * constructor; [reflexivity|]. now rewrite length_map in F.
      * intros Hs. f_equal. exact (S Hs).
Qed.

(** X6. A keypair or wrapped signer signs at once, and only, the
    transaction of the builder that lists it: after lines 214-223 the
    transaction made from the builder at an index carries exactly the
    keys of that builder's own keypair and wrapped signers, in order. *)
Theorem immediate_signatures (wallet_publicKey : option PublicKey)
    (bh : BlockhashWithExpiryBlockHeight) (plan : list TransactionBuilder)
    (j : nat) (tx : Transaction) :
  snd (forEachTransaction wallet_publicKey bh plan 0
         (map (toTransaction bh) plan) []) !! j = Some tx ->
  exists t,
    plan !! j = Some t
    /\ tx_instruction tx = tb_instruction t
    /\ signatures tx = omap immediateKey (tb_signers t).
Proof.
  intros Hj.
  destruct (forEachTransaction_signers wallet_publicKey bh plan 0
              (map (toTransaction bh) plan) []) as (_ & _ & H3).
  destruct (H3 j tx Hj) as (tx0 & Htx0 & Hsig).
  rewrite list_lookup_fmap in Htx0.
  destruct (plan !! j) as [t|] eqn:Ht; [|discriminate].
  inversion Htx0; subst tx0. exists t. split; [reflexivity|]. split.
  - destruct (forEachTransaction_spec wallet_publicKey bh plan 0
                (map (toTransaction bh) plan) []) as [_ Hin].
    apply (f_equal (fun l => l !! j)) in Hin.
    rewrite !list_lookup_fmap, Hj, Ht in Hin. simpl in Hin. now inversion Hin.
  - rewrite Hsig. unfold getSignersAt. simpl. now rewrite Ht.
Qed.

Lemma immediate_signatures_witness :
  let plan := resolved (snd (@buildPlan listMerkle (Demo.env false [] [])
                               Demo.allowLists (Some "A") Demo.cm 2
                               (Demo.opts None) None)) in
  let bh := {| blockhash := "bh1"; lastValidBlockHeight := 100 |} in
  exists tx t,
    snd (forEachTransaction (Some "A") bh plan 0 (map (toTransaction bh) plan)
           []) !! 1%nat = Some tx
    /\ plan !! 1%nat = Some t
    /\ signatures tx = ["mint1"].
Proof.
  intros plan bh.
  pose (tx := default (toTransaction bh (callCandyGuardRouteBuilder
                 (Demo.env false [] []) (routeParams Demo.cm (Demo.opts None)
                    {| settings_proof := [] |})))
                (snd (forEachTransaction (Some "A") bh plan 0
                        (map (toTransaction bh) plan) []) !! 1%nat)).
  destruct (immediate_signatures (Some "A") bh plan 1 tx)
    as (t & Ht & _ & Hsig).
  - vm_compute. reflexivity.
  - exists tx, t. split; [vm_compute; reflexivity|]. split; [exact Ht|].
    vm_compute. reflexivity.
Defined.

Lemma batchSignings_app (a b : list Event) :
  batchSignings (a ++ b) = batchSignings a ++ batchSignings b.
Proof. apply omap_app. Qed.

Lemma batchSignings_other (k : nat) (E : list Event) :
  k <> 3%nat -> Forall (fun ev => phase ev = k) E -> batchSignings E = [].
Proof.
  intros Hk. induction 1 as [|ev E Hev _ IH]; [reflexivity|].
  unfold batchSignings in *.
  destruct ev; simpl; try exact IH. simpl in Hev. congruence.
Qed.

Lemma batchSignings_wrap (E tl : list Event) :
  Forall (fun ev => (6 < phase ev)%nat) tl ->
  batchSignings (SetMinting true :: E ++ tl) = batchSignings E.
Proof.
  intros Htl. simpl.
  change (omap batchSigning (E ++ tl)) with (batchSignings (E ++ tl)).
  rewrite batchSignings_app.
  assert (Hnil : batchSignings tl = []).
  { clear E. induction Htl as [|ev tl Hev _ IH]; [reflexivity|].
    unfold batchSignings in *.
    destruct ev; simpl; try exact IH. simpl in Hev. lia. }
  now rewrite Hnil, app_nil_r.
Qed.

(** The batch signings of the network stage are those of the loop of
    lines 226-228 over the prepared plan. *)
Lemma network_batchSignings `{ML : MerkleLib} (env : Env)
    (allowLists : option (list AllowList)) (wallet_publicKey : option PublicKey)
    (cm : CandyMachine) (q : Z) (opts : MintOpts)
    (al : option AllowListSettings) :
  let N := fst (network env allowLists wallet_publicKey cm q opts al) in
  batchSignings N = []
  \/ exists plan bh,
      snd (buildPlan env allowLists wallet_publicKey cm q opts al) = inr plan
      /\ getLatestBlockhash env = inr bh
      /\ batchSignings N
         = batchSignings
             (fst (signLoop env
                     (fst (forEachTransaction wallet_publicKey bh plan 0
                             (map (toTransaction bh) plan) []))
                     (snd (forEachTransaction wallet_publicKey bh plan 0
                             (map (toTransaction bh) plan) [])))).
Proof.
  cbv zeta. rewrite network_eq.
  pose proof (buildPlan_phase env allowLists wallet_publicKey cm q opts al)
    as H1.
  destruct (buildPlan env allowLists wallet_publicKey cm q opts al)
    as [E1 [e|plan]]; cbn [fst snd] in *.
  { left. now apply (batchSignings_other 1). }
  assert (B1 : batchSignings E1 = []) by now apply (batchSignings_other 1).
  destruct (getLatestBlockhash env) as [e|bh]; cbn [fst].
  { left. now rewrite batchSignings_app, B1. }
  right. exists plan, bh. split; [reflexivity|]. split; [reflexivity|].
  destruct (forEachTransaction _ _ _ _ _ _) as [signers txs]. cbn [fst snd].
  destruct (signLoop env signers txs) as [E2 [e|txs']]; cbn [fst].
  { rewrite batchSignings_app, B1. reflexivity. }
  pose proof (submitRoute_phase env al txs' plan) as H3.
  destruct (submitRoute env al txs' plan) as [E3 [e|[stx bs]]]; cbn [fst] in *.
  { rewrite batchSignings_app, B1. simpl.
    change (omap batchSigning (E2 ++ E3)) with (batchSignings (E2 ++ E3)).
    rewrite batchSignings_app, (batchSignings_other 4 E3) by (lia || assumption).
    now rewrite app_nil_r. }
  pose proof (submitMints_phase env bs stx) as H4.
  destruct (submitMints env bs stx) as [E4 [e|output]]; cbn [fst] in *.
  { rewrite batchSignings_app, B1. simpl.
    change (omap batchSigning (E2 ++ E3 ++ E4))
      with (batchSignings (E2 ++ E3 ++ E4)).
    rewrite !batchSignings_app, (batchSignings_other 4 E3),
      (batchSignings_other 5 E4) by (lia || assumption).
    now rewrite app_nil_r. }
  pose proof (lookupAll_phase env output) as H5.
  destruct (lookupAll env output) as [E5 r]; cbn [fst] in *.
  rewrite batchSignings_app, B1. simpl.
  change (omap batchSigning (E2 ++ E3 ++ E4 ++ E5))
    with (batchSignings (E2 ++ E3 ++ E4 ++ E5)).
  rewrite !batchSignings_app, (batchSignings_other 4 E3),
    (batchSignings_other 5 E4), (batchSignings_other 6 E5)
    by (lia || assumption).
  now rewrite app_nil_r.
Qed.

(** X7. In a mint call [signAllTransactions] is called at most once for
    each wallet key: the keys of the batch signings are pairwise
    distinct.  Every such call is for a key that some builder of the
    plan lists as an identity signer, and is handed all the transactions
    of the plan, not only those of the builders that list it. *)
Theorem mint_batch_signers_once `{ML : MerkleLib} (env : Env)
    (allowLists : option (list AllowList)) (wallet_publicKey : option PublicKey)
    (candyMachine : option CandyMachine) (guardsAndGroups : gmap string GuardGroup)
    (q : option Z) (opts : MintOpts) (s : St) :
  let m := mint env allowLists wallet_publicKey candyMachine guardsAndGroups
             q opts s in
  exists evs,
    trace (snd m) = trace s ++ evs
    /\ NoDup (batchSignings evs).*1
    /\ forall cm al plan,
        candyMachine = Some cm ->
        allowListOf allowLists wallet_publicKey opts = inr al ->
        snd (buildPlan env allowLists wallet_publicKey cm (default 1 q) opts al)
        = inr plan ->
        Forall (fun x => snd x = length plan
                         /\ exists t, t ∈ plan
                                     /\ IdentitySigner (fst x) ∈ tb_signers t)
          (batchSignings evs).
Proof.
  cbv zeta. rewrite mint_eq.
  destruct (negb (bool_decide _)).
  { exists []. cbn [snd]. rewrite app_nil_r. split; [reflexivity|].
    split; [constructor|]. intros; constructor. }
  destruct (allowListOf allowLists wallet_publicKey opts) as [e|al].
  { exists []. cbn [snd]. rewrite app_nil_r. split; [reflexivity|].
    split; [constructor|]. intros; constructor. }
  destruct candyMachine as [cm|].
  2:{ cbn [snd trace]. eexists. split; [reflexivity|].
      split; [constructor|]. intros; constructor. }
  cbv zeta.
  assert (Hmain :
    let B := batchSignings
               (fst (network env allowLists wallet_publicKey cm (default 1 q)
                       opts al)) in
    NoDup B.*1
    /\ forall plan,
        snd (buildPlan env allowLists wallet_publicKey cm (default 1 q) opts al)
        = inr plan ->
        Forall (fun x => snd x = length plan
                         /\ exists t, t ∈ plan
                                     /\ IdentitySigner (fst x) ∈ tb_signers t)
          B).
  { cbv zeta.
    destruct (network_batchSignings env allowLists wallet_publicKey cm
                (default 1 q) opts al)
      as [->|(plan & bh & Hplan & _ & ->)].
    { split; [constructor|]. intros; constructor. }
    destruct (forEachTransaction_signers wallet_publicKey bh plan 0
                (map (toTransaction bh) plan) []) as (N1 & N2 & _).
    destruct (forEachTransaction_spec wallet_publicKey bh plan 0
                (map (toTransaction bh) plan) []) as [_ Hin].
    apply (f_equal length) in Hin. rewrite !length_map in Hin.
    destruct (forEachTransaction wallet_publicKey bh plan 0
                (map (toTransaction bh) plan) []) as [signers txs].
    cbn [fst snd] in *.
    destruct (signLoop_batchSignings env signers txs) as ([k Hk] & HF & _).
    specialize (N1 (NoDup_nil_2)).
    split.
    - rewrite Hk in N1. now apply NoDup_app in N1 as [N1 _].
    - intros plan' Hplan'. assert (plan' = plan) as -> by congruence.
      apply Forall_forall. intros [pk n] Hx.
      split.
      + rewrite (proj1 (Forall_forall _ _) HF _ Hx). exact Hin.
      + assert (Hpk : pk ∈ signers).
        { rewrite Hk. apply elem_of_app. left.
          apply list_elem_of_fmap. now exists (pk, n). }
        apply N2 in Hpk as [Hpk|(j & _ & Hj)];
          [now apply elem_of_nil in Hpk|].
        unfold getSignersAt in Hj. simpl in Hj.
        destruct (plan !! j) as [t|] eqn:Et;
          [|now apply elem_of_nil in Hj].
        exists t. split; [|exact Hj].
        apply list_elem_of_lookup. now exists j. }
  cbv zeta in Hmain. destruct Hmain as [HN HF].
  destruct (snd (network env allowLists wallet_publicKey cm (default 1 q)
                   opts al)) as [e|found]; cbn [snd trace];
    eexists; (split; [reflexivity|]);
    rewrite batchSignings_wrap by (repeat constructor);
    (split; [exact HN|]);
    intros cm' al' plan Hcm Hal Hplan;
    inversion Hcm; subst cm'; inversion Hal; subst al'; now apply HF.
Qed.

(** ** The error classifier, case by case *)

(** X8. For a caught value without [msg], the answer depends on the
    first five characters of [message] only, and never on [code]: no
    message gives the timeout text, a message that starts with ["0x138"]
    gives [SOLD OUT!], and every other message the generic text. *)
Theorem classify_without_msg (e : Error) :
  truthy_string (msg e) = false ->
  (truthy_string (message e) = false /\ classify e = Messages.Timeout)
  \/ (truthy_string (message e) = true
      /\ indexOf (default "" (message e)) "0x138" = 0
      /\ classify e = Messages.SoldOut)
  \/ (truthy_string (message e) = true
      /\ indexOf (default "" (message e)) "0x138" <> 0
      /\ classify e = Messages.MintFailed).
Proof.
  intros Hmsg. unfold classify. rewrite Hmsg, (or_string_falsy _ _ Hmsg).
  cbn [negb].
  destruct (truthy_string (message e)); cbn [negb]; [|now left].
  right. cbv zeta.
  destruct (truthy_number (indexOf (default "" (message e)) "0x138")) eqn:E8.
  - right. split; [reflexivity|]. split; [|reflexivity].
    intros H0. rewrite H0 in E8. discriminate.
  - left. apply truthy_number_false in E8. split; [reflexivity|].
    split; [exact E8|].
    destruct (truthy_number (indexOf (default "" (message e)) "0x137")) eqn:E7;
      [reflexivity|].
    apply truthy_number_false in E7. destruct (prefixes_exclusive _ E8 E7).
Qed.

Lemma classify_without_msg_witness :
  classify {| msg := None; message := Some "0x138 custom"; code := Some 312 |}
  = Messages.SoldOut.
Proof.
  destruct (classify_without_msg
              {| msg := None; message := Some "0x138 custom";
                 code := Some 312 |} eq_refl)
    as [[H _]|[(_ & _ & H)|(_ & H & _)]].
  - discriminate.
  - exact H.
  - exfalso. apply H. reflexivity.
Defined.

(** X9. The insufficient-funds text of line 276 is out of reach: the
    classifier answers with it only when the caught value brings that very
    text as its [msg]. *)
Theorem classify_insufficient_funds_only_from_msg (e : Error) :
  classify e = Messages.InsufficientFunds ->
  msg e = Some Messages.InsufficientFunds.
Proof.
  intros Hc.
  destruct (msg e) as [m|] eqn:Em.
  - destruct (String.eqb_spec m Messages.InsufficientFunds) as [->|Hne];
      [reflexivity|].
    exfalso. revert Hc. apply classify_never_insufficient_funds.
    rewrite Em. congruence.
  - exfalso. revert Hc. apply classify_never_insufficient_funds.
    now rewrite Em.
Qed.

Lemma classify_insufficient_funds_only_from_msg_witness :
  msg {| msg := Some Messages.InsufficientFunds; message := None;
         code := None |}
  = Some Messages.InsufficientFunds.
Proof.
  apply (classify_insufficient_funds_only_from_msg
           {| msg := Some Messages.InsufficientFunds; message := None;
              code := None |}).
  reflexivity.
Defined.

(** ** The allow-list index, case by case *)

Lemma Buffer_equals_eq (a b : Bytes) : Buffer_equals a b = true <-> a = b.
Proof.
  split; [|intros ->; apply Buffer_equals_refl].
  revert b. induction a as [|x a IH]; intros [|y b]; simpl;
    try discriminate; [reflexivity|].
  intros H. apply andb_true_iff in H as [Hx Ha].
  apply Byte.byte_dec_bl in Hx. subst. f_equal. now apply IH.
Qed.

Lemma buildMerkles_dom `{ML : MerkleLib} (publicKey : PublicKey)
    (allowLists : list AllowList) (label : string) :
  is_Some (buildMerkles allowLists publicKey !! label)
  <-> label ∈ (groupLabel <$> allowLists).
Proof.
  unfold buildMerkles.
  assert (H : forall m,
    is_Some (foldl (addMerkle publicKey) m allowLists !! label)
    <-> is_Some (m !! label) \/ label ∈ (groupLabel <$> allowLists)).
  { induction allowLists as [|al als IH]; intros m; simpl.
    - split; [now left|]. intros [H|H]; [exact H|].
      now apply elem_of_nil in H.
    - rewrite IH. unfold addMerkle. rewrite elem_of_cons.
      destruct (decide (groupLabel al = label)) as [<-|Hne].
      + rewrite lookup_insert_eq. split; [intros _; right; now left|].
        intros _. left. now eexists.
      + rewrite lookup_insert_ne by exact Hne.
        split; [intros [H|H]; auto|intros [H|[H|H]]; auto].
        congruence. }
  rewrite H, lookup_empty. split; [intros [[x Hx]|Hin]|now right].
  - discriminate.
  - exact Hin.
Qed.

(** ** The memo across renders *)

Lemma renders_snoc `{ML : MerkleLib} (history : list Props) (p : Props) :
  renders (history ++ [p]) = Some (useMemo_proofMemo (renders history) p).
Proof. unfold renders. now rewrite foldl_app. Qed.

(** The memo was always computed for the dependencies of the last
    render. *)
Lemma renders_deps `{ML : MerkleLib} (history : list Props) (p : Props)
    (c : MemoCell) :
  renders (history ++ [p]) = Some c -> cell_deps c = proofMemoDeps p.
Proof.
  rewrite renders_snoc. intros H. inversion H as [Hc]. clear H.
  unfold useMemo_proofMemo. destruct (renders history) as [c0|];
    [|reflexivity].
  destruct (bool_decide (cell_deps c0 = proofMemoDeps p)) eqn:Hd;
    [|reflexivity].
  now apply bool_decide_eq_true in Hd.
Qed.

(** The memo is what the callback made of the last render whose
    dependencies differ from those of the render before it. *)
Lemma renders_source `{ML : MerkleLib} (pre post : list Props) (r : Props) :
  (forall p, last pre = Some p -> proofMemoDeps p <> proofMemoDeps r) ->
  Forall (fun p => proofMemoDeps p = proofMemoDeps r) post ->
  renders (pre ++ r :: post) = Some (computeProofMemo r).
Proof.
  intros Hpre Hpost.
  assert (Hr : renders (pre ++ [r]) = Some (computeProofMemo r)).
  { rewrite renders_snoc. f_equal. unfold useMemo_proofMemo.
    destruct (renders pre) as [c|] eqn:Hc; [|reflexivity].
    destruct pre as [|p0 pre0] using rev_ind; [discriminate|].
    apply renders_deps in Hc.
    rewrite bool_decide_eq_false_2; [reflexivity|].
    rewrite Hc. apply Hpre. apply last_snoc. }
  change (pre ++ r :: post) with (pre ++ [r] ++ post).
  rewrite app_assoc. unfold renders in *. rewrite foldl_app, Hr.
  clear Hr Hpre. induction Hpost as [|p post Hp _ IH]; [reflexivity|].
  cbn [foldl].
  assert (Hstep : useMemo_proofMemo (Some (computeProofMemo r)) p
                  = computeProofMemo r).
  { unfold useMemo_proofMemo. cbn [cell_deps computeProofMemo].
    now rewrite bool_decide_eq_true_2 by (now symmetry). }
  rewrite Hstep. exact IH.
Qed.

(** What the callback computes, for a label that is configured. *)
Lemma proofMemo_compares_roots `{ML : MerkleLib}
    (pre post : list AllowList) (al : AllowList) (publicKey : PublicKey)
    (root : MerkleRoot) :
  groupLabel al ∉ (groupLabel <$> post) ->
  let answer := verifyProof (proofMemo (Some (pre ++ al :: post))
                               (Some publicKey))
                  root (Some (groupLabel al)) in
  (answer = Some true
   <-> Buffer_from root = getRoot (getMerkleTree (addresses al)))
  /\ (answer = Some true \/ answer = Some false).
Proof.
  intros Hlast. cbv zeta. unfold proofMemo.
  rewrite no_allowLists_middle. simpl. unfold verifyProof_merkles. simpl.
  rewrite buildMerkles_lookup by assumption. simpl.
  destruct (Buffer_equals _ _) eqn:E.
  - apply Buffer_equals_eq in E. split; [|now left].
    split; [now intros _|reflexivity].
  - split; [|now right]. split; [discriminate|].
    intros Heq. symmetry in Heq. apply Buffer_equals_eq in Heq. congruence.
Qed.

Lemma proofMemo_undefined_iff `{ML : MerkleLib} (al : AllowList)
    (als : list AllowList) (publicKey : PublicKey) (root : MerkleRoot)
    (label : option string) :
  verifyProof (proofMemo (Some (al :: als)) (Some publicKey)) root label = None
  <-> default "default" label ∉ (groupLabel <$> al :: als).
Proof.
  assert (Hv : verifyProof (proofMemo (Some (al :: als)) (Some publicKey))
                 root label
               = verifyProof_merkles (buildMerkles (al :: als) publicKey)
                   root label) by reflexivity.
  rewrite Hv, <- buildMerkles_dom with (publicKey := publicKey).
  unfold verifyProof_merkles. cbv zeta.
  destruct (buildMerkles (al :: als) publicKey !! default "default" label)
    as [m|]; split.
  - discriminate.
  - intros H. exfalso. apply H. now eexists.
  - intros _ [x Hx]. discriminate.
  - reflexivity.
Qed.

Lemma allowListFrom_proofMemo `{ML : MerkleLib}
    (pre post : list AllowList) (al : AllowList) (publicKey : PublicKey)
    (guards : option (list NftPaymentMintSettings)) :
  groupLabel al <> "" ->
  groupLabel al ∉ (groupLabel <$> post) ->
  allowListFrom (proofMemo (Some (pre ++ al :: post)) (Some publicKey))
    {| opts_groupLabel := Some (groupLabel al); nftGuards := guards |}
  = inr (Some {| settings_proof :=
                   getMerkleProof (addresses al) publicKey |}).
Proof.
  intros Hne Hlast. unfold allowListFrom. cbn [opts_groupLabel truthy_string].
  destruct (String.eqb_spec (groupLabel al) "") as [H|_]; [contradiction|].
  unfold proofMemo. rewrite no_allowLists_middle. simpl.
  now rewrite buildMerkles_lookup.
Qed.

(** X10. The memo is computed at the renders where the wallet object or
    the number of allow-lists differs from the render before, and kept
    otherwise.  With allow-lists and a wallet at the render [r] where it
    was last computed, [verifyProof] for a label configured at [r]
    compares roots and nothing else: it answers [true] exactly when the
    given root is the root of the tree of the last allow-list that carried
    the label at [r], and [false] otherwise, whichever wallet is connected
    and whatever allow-lists of the same number the later renders have. *)
Theorem verifyProof_compares_roots `{ML : MerkleLib}
    (pre post : list Props) (r : Props) (lists1 lists2 : list AllowList)
    (al : AllowList) (key : KeyObject) (root : MerkleRoot) :
  (forall p, last pre = Some p -> proofMemoDeps p <> proofMemoDeps r) ->
  Forall (fun p => proofMemoDeps p = proofMemoDeps r) post ->
  props_allowLists r = Some (lists1 ++ al :: lists2) ->
  props_publicKey r = Some key ->
  groupLabel al ∉ (groupLabel <$> lists2) ->
  "__proto__" ∉ (groupLabel <$> lists1 ++ al :: lists2) ->
  exists c,
    renders (pre ++ r :: post) = Some c
    /\ let answer := verifyProof (cell_value c) root (Some (groupLabel al)) in
       (answer = Some true
        <-> Buffer_from root = getRoot (getMerkleTree (addresses al)))
       /\ (answer = Some true \/ answer = Some false).
Proof.
  intros Hpre Hpost Hlists Hkey Hlast _.
  exists (computeProofMemo r). split; [now apply renders_source|].
  unfold computeProofMemo. cbn [cell_value]. rewrite Hlists, Hkey.
  now apply proofMemo_compares_roots.
Qed.

Lemma verifyProof_compares_roots_witness :
  let key := {| key_ref := 1; key_value := "C" |} in
  let r0 := {| props_allowLists :=
                 Some [ {| groupLabel := "wl"; addresses := ["A"; "B"] |} ];
               props_publicKey := Some key |} in
  let r1 := {| props_allowLists :=
                 Some [ {| groupLabel := "wl"; addresses := ["C"; "D"] |} ];
               props_publicKey := Some key |} in
  let root (l : list string) :=
    RootBytes (@getRoot listMerkle (@getMerkleTree listMerkle l)) in
  exists c,
    @renders listMerkle [r0; r1] = Some c
    /\ verifyProof (cell_value c) (root ["A"; "B"]) (Some "wl") = Some true
    /\ verifyProof (cell_value c) (root ["C"; "D"]) (Some "wl") = Some false.
Proof.
  intros key r0 r1 root.
  destruct (@verifyProof_compares_roots listMerkle [] [r1] r0 [] []
              {| groupLabel := "wl"; addresses := ["A"; "B"] |} key
              (root ["A"; "B"]))
    as (c & Hc & [_ Hyes] & _).
  - discriminate.
  - repeat constructor.
  - reflexivity.
  - reflexivity.
  - apply not_elem_of_nil.
  - simpl. intros H. apply elem_of_cons in H as [H|H]; [discriminate|].
    inversion H.
  - exists c. split; [exact Hc|]. split; [apply Hyes; reflexivity|].
    change ([] ++ r0 :: [r1]) with [r0; r1] in Hc.
    assert (Hv : Some c = Some c) by reflexivity.
    rewrite <- Hc in Hv at 1. vm_compute in Hv. inversion Hv as [Hcv].
    vm_compute. reflexivity.
Defined.

(** X11. With allow-lists and a wallet at the render [r] where the memo
    was last computed, none of the lists labelled ["__proto__"], and for
    a label that [Object.prototype] does not hold, [verifyProof] answers
    [undefined], neither [true] nor [false], exactly when no allow-list
    carried the label at [r]; an omitted label stands for ["default"].
    A label configured since, in the same number of lists, is still
    answered with [undefined]. *)
Theorem verifyProof_undefined_iff `{ML : MerkleLib}
    (pre post : list Props) (r : Props) (al : AllowList)
    (als : list AllowList) (key : KeyObject) (root : MerkleRoot)
    (label : option string) :
  (forall p, last pre = Some p -> proofMemoDeps p <> proofMemoDeps r) ->
  Forall (fun p => proofMemoDeps p = proofMemoDeps r) post ->
  props_allowLists r = Some (al :: als) ->
  props_publicKey r = Some key ->
  "__proto__" ∉ (groupLabel <$> al :: als) ->
  default "default" label ∉ Object_prototype_keys ->
  exists c,
    renders (pre ++ r :: post) = Some c
    /\ (verifyProof (cell_value c) root label = None
        <-> default "default" label ∉ (groupLabel <$> al :: als)).
Proof.
  intros Hpre Hpost Hlists Hkey _ _.
  exists (computeProofMemo r). split; [now apply renders_source|].
  unfold computeProofMemo. cbn [cell_value]. rewrite Hlists, Hkey.
  apply proofMemo_undefined_iff.
Qed.

Lemma verifyProof_undefined_iff_witness :
  let key := {| key_ref := 1; key_value := "A" |} in
  let r0 := {| props_allowLists :=
                 Some [ {| groupLabel := "wl"; addresses := ["A"; "B"] |} ];
               props_publicKey := Some key |} in
  let r1 := {| props_allowLists :=
                 Some [ {| groupLabel := "vip"; addresses := ["A"; "B"] |} ];
               props_publicKey := Some key |} in
  exists c,
    @renders listMerkle [r0; r1] = Some c
    /\ verifyProof (cell_value c) (RootString "AB") (Some "vip") = None.
Proof.
  intros key r0 r1.
  destruct (@verifyProof_undefined_iff listMerkle [] [r1] r0
              {| groupLabel := "wl"; addresses := ["A"; "B"] |} [] key
              (RootString "AB") (Some "vip"))
    as (c & Hc & [_ Hnone]).
  - discriminate.
  - repeat constructor.
  - reflexivity.
  - reflexivity.
  - simpl. intros H. apply elem_of_cons in H as [H|H]; [discriminate|].
    inversion H.
  - cbn [default]. unfold Object_prototype_keys. intros H.
    repeat (apply elem_of_cons in H as [H|H]; [discriminate|]).
    inversion H.
  - exists c. split; [exact Hc|]. apply Hnone. simpl. intros H.
    apply elem_of_cons in H as [H|H]; [discriminate|]. inversion H.
Defined.

(** X12. The allow-list settings of a mint call are read from the memo:
    for a label carried at the render [r] where the memo was last
    computed, they hold the proof of the wallet of [r] in the last
    allow-list that carried the label at [r], also when an earlier list
    had the same label, and whatever lists of the same number the later
    renders have. *)
Theorem allowListFrom_last_entry `{ML : MerkleLib}
    (pre post : list Props) (r : Props) (lists1 lists2 : list AllowList)
    (al : AllowList) (key : KeyObject)
    (guards : option (list NftPaymentMintSettings)) :
  (forall p, last pre = Some p -> proofMemoDeps p <> proofMemoDeps r) ->
  Forall (fun p => proofMemoDeps p = proofMemoDeps r) post ->
  props_allowLists r = Some (lists1 ++ al :: lists2) ->
  props_publicKey r = Some key ->
  groupLabel al <> "" ->
  groupLabel al ∉ (groupLabel <$> lists2) ->
  "__proto__" ∉ (groupLabel <$> lists1 ++ al :: lists2) ->
  exists c,
    renders (pre ++ r :: post) = Some c
    /\ allowListFrom (cell_value c)
         {| opts_groupLabel := Some (groupLabel al); nftGuards := guards |}
       = inr (Some {| settings_proof :=
                        getMerkleProof (addresses al) (key_value key) |}).
Proof.
  intros Hpre Hpost Hlists Hkey Hne Hlast _.
  exists (computeProofMemo r). split; [now apply renders_source|].
  unfold computeProofMemo. cbn [cell_value]. rewrite Hlists, Hkey.
  now apply allowListFrom_proofMemo.
Qed.

Lemma allowListFrom_last_entry_witness :
  let key := {| key_ref := 1; key_value := "C" |} in
  let r0 := {| props_allowLists :=
                 Some [ {| groupLabel := "wl"; addresses := ["A"] |};
                        {| groupLabel := "wl"; addresses := ["A"; "B"] |} ];
               props_publicKey := Some key |} in
  let r1 := {| props_allowLists :=
                 Some [ {| groupLabel := "wl"; addresses := ["A"] |};
                        {| groupLabel := "wl"; addresses := ["C"; "D"] |} ];
               props_publicKey := Some key |} in
  exists c,
    @renders listMerkle [r0; r1] = Some c
    /\ allowListFrom (cell_value c)
         {| opts_groupLabel := Some "wl"; nftGuards := None |}
       = inr (Some {| settings_proof := [] |})
    /\ @getMerkleProof listMerkle ["C"; "D"] "C" <> [].
Proof.
  intros key r0 r1.
  destruct (@allowListFrom_last_entry listMerkle [] [r1] r0
              [ {| groupLabel := "wl"; addresses := ["A"] |} ] []
              {| groupLabel := "wl"; addresses := ["A"; "B"] |} key None)
    as (c & Hc & Hset).
  - discriminate.
  - repeat constructor.
  - reflexivity.
  - reflexivity.
  - discriminate.
  - apply not_elem_of_nil.
  - simpl. intros H.
    repeat (apply elem_of_cons in H as [H|H]; [discriminate|]).
    inversion H.
  - exists c. split; [exact Hc|]. split; [exact Hset|]. discriminate.
Defined.

(** ** Token holdings *)

Lemma no_length_Some {A} (l : list A) : no_length (Some l) = true <-> l = [].
Proof. destruct l; simpl; split; congruence. Qed.

Lemma not_found_true {A} (p : A -> bool) (a : list A) :
  not_found p a = true <-> forall y, y ∈ a -> p y = false.
Proof.
  unfold not_found. induction a as [|y a IH]; simpl.
  - split; [intros _ y H; inversion H|reflexivity].
  - destruct (p y) eqn:Hp.
    + split; [discriminate|]. intros H.
      rewrite (H y) in Hp by left. discriminate.
    + rewrite IH. split.
      * intros H z Hz. inversion Hz; subst; auto.
      * intros H z Hz. apply H. now right.
Qed.

Lemma tokenHoldings_inv (nftHoldings : option (list Metadata))
    (allTokens : option (list Token)) (x : Token) :
  x ∈ tokenHoldings nftHoldings allTokens ->
  exists ns ts,
    nftHoldings = Some ns /\ allTokens = Some ts /\ ns <> []
    /\ x ∈ ts /\ token_mint x ∉ (md_address <$> ns).
Proof.
  unfold tokenHoldings.
  destruct nftHoldings as [ns|]; [|intros H; inversion H].
  destruct allTokens as [ts|]; [|rewrite orb_true_r; intros H; inversion H].
  destruct (no_length (Some ns)) eqn:Hn; [intros H; inversion H|].
  destruct (no_length (Some ts)) eqn:Ht; [intros H; inversion H|].
  cbn [orb default]. rewrite list_elem_of_In, filter_In, <- list_elem_of_In.
  rewrite not_found_true. intros [Hin Hnf].
  exists ns, ts. repeat split; try assumption.
  - intros ->. discriminate.
  - intros (y & Hy & Hin')%list_elem_of_fmap.
    specialize (Hnf y Hin'). rewrite Hy, String.eqb_refl in Hnf.
    discriminate.
Qed.

(** X13. The token holdings are exactly the tokens whose mint is
    the address of none of the wallet's NFTs; they are empty as soon as
    the NFT list or the token list is missing or empty, so a wallet that
    holds tokens and no NFT has no token holdings. *)
Theorem tokenHoldings_spec (nftHoldings : option (list Metadata))
    (allTokens : option (list Token)) (x : Token) :
  x ∈ tokenHoldings nftHoldings allTokens
  <-> exists ns ts,
        nftHoldings = Some ns /\ allTokens = Some ts /\ ns <> []
        /\ x ∈ ts /\ token_mint x ∉ (md_address <$> ns).
Proof.
  split; [apply tokenHoldings_inv|].
  intros (ns & ts & -> & -> & Hne & Hin & Hnot). unfold tokenHoldings.
  assert (Hn : no_length (Some ns) = false).
  { destruct (no_length (Some ns)) eqn:Hn; [|reflexivity].
    apply no_length_Some in Hn. contradiction. }
  assert (Ht : no_length (Some ts) = false).
  { destruct (no_length (Some ts)) eqn:Ht; [|reflexivity].
    apply no_length_Some in Ht. subst ts. inversion Hin. }
  rewrite Hn, Ht. cbn [orb default].
  apply list_elem_of_In, filter_In. split; [now apply list_elem_of_In|].
  apply not_found_true. intros y Hy. apply String.eqb_neq. intros Heq.
  apply Hnot. rewrite Heq. now apply list_elem_of_fmap_2.
Qed.

(** ** Prices and guard states *)

Lemma foldl_insert_other {A V} (key : A -> string) (val : A -> V)
    (g0 : gmap string V) (l : list A) (k : string) :
  k ∉ (key <$> l) ->
  foldl (fun g a => <[key a := val a]> g) g0 l !! k = g0 !! k.
Proof.
  revert g0. induction l as [|a l IH]; intros g0 Hk; [reflexivity|].
  simpl in *. apply not_elem_of_cons in Hk as [Hne Hk].
  rewrite IH by assumption. now apply lookup_insert_ne.
Qed.

Lemma foldl_insert_last {A V} (key : A -> string) (val : A -> V)
    (g0 : gmap string V) (pre post : list A) (x : A) :
  key x ∉ (key <$> post) ->
  foldl (fun g a => <[key a := val a]> g) g0 (pre ++ x :: post) !! key x
  = Some (val x).
Proof.
  intros Hk. rewrite foldl_app. simpl.
  rewrite foldl_insert_other by assumption. apply lookup_insert_eq.
Qed.

Lemma foldl_insert_is_Some {A V} (key : A -> string) (val : A -> V)
    (g0 : gmap string V) (l : list A) (k : string) :
  is_Some (foldl (fun g a => <[key a := val a]> g) g0 l !! k)
  <-> is_Some (g0 !! k) \/ k ∈ (key <$> l).
Proof.
  revert g0. induction l as [|a l IH]; intros g0; simpl.
  - split; [now left|]. intros [H|H]; [assumption|inversion H].
  - rewrite IH, lookup_insert_is_Some', elem_of_cons. intuition congruence.
Qed.

Lemma foldl_entries_lookup {V W} (f : string * V -> W) (g : gmap string V)
    (label : string) :
  foldl (fun acc entry => <[fst entry := f entry]> acc) (∅ : gmap string W)
    (Object_entries g) !! label
  = (fun v => f (label, v)) <$> g !! label.
Proof.
  unfold Object_entries. destruct (g !! label) as [v|] eqn:Hg; simpl.
  - pose proof (NoDup_fst_map_to_list g) as Hnd.
    apply elem_of_map_to_list, list_elem_of_split in Hg as (pre & post & Heq).
    rewrite Heq in *. rewrite fmap_app, fmap_cons in Hnd.
    apply NoDup_app in Hnd as (_ & _ & Hnd). apply NoDup_cons in Hnd as [Hnd _].
    apply (foldl_insert_last fst f ∅ pre post (label, v)). exact Hnd.
  - rewrite foldl_insert_other; [apply lookup_empty|].
    intros ([k v] & -> & Hin)%list_elem_of_fmap.
    apply elem_of_map_to_list in Hin. simpl in Hg. congruence.
Qed.

(** X14. The two folds over the entries of [guardsAndGroups] give, for
    every label, the payment summary and the guard states of that label's
    group and nothing for any other label: the results have the keys of
    [guardsAndGroups], and each value depends on its own group only. *)
Theorem prices_guardStates_lookup {ParsedPricesForUI GuardGroupStates : Type}
    (guardToPaymentUtil : GuardGroup -> ParsedPricesForUI)
    (parseGuardStates : GuardStatesArgs -> GuardGroupStates)
    (candyMachine : option CandyMachine) (wallet_publicKey : option PublicKey)
    (holdings : list Token) (balance : Z)
    (guardsAndGroups : gmap string GuardGroup) (label : string) :
  prices guardToPaymentUtil guardsAndGroups !! label
  = guardToPaymentUtil <$> guardsAndGroups !! label
  /\ guardStates parseGuardStates candyMachine wallet_publicKey holdings
       balance guardsAndGroups !! label
     = (fun guards =>
          parseGuardStates
            {| gs_guards := guards; gs_candyMachine := candyMachine;
               gs_walletAddress := wallet_publicKey;
               gs_tokenHoldings := holdings; gs_balance := balance |})
       <$> guardsAndGroups !! label.
Proof.
  split.
  - unfold prices.
    apply (foldl_entries_lookup (fun e => guardToPaymentUtil (snd e))).
  - unfold guardStates.
    apply (foldl_entries_lookup
             (fun e => parseGuardStates
                {| gs_guards := snd e; gs_candyMachine := candyMachine;
                   gs_walletAddress := wallet_publicKey;
                   gs_tokenHoldings := holdings; gs_balance := balance |})).
Qed.

(** ** The wallet's NFTs and tokens *)

Lemma Array_map_elem {A B} (f : A -> Error + B) (a : list A) (l : list B)
    (y : B) :
  Array_map f a = inr l -> y ∈ l -> exists x, x ∈ a /\ f x = inr y.
Proof.
  revert l. induction a as [|x a IH]; simpl; intros l H Hy.
  - inversion H; subst. inversion Hy.
  - destruct (f x) as [e|y0] eqn:Hf; [discriminate|].
    destruct (Array_map f a) as [e|ys]; [discriminate|].
    inversion H; subst. apply elem_of_cons in Hy as [->|Hy].
    + exists x. split; [left|assumption].
    + destruct (IH ys eq_refl Hy) as (x' & Hx' & Hf').
      exists x'. split; [now right|assumption].
Qed.

(** X15. Every token holding computed from the wallet effect's results
    comes from a token account of the response whose amount parses to
    more than 1 and is the holding's balance, so an account that holds
    exactly one unit never shows; and its mint is the address of none of
    the found items of model ["metadata"]. *)
Theorem wallet_token_holdings (parseInt : string -> option Z)
    (newPublicKey : string -> Error + PublicKey)
    (response : Error + list ParsedTokenAccount) (found : list Metadata)
    (toks : list Token) (x : Token) :
  fetchTokens parseInt newPublicKey response = inr toks ->
  x ∈ tokenHoldings (Some (metadataOnly found)) (Some toks) ->
  1 < balance x
  /\ (forall a, a ∈ found -> md_model a = "metadata" ->
                md_address a <> token_mint x)
  /\ exists value acc,
       response = inr value
       /\ acc ∈ value
       /\ newPublicKey (info_mint acc) = inr (token_mint x)
       /\ parseInt (tokenAmount_amount acc) = Some (balance x)
       /\ decimals x = tokenAmount_decimals acc.
Proof.
  intros Hfetch Hx.
  apply tokenHoldings_inv in Hx as (ns & ts & Hns & Hts & _ & Hin & Hnot).
  inversion Hns; inversion Hts; subst ns ts. clear Hns Hts.
  unfold fetchTokens in Hfetch. destruct response as [e|value]; [discriminate|].
  cbv zeta in Hfetch.
  destruct (Array_map_elem _ _ _ _ Hfetch Hin) as (acc & Hacc & Htok).
  apply list_elem_of_In, filter_In in Hacc as [Hacc Hgt].
  apply list_elem_of_In in Hacc.
  unfold toToken in Htok.
  destruct (newPublicKey (info_mint acc)) as [e|key] eqn:Hkey; [discriminate|].
  inversion Htok; subst x. clear Htok. cbn [balance token_mint decimals] in *.
  unfold gt_one in Hgt.
  destruct (parseInt (tokenAmount_amount acc)) as [n|] eqn:Hn; [|discriminate].
  apply Z.ltb_lt in Hgt. simpl.
  split; [assumption|]. split.
  - intros a Ha Hm Heq. apply Hnot. rewrite <- Heq.
    apply list_elem_of_fmap_2. unfold metadataOnly.
    apply list_elem_of_In, filter_In. split; [now apply list_elem_of_In|].
    rewrite Hm. reflexivity.
  - exists value, acc. repeat split; assumption.
Qed.

Lemma wallet_token_holdings_witness :
  let response : Error + list ParsedTokenAccount :=
    inr [ {| info_mint := "usdc"; tokenAmount_amount := "250";
             tokenAmount_decimals := 6 |};
          {| info_mint := "nft7"; tokenAmount_amount := "1";
             tokenAmount_decimals := 0 |} ] in
  let found := [ {| md_address := "nft7"; md_model := "metadata" |} ] in
  let x := {| token_mint := "usdc"; balance := 250; decimals := 6 |} in
  tokenHoldings (Some (metadataOnly found))
    (Some [x]) = [x]
  /\ 1 < balance x.
Proof.
  intros response found x. split; [reflexivity|].
  apply (wallet_token_holdings Demo.parseInt Demo.newPublicKey response found
           [x] x).
  - vm_compute. reflexivity.
  - vm_compute. left.
Defined.

(** ** The guard groups effect *)

Lemma Promise_all_inr_iff {A} (rs : list (Error + A)) (l : list A) :
  Promise_all rs = inr l <-> rs = map inr l.
Proof.
  revert l. induction rs as [|[e|a] rs IH]; intros l; simpl.
  - split; [intros H; now inversion H|].
    destruct l; [reflexivity|discriminate].
  - split; [discriminate|]. destruct l; discriminate.
  - destruct (Promise_all rs) as [e|l'] eqn:HP.
    + split; [discriminate|]. destruct l as [|a' l]; [discriminate|].
      simpl. intros H. inversion H as [[Ha Hrs]]. apply IH in Hrs.
      discriminate.
    + split.
      * intros H. inversion H; subst. simpl. f_equal. now apply IH.
      * destruct l as [|a' l]; [discriminate|]. simpl.
        intros H. inversion H as [[Ha Hrs]]. apply IH in Hrs.
        congruence.
Qed.

Lemma Promise_all_total {A} (rs : list (Error + A)) :
  Forall (fun r => exists a, r = inr a) rs <-> exists l, Promise_all rs = inr l.
Proof.
  induction rs as [|r rs IH]; simpl.
  - split; [now eexists|constructor].
  - split.
    + intros H. inversion H as [|? ? [a ->] Hrs]; subst.
      apply IH in Hrs as [l ->]. now eexists.
    + destruct r as [e|a]; [intros [l H]; discriminate|].
      destruct (Promise_all rs) as [e|l']; [intros [l H]; discriminate|].
      intros _. constructor; [now eexists|]. apply IH. now eexists.
Qed.

Section GuardsEffectProps.
Variable Guards : Type.
Variable mergeGuards : list Guards -> Guards.
Variable parseGuardGroup : ParseGuardGroupArgs Guards -> Error + GuardGroup.
Variables (walletAddress : PublicKey) (cm : CandyMachine).
Variables (cg : CandyGuard Guards) (nftHoldings : list Metadata).
Variable vp : MerkleRoot -> option string -> option bool.

Local Abbreviation parseDefault :=
  (parseGuardGroup (defaultArgs walletAddress cm cg nftHoldings vp)).
Local Abbreviation parseOf :=
  (fun x => parseGuardGroup
              (groupArgs mergeGuards walletAddress cm cg nftHoldings vp x)).
Local Abbreviation labels := (group_label <$> candyGuard_groups cg).

Lemma guardsEffect_inr (order : list nat) (g : gmap string GuardGroup) :
  guardsEffect mergeGuards parseGuardGroup order (Some walletAddress) (Some cm)
    cg nftHoldings vp = Some (inr g)
  <-> exists d parsed,
        parseDefault = inr d
        /\ map parseOf (candyGuard_groups cg) = map inr parsed
        /\ g = assignGroups {[ "default" := d ]} (candyGuard_groups cg)
                 parsed order.
Proof.
  unfold guardsEffect. destruct parseDefault as [e|d].
  - split; [discriminate|]. intros (? & ? & ? & _). discriminate.
  - destruct (Promise_all _) as [e|parsed] eqn:HP.
    + split; [discriminate|]. intros (d' & parsed & _ & H & _).
      apply Promise_all_inr_iff in H. congruence.
    + apply Promise_all_inr_iff in HP. split.
      * intros H. inversion H; subst. now exists d, parsed.
      * intros (d' & parsed' & Hd & H & ->). inversion Hd; subst.
        rewrite HP in H.
        assert (parsed = parsed') as ->; [|reflexivity].
        clear -H. revert parsed' H.
        induction parsed as [|p ps IH]; intros [|p' ps'] H;
          try discriminate; [reflexivity|].
        simpl in H. inversion H; subst. f_equal. now apply IH.
Qed.

(** What the assignments leave at a label, when every group is assigned
    once. *)
Lemma assignGroups_lookup (g0 : gmap string GuardGroup)
    (parsed : list GuardGroup) (order : list nat) :
  length parsed = length (candyGuard_groups cg) ->
  order ≡ₚ seq 0 (length (candyGuard_groups cg)) ->
  let g := assignGroups g0 (candyGuard_groups cg) parsed order in
  (forall l, is_Some (g !! l) <-> is_Some (g0 !! l) \/ l ∈ labels)
  /\ (forall l, l ∉ labels -> g !! l = g0 !! l)
  /\ (forall i x,
        candyGuard_groups cg !! i = Some x ->
        (forall j y, candyGuard_groups cg !! j = Some y ->
                     group_label y = group_label x -> j = i) ->
        g !! group_label x = parsed !! i).
Proof.
  intros Hlen Hperm. cbv zeta.
  set (groups := candyGuard_groups cg) in *.
  set (key := fun i : nat => from_option group_label "" (groups !! i)).
  set (val := fun i : nat =>
                default {| allowList := None; mintLimit := None |}
                  (parsed !! i)).
  assert (Hin : forall i, i ∈ order <-> (i < length groups)%nat).
  { intros i. rewrite Hperm, list_elem_of_In, in_seq. lia. }
  assert (Hfold : forall g1 o,
            (forall i, i ∈ o -> (i < length groups)%nat) ->
            assignGroups g1 groups parsed o
            = foldl (fun g i => <[key i := val i]> g) g1 o).
  { intros g1 o. revert g1. unfold assignGroups.
    induction o as [|i o IH]; intros g1 Ho; [reflexivity|]. simpl.
    assert (Hi : (i < length groups)%nat) by (apply Ho; left).
    destruct (lookup_lt_is_Some_2 groups i Hi) as [x Hx].
    destruct (lookup_lt_is_Some_2 parsed i ltac:(lia)) as [p Hp].
    unfold key, val. rewrite Hx, Hp. simpl.
    rewrite IH by (intros j Hj; apply Ho; now right).
    unfold key, val. reflexivity. }
  rewrite Hfold by (intros i; apply Hin).
  assert (Hkeys : forall l, l ∈ (key <$> order) <-> l ∈ (group_label <$> groups)).
  { intros l. rewrite !list_elem_of_fmap. split.
    - intros (i & -> & Hi). apply Hin in Hi.
      destruct (lookup_lt_is_Some_2 groups i Hi) as [x Hx].
      exists x. unfold key. rewrite Hx. split; [reflexivity|].
      eapply list_elem_of_lookup_2; eassumption.
    - intros (x & -> & Hx). apply list_elem_of_lookup_1 in Hx as [i Hx].
      exists i. unfold key. rewrite Hx. split; [reflexivity|].
      apply Hin. eapply lookup_lt_Some; eassumption. }
  split; [|split].
  - intros l. rewrite foldl_insert_is_Some. now rewrite Hkeys.
  - intros l Hl. apply foldl_insert_other. now rewrite Hkeys.
  - intros i x Hx Huniq.
    assert (Hi : i ∈ order) by (apply Hin; eapply lookup_lt_Some; eassumption).
    apply list_elem_of_split in Hi as (pre & post & Ho).
    assert (Hnd : NoDup order) by (rewrite Hperm; apply NoDup_seq).
    rewrite Ho in Hnd. apply NoDup_app in Hnd as (_ & _ & Hnd).
    apply NoDup_cons in Hnd as [Hnot _].
    assert (Hk : key i = group_label x) by (unfold key; now rewrite Hx).
    rewrite Ho, <- Hk. rewrite foldl_insert_last.
    + unfold val.
      destruct (lookup_lt_is_Some_2 parsed i) as [p Hp];
        [rewrite Hlen; eapply lookup_lt_Some; eassumption|].
      now rewrite Hp.
    + intros (j & Hj & Hjin)%list_elem_of_fmap.
      assert (Hjo : j ∈ order) by (rewrite Ho, elem_of_app, elem_of_cons; auto).
      apply Hin in Hjo.
      destruct (lookup_lt_is_Some_2 groups j Hjo) as [y Hy].
      assert (j = i); [|subst; contradiction].
      apply (Huniq j y Hy). unfold key in Hj. rewrite Hx, Hy in Hj.
      simpl in Hj. congruence.
Qed.

Lemma parsed_lookup (parsed : list GuardGroup) (i : nat)
    (x : CandyGuardGroup Guards) :
  map parseOf (candyGuard_groups cg) = map inr parsed ->
  candyGuard_groups cg !! i = Some x ->
  exists p, parseOf x = inr p /\ parsed !! i = Some p.
Proof.
  revert parsed i. induction (candyGuard_groups cg) as [|y ys IH];
    intros [|p ps] i H Hx; try discriminate.
  simpl in H. inversion H as [[Hy Hys]]. destruct i as [|i]; simpl in Hx.
  - inversion Hx; subst. now exists p.
  - apply (IH ps i Hys Hx).
Qed.

Lemma guardsEffect_lookup (order : list nat) (g : gmap string GuardGroup) :
  order ≡ₚ seq 0 (length (candyGuard_groups cg)) ->
  guardsEffect mergeGuards parseGuardGroup order (Some walletAddress) (Some cm)
    cg nftHoldings vp = Some (inr g) ->
  (forall l, is_Some (g !! l) <-> l = "default" \/ l ∈ labels)
  /\ ("default" ∉ labels -> inr <$> g !! "default" = Some parseDefault)
  /\ (forall i x,
        candyGuard_groups cg !! i = Some x ->
        (forall j y, candyGuard_groups cg !! j = Some y ->
                     group_label y = group_label x -> j = i) ->
        inr <$> g !! group_label x = Some (parseOf x)).
Proof.
  intros Hperm (d & parsed & Hd & Hmap & ->)%guardsEffect_inr.
  assert (Hlen : length parsed = length (candyGuard_groups cg)).
  { apply (f_equal (@length _)) in Hmap. now rewrite !length_map in Hmap. }
  destruct (assignGroups_lookup {[ "default" := d ]} parsed order Hlen Hperm)
    as (Hdom & Hother & Hval).
  split; [|split].
  - intros l. rewrite Hdom, lookup_singleton_is_Some. intuition congruence.
  - intros Hnot. rewrite (Hother _ Hnot), lookup_singleton_eq, Hd.
    reflexivity.
  - intros i x Hx Huniq. rewrite (Hval i x Hx Huniq).
    destruct (parsed_lookup parsed i x Hmap Hx) as (p & Hp & ->).
    simpl. now rewrite Hp.
Qed.

End GuardsEffectProps.

(** X16. The guard groups effect does nothing without a wallet or a candy
    machine; otherwise it hands a value to [setGuardsAndGroups] exactly
    when the call for the global guards and the call for every group
    succeed.  One failing group leaves [guardsAndGroups] as it was,
    whatever the order in which the calls resolve. *)
Theorem guardsEffect_all_or_nothing {Guards : Type}
    (mergeGuards : list Guards -> Guards)
    (parseGuardGroup : ParseGuardGroupArgs Guards -> Error + GuardGroup)
    (order : list nat) (wallet_publicKey : option PublicKey)
    (candyMachine : option CandyMachine) (cg : CandyGuard Guards)
    (nftHoldings : list Metadata)
    (vp : MerkleRoot -> option string -> option bool) :
  let run := guardsEffect mergeGuards parseGuardGroup order wallet_publicKey
               candyMachine cg nftHoldings vp in
  (run = None <-> wallet_publicKey = None \/ candyMachine = None)
  /\ ((exists g, run = Some (inr g))
      <-> exists walletAddress cm,
            wallet_publicKey = Some walletAddress
            /\ candyMachine = Some cm
            /\ (exists d,
                  parseGuardGroup
                    (defaultArgs walletAddress cm cg nftHoldings vp) = inr d)
            /\ Forall
                 (fun x =>
                    exists p,
                      parseGuardGroup
                        (groupArgs mergeGuards walletAddress cm cg nftHoldings
                           vp x) = inr p)
                 (candyGuard_groups cg)).
Proof.
  cbv zeta. split.
  - unfold guardsEffect.
    destruct wallet_publicKey, candyMachine; split; try discriminate;
      try (intros [H|H]; discriminate); auto.
  - destruct wallet_publicKey as [w|], candyMachine as [cm|];
      try (split; [intros [g H]; discriminate
                  |intros (? & ? & H1 & H2 & _); discriminate]).
    split.
    + intros [g (d & parsed & Hd & Hmap & _)%guardsEffect_inr].
      exists w, cm. repeat split; [now exists d|].
      apply Forall_forall. intros x Hx.
      apply list_elem_of_lookup_1 in Hx as [i Hx].
      destruct (parsed_lookup _ mergeGuards parseGuardGroup w cm cg
                  nftHoldings vp parsed i x Hmap Hx) as (p & Hp & _).
      now exists p.
    + intros (w' & cm' & Hw & Hc & [d Hd] & HF).
      inversion Hw; inversion Hc; subst w' cm'.
      assert (HP : exists l,
                Promise_all
                  (map (fun x =>
                          parseGuardGroup
                            (groupArgs mergeGuards w cm cg nftHoldings vp x))
                     (candyGuard_groups cg)) = inr l).
      { apply Promise_all_total. apply Forall_map.
        eapply Forall_impl; [exact HF|]. intros x [p Hp]. now exists p. }
      destruct HP as [l HP]. unfold guardsEffect. rewrite Hd, HP.
      now eexists.
Qed.

(** X17. When the effect sets [guardsAndGroups], its labels are
    ["default"] and the labels of the candy guard's groups, no other. *)
Theorem guardsEffect_labels {Guards : Type}
    (mergeGuards : list Guards -> Guards)
    (parseGuardGroup : ParseGuardGroupArgs Guards -> Error + GuardGroup)
    (order : list nat) (walletAddress : PublicKey) (cm : CandyMachine)
    (cg : CandyGuard Guards) (nftHoldings : list Metadata)
    (vp : MerkleRoot -> option string -> option bool)
    (g : gmap string GuardGroup) (l : string) :
  order ≡ₚ seq 0 (length (candyGuard_groups cg)) ->
  guardsEffect mergeGuards parseGuardGroup order (Some walletAddress) (Some cm)
    cg nftHoldings vp = Some (inr g) ->
  is_Some (g !! l)
  <-> l = "default" \/ l ∈ (group_label <$> candyGuard_groups cg).
Proof.
  intros Hperm Hrun.
  now destruct (guardsEffect_lookup _ mergeGuards parseGuardGroup walletAddress
                  cm cg nftHoldings vp order g Hperm Hrun) as (H & _).
Qed.

Lemma guardsEffect_labels_witness :
  let run := guardsEffect Demo.mergeGuards Demo.parseGuardGroup [1; 0]%nat
               (Some "A") (Some Demo.cm) (Demo.candyGuard ["wl"; "vip"]) []
               (fun _ _ => None) in
  exists g,
    run = Some (inr g)
    /\ (is_Some (g !! "vip")
        <-> "vip" = "default"
            \/ "vip" ∈ (group_label
                          <$> candyGuard_groups (Demo.candyGuard ["wl"; "vip"]))).
Proof.
  intros run.
  destruct run as [[e|g]|] eqn:Hrun; try (vm_compute in Hrun; discriminate).
  exists g. split; [reflexivity|].
  apply (guardsEffect_labels Demo.mergeGuards Demo.parseGuardGroup [1; 0]%nat
           "A" Demo.cm (Demo.candyGuard ["wl"; "vip"]) [] (fun _ _ => None)).
  - simpl. apply perm_swap.
  - exact Hrun.
Defined.

(** X18. A group whose label no other group carries gets, under its
    label, what [parseGuardGroup] made of the global guards merged with
    its own, whenever the calls resolve; this holds for a group labelled
    ["default"] too, which then replaces the entry of the global guards. *)
Theorem guardsEffect_group_entry {Guards : Type}
    (mergeGuards : list Guards -> Guards)
    (parseGuardGroup : ParseGuardGroupArgs Guards -> Error + GuardGroup)
    (order : list nat) (walletAddress : PublicKey) (cm : CandyMachine)
    (cg : CandyGuard Guards) (nftHoldings : list Metadata)
    (vp : MerkleRoot -> option string -> option bool)
    (g : gmap string GuardGroup) (i : nat) (x : CandyGuardGroup Guards) :
  order ≡ₚ seq 0 (length (candyGuard_groups cg)) ->
  guardsEffect mergeGuards parseGuardGroup order (Some walletAddress) (Some cm)
    cg nftHoldings vp = Some (inr g) ->
  candyGuard_groups cg !! i = Some x ->
  (forall j y, candyGuard_groups cg !! j = Some y ->
               group_label y = group_label x -> j = i) ->
  exists p,
    parseGuardGroup
      {| pg_guards := mergeGuards [candyGuard_guards cg; group_guards x];
         pg_label := Some (group_label x);
         pg_candyMachine := cm;
         pg_nftHoldings := nftHoldings;
         pg_verifyProof := vp;
         pg_walletAddress := walletAddress |} = inr p
    /\ g !! group_label x = Some p.
Proof.
  intros Hperm Hrun Hx Huniq.
  destruct (guardsEffect_lookup _ mergeGuards parseGuardGroup walletAddress
              cm cg nftHoldings vp order g Hperm Hrun) as (_ & _ & H).
  specialize (H i x Hx Huniq). unfold groupArgs in H.
  destruct (g !! group_label x) as [p|]; [|discriminate].
  exists p. simpl in H. split; [|reflexivity]. congruence.
Qed.

Lemma guardsEffect_group_entry_witness :
  let cg := Demo.candyGuard ["wl"; "default"] in
  let run := guardsEffect Demo.mergeGuards Demo.parseGuardGroup [1; 0]%nat
               (Some "A") (Some Demo.cm) cg [] (fun _ _ => None) in
  exists g,
    run = Some (inr g)
    /\ g !! "default"
       = Some {| allowList := Some [Byte.x01]; mintLimit := None |}.
Proof.
  intros cg run.
  destruct run as [[e|g]|] eqn:Hrun; try (vm_compute in Hrun; discriminate).
  exists g. split; [reflexivity|].
  destruct (guardsEffect_group_entry Demo.mergeGuards Demo.parseGuardGroup
              [1; 0]%nat "A" Demo.cm cg [] (fun _ _ => None) g 1%nat
              {| group_label := "default"; group_guards := Some [Byte.x01] |})
    as (p & Hp & Hg).
  - simpl. apply perm_swap.
  - exact Hrun.
  - reflexivity.
  - intros [|[|j]] y Hy Hl; simpl in Hy; try reflexivity; try discriminate.
    inversion Hy; subst y. discriminate.
  - simpl in Hg. rewrite Hg. vm_compute in Hp. injection Hp as <-.
    reflexivity.
Defined.

(** X19. When no group is labelled ["default"], the entry ["default"] is
    what [parseGuardGroup] made of the global guards alone, called
    without a label. *)
Theorem guardsEffect_default_entry {Guards : Type}
    (mergeGuards : list Guards -> Guards)
    (parseGuardGroup : ParseGuardGroupArgs Guards -> Error + GuardGroup)
    (order : list nat) (walletAddress : PublicKey) (cm : CandyMachine)
    (cg : CandyGuard Guards) (nftHoldings : list Metadata)
    (vp : MerkleRoot -> option string -> option bool)
    (g : gmap string GuardGroup) :
  order ≡ₚ seq 0 (length (candyGuard_groups cg)) ->
  guardsEffect mergeGuards parseGuardGroup order (Some walletAddress) (Some cm)
    cg nftHoldings vp = Some (inr g) ->
  "default" ∉ (group_label <$> candyGuard_groups cg) ->
  exists d,
    parseGuardGroup
      {| pg_guards := candyGuard_guards cg;
         pg_label := None;
         pg_candyMachine := cm;
         pg_nftHoldings := nftHoldings;
         pg_verifyProof := vp;
         pg_walletAddress := walletAddress |} = inr d
    /\ g !! "default" = Some d.
Proof.
  intros Hperm Hrun Hnot.
  destruct (guardsEffect_lookup _ mergeGuards parseGuardGroup walletAddress
              cm cg nftHoldings vp order g Hperm Hrun) as (_ & H & _).
  specialize (H Hnot). unfold defaultArgs in H.
  destruct (g !! "default") as [d|]; [|discriminate].
  exists d. simpl in H. split; [|reflexivity]. congruence.
Qed.

Lemma guardsEffect_default_entry_witness :
  let cg := Demo.candyGuard ["wl"; "vip"] in
  let run := guardsEffect Demo.mergeGuards Demo.parseGuardGroup [0; 1]%nat
               (Some "A") (Some Demo.cm) cg [] (fun _ _ => None) in
  exists g,
    run = Some (inr g)
    /\ g !! "default" = Some {| allowList := None; mintLimit := None |}.
Proof.
  intros cg run.
  destruct run as [[e|g]|] eqn:Hrun; try (vm_compute in Hrun; discriminate).
  exists g. split; [reflexivity|].
  destruct (guardsEffect_default_entry Demo.mergeGuards Demo.parseGuardGroup
              [0; 1]%nat "A" Demo.cm cg [] (fun _ _ => None) g)
    as (d & Hd & Hg).
  - reflexivity.
  - exact Hrun.
  - simpl. intros H. apply elem_of_cons in H as [H|H]; [discriminate|].
    apply elem_of_cons in H as [H|H]; [discriminate|]. inversion H.
  - rewrite Hg. vm_compute in Hd. injection Hd as <-. reflexivity.
Defined.

(** X20. When the groups carry distinct labels, the outcome of the effect
    does not depend on the order in which the calls for the groups
    resolve. *)
Theorem guardsEffect_order_irrelevant {Guards : Type}
    (mergeGuards : list Guards -> Guards)
    (parseGuardGroup : ParseGuardGroupArgs Guards -> Error + GuardGroup)
    (order1 order2 : list nat) (wallet_publicKey : option PublicKey)
    (candyMachine : option CandyMachine) (cg : CandyGuard Guards)
    (nftHoldings : list Metadata)
    (vp : MerkleRoot -> option string -> option bool) :
  NoDup (group_label <$> candyGuard_groups cg) ->
  order1 ≡ₚ seq 0 (length (candyGuard_groups cg)) ->
  order2 ≡ₚ seq 0 (length (candyGuard_groups cg)) ->
  guardsEffect mergeGuards parseGuardGroup order1 wallet_publicKey
    candyMachine cg nftHoldings vp
  = guardsEffect mergeGuards parseGuardGroup order2 wallet_publicKey
      candyMachine cg nftHoldings vp.
Proof.
  intros Hnd H1 H2. unfold guardsEffect.
  destruct wallet_publicKey as [w|]; [|reflexivity].
  destruct candyMachine as [cm|]; [|reflexivity].
  f_equal. destruct (parseGuardGroup (defaultArgs _ _ _ _ _)) as [e|d];
    [reflexivity|].
  destruct (Promise_all _) as [e|parsed] eqn:HP; [reflexivity|].
  f_equal. apply Promise_all_length in HP. rewrite length_map in HP.
  destruct (assignGroups_lookup _ cg {[ "default" := d ]} parsed order1 HP H1)
    as (_ & Ho1 & Hv1).
  destruct (assignGroups_lookup _ cg {[ "default" := d ]} parsed order2 HP H2)
    as (_ & Ho2 & Hv2).
  apply map_eq. intros l.
  destruct (decide (l ∈ (group_label <$> candyGuard_groups cg))) as [Hl|Hl].
  - apply list_elem_of_fmap in Hl as (x & -> & Hx).
    apply list_elem_of_lookup_1 in Hx as [i Hx].
    assert (Huniq : forall j y, candyGuard_groups cg !! j = Some y ->
                       group_label y = group_label x -> j = i).
    { intros j y Hy Heq.
      apply (NoDup_lookup _ j i (group_label x) Hnd);
        rewrite list_lookup_fmap; [rewrite Hy|rewrite Hx]; simpl; congruence. }
    now rewrite (Hv1 i x Hx Huniq), (Hv2 i x Hx Huniq).
  - now rewrite (Ho1 l Hl), (Ho2 l Hl).
Qed.

Lemma guardsEffect_order_irrelevant_witness :
  let cg := Demo.candyGuard ["wl"; "vip"; "og"] in
  guardsEffect Demo.mergeGuards Demo.parseGuardGroup [2; 0; 1]%nat
    (Some "A") (Some Demo.cm) cg [] (fun _ _ => None)
  = guardsEffect Demo.mergeGuards Demo.parseGuardGroup [0; 1; 2]%nat
      (Some "A") (Some Demo.cm) cg [] (fun _ _ => None).
Proof.
  intros cg.
  apply (guardsEffect_order_irrelevant Demo.mergeGuards Demo.parseGuardGroup
           [2; 0; 1]%nat [0; 1; 2]%nat (Some "A") (Some Demo.cm) cg []
           (fun _ _ => None)).
  - simpl. repeat (apply NoDup_cons; split;
      [intros H; repeat (apply elem_of_cons in H as [H|H]; [discriminate|]);
       inversion H|]).
    apply NoDup_nil. exact I.
  - simpl. eapply perm_trans; [apply perm_swap|].
    apply perm_skip, perm_swap.
  - reflexivity.
Defined.

(** X21. After the effect has set [guardsAndGroups] for groups none of
    which is labelled ["__proto__"], a mint call for the same wallet and
    candy machine, with a label that [Object.prototype] does not hold, is
    rejected for an unknown group exactly when its label is neither
    ["default"] nor the label of a group of the candy guard; a call
    without a label is never rejected, and a call with a known label is
    rejected only where no allow-list is configured. *)
Theorem mint_after_guardsEffect `{ML : MerkleLib} {Guards : Type}
    (mergeGuards : list Guards -> Guards)
    (parseGuardGroup : ParseGuardGroupArgs Guards -> Error + GuardGroup)
    (order : list nat) (env : Env) (allowLists : option (list AllowList))
    (walletAddress : PublicKey) (cm : CandyMachine) (cg : CandyGuard Guards)
    (nftHoldings : list Metadata) (g : gmap string GuardGroup)
    (q : option Z) (opts : MintOpts) (s : St) (e : Error) :
  order ≡ₚ seq 0 (length (candyGuard_groups cg)) ->
  guardsEffect mergeGuards parseGuardGroup order (Some walletAddress) (Some cm)
    cg nftHoldings (verifyProof (proofMemo allowLists (Some walletAddress)))
  = Some (inr g) ->
  "__proto__" ∉ (group_label <$> candyGuard_groups cg) ->
  labelOrDefault opts ∉ Object_prototype_keys ->
  let m := mint env allowLists (Some walletAddress) (Some cm) g q opts s in
  let known := labelOrDefault opts = "default"
               \/ labelOrDefault opts ∈ (group_label <$> candyGuard_groups cg) in
  fst m = Rejected e
  <-> (~ known /\ e = newError Messages.UnknownGroup)
      \/ (known
          /\ truthy_string (opts_groupLabel opts) = true
          /\ no_allowLists allowLists = true
          /\ e = TypeError (labelOrDefault opts)).
Proof.
  intros Hperm Hrun _ _. cbv zeta.
  destruct (guardsEffect_lookup _ mergeGuards parseGuardGroup walletAddress
              cm cg nftHoldings _ order g Hperm Hrun) as (Hdom & _).
  rewrite mint_eq.
  destruct (decide (is_Some (g !! labelOrDefault opts))) as [Hs|Hs].
  - rewrite bool_decide_eq_true_2 by assumption. cbn [negb].
    pose proof (proj1 (Hdom _) Hs) as Hk.
    destruct (allowListOf allowLists (Some walletAddress) opts) as [e0|al]
      eqn:Hal.
    + apply allowListOf_inl_iff in Hal as (HT & Hm & ->).
      apply merkles_None_iff in Hm as [Hm|Hm]; [|discriminate].
      cbn [fst]. split.
      * intros H. inversion H; subst. right. now repeat split.
      * intros [[Hnk _]|(_ & _ & _ & ->)]; [contradiction|reflexivity].
    + cbv zeta.
      destruct (snd (network env allowLists (Some walletAddress) cm
                       (default 1 q) opts al)); cbn [fst];
        (split; [discriminate|]);
        (intros [[Hnk _]|(_ & HT & Hno & He)]; [contradiction|]);
        (assert (Hinl : allowListOf allowLists (Some walletAddress) opts
                        = inl e)
           by (apply allowListOf_inl_iff; repeat split; try assumption;
               apply merkles_None_iff; now left));
        rewrite Hal in Hinl; discriminate.
  - rewrite bool_decide_eq_false_2 by assumption. cbn [negb fst].
    assert (Hnk : ~ (labelOrDefault opts = "default"
                     \/ labelOrDefault opts
                        ∈ (group_label <$> candyGuard_groups cg)))
      by (intros H; apply Hs, Hdom, H).
    split.
    + intros H. inversion H. now left.
    + intros [[_ ->]|(Hk & _)]; [reflexivity|contradiction].
Qed.

Lemma mint_after_guardsEffect_witness :
  let cg := Demo.candyGuard ["wl"] in
  let g : gmap string GuardGroup :=
    <["wl" := {| allowList := Some [Byte.x01]; mintLimit := None |}]>
      {[ "default" := {| allowList := None; mintLimit := None |} ]} in
  let m := @mint listMerkle (Demo.env false [] []) Demo.allowLists (Some "A")
             (Some Demo.cm) g (Some 1) (Demo.opts (Some "vip")) Demo.s0 in
  fst m = Rejected (newError Messages.UnknownGroup).
Proof.
  intros cg g m.
  apply (@mint_after_guardsEffect listMerkle _ Demo.mergeGuards
           Demo.parseGuardGroup [0%nat] (Demo.env false [] []) Demo.allowLists
           "A" Demo.cm cg [] g (Some 1) (Demo.opts (Some "vip")) Demo.s0
           (newError Messages.UnknownGroup)).
  - reflexivity.
  - vm_compute. reflexivity.
  - simpl. intros H.
    apply elem_of_cons in H as [H|H]; [discriminate|]. inversion H.
  - unfold Object_prototype_keys. intros H. vm_compute in H.
    repeat (apply elem_of_cons in H as [H|H]; [discriminate|]).
    inversion H.
  - left. split; [|reflexivity].
    intros [H|H]; [discriminate|]. simpl in H.
    apply elem_of_cons in H as [H|H]; [discriminate|]. inversion H.
Defined.

(** ** Refresh *)

(** X22. [refresh] is rejected only when no wallet is connected, with the
    error of line 132 and before it has touched any state.  With a
    wallet it is always fulfilled, whatever the fetch does; it has then
    asked for the candy machine once and left the loading flag off. *)
Theorem refresh_resolves (findByAddress : string -> Error + FetchedCandyMachine)
    (candyMachineId : string) (BN_toNumber : Z -> Error + Z)
    (wallet_publicKey : option PublicKey) (s : RefreshState) :
  let r := refresh findByAddress candyMachineId BN_toNumber wallet_publicKey
             s in
  (forall e, fst r = Rejected e
             <-> wallet_publicKey = None
                 /\ e = newError "Wallet not loaded yet!")
  /\ (wallet_publicKey = None -> snd r = s)
  /\ (wallet_publicKey <> None ->
      fst r = Fulfilled None
      /\ rs_loading (snd r) = false
      /\ rs_fetches (snd r) = S (rs_fetches s)).
Proof.
  cbv zeta. unfold refresh. destruct wallet_publicKey as [pk|].
  - destruct (findByAddress candyMachineId) as [e0|cndy];
      [|unfold onFetched; destruct (itemsOf BN_toNumber cndy)];
      cbn; (split; [|split]);
      try discriminate;
      try (intros e'; split; [discriminate|intros [? _]; discriminate]);
      now intros _.
  - cbn [fst snd]. split; [|split].
    + intros e. split; [intros H; now inversion H|now intros [_ ->]].
    + reflexivity.
    + intros H. now destruct H.
Qed.

(** X23. A refresh with a wallet ends in one of two ways: the candy
    machine and its three counts are stored and nothing is logged, or
    exactly one error is logged and the counts stay as they were. *)
Theorem refresh_updates_or_logs
    (findByAddress : string -> Error + FetchedCandyMachine)
    (candyMachineId : string) (BN_toNumber : Z -> Error + Z)
    (walletAddress : PublicKey) (s : RefreshState) :
  let r := refresh findByAddress candyMachineId BN_toNumber
             (Some walletAddress) s in
  (rs_console (snd r) = rs_console s
   /\ exists cndy a b c,
        findByAddress candyMachineId = inr cndy
        /\ BN_toNumber (itemsAvailable cndy) = inr a
        /\ BN_toNumber (itemsRemaining cndy) = inr b
        /\ BN_toNumber (itemsMinted cndy) = inr c
        /\ rs_candyMachine (snd r) = Some (fetched cndy)
        /\ rs_items (snd r)
           = {| available := a; remaining := b; redeemed := c |})
  \/ (exists e,
        rs_console (snd r) = rs_console s ++ [e]
        /\ rs_items (snd r) = rs_items s).
Proof.
  cbv zeta. unfold refresh.
  destruct (findByAddress candyMachineId) as [e|cndy] eqn:Hf.
  - right. exists e. now cbn.
  - unfold onFetched, itemsOf.
    destruct (BN_toNumber (itemsAvailable cndy)) as [e|a] eqn:Ha;
      [right; exists e; now cbn|].
    destruct (BN_toNumber (itemsRemaining cndy)) as [e|b] eqn:Hb;
      [right; exists e; now cbn|].
    destruct (BN_toNumber (itemsMinted cndy)) as [e|c] eqn:Hc;
      [right; exists e; now cbn|].
    left. cbn. split; [reflexivity|]. exists cndy, a, b, c.
    repeat split; assumption.
Qed.

(** X24. When the candy machine was fetched and one of its counts cannot
    be converted, the update is partial: the candy machine is stored,
    the counts are the old ones, and the conversion's error is logged. *)
Theorem refresh_partial_update
    (findByAddress : string -> Error + FetchedCandyMachine)
    (candyMachineId : string) (BN_toNumber : Z -> Error + Z)
    (walletAddress : PublicKey) (s : RefreshState)
    (cndy : FetchedCandyMachine) (e : Error) :
  findByAddress candyMachineId = inr cndy ->
  itemsOf BN_toNumber cndy = inl e ->
  let r := refresh findByAddress candyMachineId BN_toNumber
             (Some walletAddress) s in
  rs_candyMachine (snd r) = Some (fetched cndy)
  /\ rs_items (snd r) = rs_items s
  /\ rs_console (snd r) = rs_console s ++ [e].
Proof.
  intros Hf Hi. cbv zeta. unfold refresh, onFetched. rewrite Hf, Hi.
  now cbn.
Qed.

Lemma refresh_partial_update_witness :
  let r := refresh (Demo.findByAddress (2 ^ 53)) "candy" Demo.BN_toNumber
             (Some "A") Demo.r0 in
  rs_candyMachine (snd r) = Some Demo.cm
  /\ rs_items (snd r) = rs_items Demo.r0
  /\ rs_console (snd r)
     = [Demo.rpcError "Number can only safely store up to 53 bits"].
Proof.
  intros r.
  apply (refresh_partial_update (Demo.findByAddress (2 ^ 53)) "candy"
           Demo.BN_toNumber "A" Demo.r0
           {| fetched := Demo.cm; itemsAvailable := 10; itemsRemaining := 7;
              itemsMinted := 2 ^ 53 |}
           (Demo.rpcError "Number can only safely store up to 53 bits")).
  - reflexivity.
  - vm_compute. reflexivity.
Defined.

(** * The claims on the plan and its blockhash *)

(** ** What a stage leaves in the observations *)

Lemma fetches_phase (k : nat) (E : list Event) :
  k <> 2%nat -> Forall (fun ev => phase ev = k) E -> blockhashFetches E = 0%nat.
Proof.
  intros Hk. induction 1 as [|ev E Hev _ IH]; [reflexivity|].
  rewrite blockhashFetches_cons, IH.
  destruct ev; simpl in *; try reflexivity. congruence.
Qed.

Lemma sends_phase (k : nat) (E : list Event) :
  k <> 4%nat -> k <> 5%nat -> Forall (fun ev => phase ev = k) E -> sends E = [].
Proof.
  intros H4 H5. induction 1 as [|ev E Hev _ IH]; [reflexivity|].
  unfold sends in *. destruct ev; simpl; try exact IH.
  destruct c; simpl in Hev; congruence.
Qed.

Lemma signingRequests_app (a b : list Event) :
  signingRequests (a ++ b) = signingRequests a ++ signingRequests b.
Proof. apply omap_app. Qed.

Lemma signingRequests_phase (k : nat) (E : list Event) :
  k <> 3%nat -> Forall (fun ev => phase ev = k) E -> signingRequests E = [].
Proof.
  intros Hk. induction 1 as [|ev E Hev _ IH]; [reflexivity|].
  unfold signingRequests in *.
  destruct ev; simpl; try exact IH. simpl in Hev. congruence.
Qed.

Lemma builderCalls_app (a b : list Event) :
  builderCalls (a ++ b) = builderCalls a ++ builderCalls b.
Proof. apply omap_app. Qed.

Lemma builderCalls_phase (k : nat) (E : list Event) :
  k <> 1%nat -> Forall (fun ev => phase ev = k) E -> builderCalls E = [].
Proof.
  intros Hk. induction 1 as [|ev E Hev _ IH]; [reflexivity|].
  unfold builderCalls in *.
  destruct ev; simpl; try exact IH. simpl in Hev. congruence.
Qed.

Lemma signingRequests_late (tl : list Event) :
  Forall (fun ev => (6 < phase ev)%nat) tl -> signingRequests tl = [].
Proof.
  induction 1 as [|ev tl Hev _ IH]; [reflexivity|].
  unfold signingRequests in *.
  destruct ev; simpl; try exact IH. simpl in Hev. lia.
Qed.

Lemma builderCalls_late (tl : list Event) :
  Forall (fun ev => (6 < phase ev)%nat) tl -> builderCalls tl = [].
Proof.
  induction 1 as [|ev tl Hev _ IH]; [reflexivity|].
  unfold builderCalls in *.
  destruct ev; simpl; try exact IH. simpl in Hev. lia.
Qed.

Lemma signingRequests_wrap (E tl : list Event) :
  Forall (fun ev => (6 < phase ev)%nat) tl ->
  signingRequests (SetMinting true :: E ++ tl) = signingRequests E.
Proof.
  intros Htl. simpl.
  change (omap signingRequest (E ++ tl)) with (signingRequests (E ++ tl)).
  now rewrite signingRequests_app, (signingRequests_late _ Htl), app_nil_r.
Qed.

Lemma builderCalls_wrap (E tl : list Event) :
  Forall (fun ev => (6 < phase ev)%nat) tl ->
  builderCalls (SetMinting true :: E ++ tl) = builderCalls E.
Proof.
  intros Htl. simpl.
  change (omap builderCall (E ++ tl)) with (builderCalls (E ++ tl)).
  now rewrite builderCalls_app, (builderCalls_late _ Htl), app_nil_r.
Qed.

(** ** Stamping *)

Lemma stamped_planned (payer : option PublicKey)
    (bh : BlockhashWithExpiryBlockHeight) (plan : list TransactionBuilder)
    (txs : list Transaction) :
  Forall (stamped payer bh) txs ->
  map tx_instruction txs = map tb_instruction plan ->
  map envelope txs = map (planned payer bh) plan.
Proof.
  revert plan. induction txs as [|tx txs IH]; intros [|t plan] Hst Hix;
    try discriminate; [reflexivity|].
  inversion Hst as [|? ? Hs Hst']; subst. destruct Hs as [Hb Hp].
  simpl in Hix. inversion Hix as [[Hi Hix']].
  simpl. f_equal; [|now apply IH].
  unfold envelope, planned. now rewrite Hi, Hb, Hp.
Qed.

Lemma signLoop_requests (env : Env) (signers : list PublicKey)
    (txs : list Transaction) :
  Forall (fun handed => map envelope handed = map envelope txs)
    (signingRequests (fst (signLoop env signers txs)))
  /\ ((forall pk l, signAllTransactions env pk l = None) ->
      exists txs', snd (signLoop env signers txs) = inr txs').
Proof.
  revert txs. induction signers as [|pk signers IH]; intros txs; simpl.
  - split; [constructor|]. intros _. now eexists.
  - destruct (signAllTransactions env pk txs) as [e|] eqn:Hs; simpl.
    + split; [repeat constructor|]. intros H. rewrite H in Hs. discriminate.
    + destruct (IH (map (partialSign pk) txs)) as [HF HS].
      destruct (signLoop env signers (map (partialSign pk) txs)) as [E r].
      simpl in *. split.
      * constructor; [reflexivity|].
        eapply Forall_impl; [exact HF|]. simpl. intros handed ->.
        rewrite map_map. apply map_ext. intros tx. apply partialSign_envelope.
      * exact HS.
Qed.

Lemma envelopes_mintSubmissions (env : Env) (txs : list Transaction) :
  map (fun x => envelope (submitted x)) (map (finalizedSend env) txs)
  = map envelope txs.
Proof. rewrite map_map. apply map_ext. reflexivity. Qed.

(** Once the plan is built and the blockhash fetched, every transaction
    that the network stage hands to a wallet or submits is one of the
    plan, in order, with the wallet as fee payer and that blockhash. *)
Lemma network_stamps_plan `{ML : MerkleLib} (env : Env)
    (allowLists : option (list AllowList)) (wallet_publicKey : option PublicKey)
    (cm : CandyMachine) (q : Z) (opts : MintOpts)
    (al : option AllowListSettings) (plan : list TransactionBuilder)
    (bh : BlockhashWithExpiryBlockHeight) :
  snd (buildPlan env allowLists wallet_publicKey cm q opts al) = inr plan ->
  getLatestBlockhash env = inr bh ->
  let N := fst (network env allowLists wallet_publicKey cm q opts al) in
  blockhashFetches N = 1%nat
  /\ Forall (fun handed =>
               map envelope handed = map (planned wallet_publicKey bh) plan)
       (signingRequests N)
  /\ map (fun x => envelope (submitted x)) (sends N)
     `prefix_of` map (planned wallet_publicKey bh) plan
  /\ ((forall pk l, signAllTransactions env pk l = None) ->
      (forall tx, succeeded (sendAndConfirmTransaction env tx processed)
                  = true) ->
      map (fun x => envelope (submitted x)) (sends N)
      = map (planned wallet_publicKey bh) plan).
Proof.
  intros Hplan Hbh. cbv zeta. rewrite network_eq.
  pose proof (buildPlan_phase env allowLists wallet_publicKey cm q opts al)
    as H1.
  destruct (buildPlan env allowLists wallet_publicKey cm q opts al)
    as [E1 [e|plan']]; cbn [fst snd] in *; [discriminate|].
  inversion Hplan; subst plan'. clear Hplan. rewrite Hbh.
  pose proof (forEachTransaction_spec wallet_publicKey bh plan 0
                (map (toTransaction bh) plan) []) as [Hst Hix].
  cbv zeta in Hst, Hix.
  destruct (forEachTransaction _ _ _ _ _ _) as [signers txs].
  cbn [fst snd] in Hst, Hix.
  rewrite map_map in Hix. cbn [toTransaction tx_instruction] in Hix.
  pose proof (stamped_planned wallet_publicKey bh plan txs Hst Hix) as Henv.
  pose proof (signLoop_phase env signers txs) as H2.
  pose proof (signLoop_spec env signers txs) as [_ Hsigned].
  pose proof (signLoop_requests env signers txs) as [Hreq Hok].
  rewrite Henv in Hreq.
  destruct (signLoop env signers txs) as [E2 [e|txs']]; cbn [fst snd] in *.
  { rewrite blockhashFetches_app, blockhashFetches_cons, sends_app,
      signingRequests_app, (fetches_phase 1 E1), (fetches_phase 3 E2),
      (sends_phase 1 E1), (signingRequests_phase 1 E1) by (assumption || lia).
    simpl. rewrite (sends_phase 3 E2) by (assumption || lia).
    split; [reflexivity|]. split; [exact Hreq|].
    split; [apply prefix_nil|].
    intros Hs _. destruct (Hok Hs) as [txs' H]. discriminate. }
  specialize (Hsigned txs' eq_refl). rewrite Henv in Hsigned.
  assert (Hobs : forall E,
    blockhashFetches E = 0%nat -> signingRequests E = [] ->
    blockhashFetches (E1 ++ GetLatestBlockhash :: E2 ++ E) = 1%nat
    /\ signingRequests (E1 ++ GetLatestBlockhash :: E2 ++ E)
       = signingRequests E2
    /\ sends (E1 ++ GetLatestBlockhash :: E2 ++ E) = sends E).
  { intros E HF HS.
    rewrite blockhashFetches_app, blockhashFetches_cons, blockhashFetches_app,
      sends_app, signingRequests_app, (fetches_phase 1 E1),
      (fetches_phase 3 E2), (sends_phase 1 E1), (signingRequests_phase 1 E1),
      HF by (assumption || lia).
    simpl.
    change (omap signingRequest (E2 ++ E)) with (signingRequests (E2 ++ E)).
    change (omap submission (E2 ++ E)) with (sends (E2 ++ E)).
    rewrite signingRequests_app, sends_app, HS, (sends_phase 3 E2), app_nil_r
      by (assumption || lia).
    now repeat split. }
  pose proof (submitRoute_phase env al txs' plan) as H3.
  destruct (submitRoute_spec env al txs' plan)
    as [[Hal Hr]|[(Hal & Hnil & Hr)|(rtx & rest & Hal & Htx & Hr)]];
    rewrite Hr in *; cbn [fst snd] in *.
  - (* no route *)
    pose proof (submitMints_events env plan txs') as Hev.
    pose proof (submitMints_phase env plan txs') as H4.
    destruct (submitMints env plan txs') as [E4 [e|output]];
      cbn [fst snd] in *; subst E4.
    + destruct (Hobs (map (mintSubmission env) txs'))
        as (HF & HS & HX);
        [now apply (fetches_phase 5)|now apply (signingRequests_phase 5)|].
      cbn [app] in HF, HS, HX |- *. rewrite HF, HS, HX.
      rewrite sends_mintSubmissions, envelopes_mintSubmissions, Hsigned.
      split; [reflexivity|]. split; [exact Hreq|]. split; [reflexivity|].
      reflexivity.
    + pose proof (lookupAll_phase env output) as H5.
      destruct (lookupAll env output) as [E5 r]. cbn [fst snd] in *.
      destruct (Hobs (map (mintSubmission env) txs' ++ E5))
        as (HF & HS & HX).
      { rewrite blockhashFetches_app, (fetches_phase 5), (fetches_phase 6 E5)
          by (assumption || lia). reflexivity. }
      { rewrite signingRequests_app, (signingRequests_phase 5),
          (signingRequests_phase 6 E5) by (assumption || lia). reflexivity. }
      cbn [app] in HF, HS, HX |- *. rewrite HF, HS, HX.
      rewrite sends_app, (sends_phase 6 E5), app_nil_r by (assumption || lia).
      rewrite sends_mintSubmissions, envelopes_mintSubmissions, Hsigned.
      split; [reflexivity|]. split; [exact Hreq|]. split; [reflexivity|].
      reflexivity.
  - (* a route is due and there is no transaction *)
    subst txs'. destruct plan as [|t plan]; [|discriminate].
    destruct (Hobs []) as (HF & HS & HX); [reflexivity|reflexivity|].
    rewrite app_nil_r in HF, HS, HX. rewrite app_nil_r, HF, HS, HX.
    split; [reflexivity|]. split; [exact Hreq|]. split; reflexivity.
  - (* the route transaction is submitted first *)
    subst txs'.
    destruct (sendAndConfirmTransaction env rtx processed) as [e|sig] eqn:Hsend;
      cbn [fst snd succeeded] in *.
    + destruct (Hobs [SendAndConfirm rtx processed false])
        as (HF & HS & HX); [reflexivity|reflexivity|].
      rewrite HF, HS, HX. cbn.
      split; [reflexivity|]. split; [exact Hreq|]. split.
      * destruct plan as [|t plan]; [discriminate|].
        assert (He : envelope rtx = planned wallet_publicKey bh t)
          by (simpl in Hsigned; congruence).
        exists (map (planned wallet_publicKey bh) plan).
        unfold submitted. cbn [fst map app]. now rewrite He.
      * intros _ Hroute. specialize (Hroute rtx). rewrite Hsend in Hroute.
        discriminate.
    + pose proof (submitMints_events env (tail plan) rest) as Hev.
      pose proof (submitMints_phase env (tail plan) rest) as H4.
      destruct (submitMints env (tail plan) rest) as [E4 [e|output]];
        cbn [fst snd] in *; subst E4.
      * destruct (Hobs (SendAndConfirm rtx processed true
                          :: map (mintSubmission env) rest))
          as (HF & HS & HX).
        { rewrite blockhashFetches_cons, (fetches_phase 5)
            by (assumption || lia). reflexivity. }
        { simpl. now apply (signingRequests_phase 5). }
        cbn [app] in HF, HS, HX |- *. rewrite HF, HS, HX.
        simpl.
        change (omap submission (map (mintSubmission env) rest))
          with (sends (map (mintSubmission env) rest)).
        rewrite sends_mintSubmissions, envelopes_mintSubmissions.
        change (envelope (submitted (rtx, processed, true))
                  :: map envelope rest)
          with (map envelope (rtx :: rest)).
        rewrite Hsigned.
        split; [reflexivity|]. split; [exact Hreq|]. split; reflexivity.
      * pose proof (lookupAll_phase env output) as H5.
        destruct (lookupAll env output) as [E5 r]. cbn [fst snd] in *.
        destruct (Hobs (SendAndConfirm rtx processed true
                          :: map (mintSubmission env) rest ++ E5))
          as (HF & HS & HX).
        { rewrite blockhashFetches_cons, blockhashFetches_app,
            (fetches_phase 5), (fetches_phase 6 E5) by (assumption || lia).
          reflexivity. }
        { simpl.
          change (omap signingRequest (map (mintSubmission env) rest ++ E5))
            with (signingRequests (map (mintSubmission env) rest ++ E5)).
          rewrite signingRequests_app, (signingRequests_phase 5),
            (signingRequests_phase 6 E5) by (assumption || lia).
          reflexivity. }
        cbn [app] in HF, HS, HX |- *. rewrite HF, HS, HX.
        simpl.
        change (omap submission (map (mintSubmission env) rest ++ E5))
          with (sends (map (mintSubmission env) rest ++ E5)).
        rewrite sends_app, (sends_phase 6 E5), app_nil_r
          by (assumption || lia).
        rewrite sends_mintSubmissions, envelopes_mintSubmissions.
        change (envelope (submitted (rtx, processed, true))
                  :: map envelope rest)
          with (map envelope (rtx :: rest)).
        rewrite Hsigned.
        split; [reflexivity|]. split; [exact Hreq|]. split; reflexivity.
Qed.

(** ** The builder calls of a mint call *)

Lemma mintLoop_events `{ML : MerkleLib} (env : Env) (cm : CandyMachine)
    (opts : MintOpts) (al : option AllowListSettings) (indices : list nat)
    (acc plan : list TransactionBuilder) :
  snd (mintLoop env cm opts al indices acc) = inr plan ->
  fst (mintLoop env cm opts al indices acc)
  = map (fun i => MintBuilderCall i (mintParams cm opts al i)) indices.
Proof.
  revert acc. induction indices as [|i rest IH]; intros acc; simpl;
    [reflexivity|].
  unfold mintFromCandyMachineBuilder. simpl.
  destruct (mintBuilder env i (mintParams cm opts al i)) as [e|[signers ctx]];
    simpl; [discriminate|].
  match goal with |- context [mintLoop env cm opts al rest ?a] =>
    specialize (IH a); destruct (mintLoop env cm opts al rest a) as [E r]
  end.
  simpl in *. intros H. now rewrite (IH H).
Qed.

Lemma buildPlan_events `{ML : MerkleLib} (env : Env)
    (allowLists : option (list AllowList)) (wallet_publicKey : option PublicKey)
    (cm : CandyMachine) (q : Z) (opts : MintOpts)
    (al : option AllowListSettings) (plan : list TransactionBuilder) :
  snd (buildPlan env allowLists wallet_publicKey cm q opts al) = inr plan ->
  fst (buildPlan env allowLists wallet_publicKey cm q opts al)
  = map (fun i => MintBuilderCall i (mintParams cm opts al i))
      (seq 0 (Z.to_nat q)).
Proof.
  unfold buildPlan, IO.bind, IO.lift.
  destruct (routePart env allowLists wallet_publicKey cm opts al) as [e|route];
    [discriminate|].
  pose proof (mintLoop_events env cm opts al (seq 0 (Z.to_nat q)) route plan)
    as H.
  destruct (mintLoop env cm opts al _ route) as [E r]. exact H.
Qed.

Lemma builderCalls_events (f : nat -> MintParams) (indices : list nat) :
  builderCalls (map (fun i => MintBuilderCall i (f i)) indices)
  = map (fun i => (i, f i)) indices.
Proof.
  induction indices as [|i rest IH]; [reflexivity|].
  unfold builderCalls in *. simpl. f_equal. exact IH.
Qed.

(** Only the plan stage calls the builder. *)
Lemma network_builderCalls `{ML : MerkleLib} (env : Env)
    (allowLists : option (list AllowList)) (wallet_publicKey : option PublicKey)
    (cm : CandyMachine) (q : Z) (opts : MintOpts)
    (al : option AllowListSettings) :
  builderCalls (fst (network env allowLists wallet_publicKey cm q opts al))
  = builderCalls
      (fst (buildPlan env allowLists wallet_publicKey cm q opts al)).
Proof.
  destruct (network_blocks env allowLists wallet_publicKey cm q opts al)
    as (E1 & F & E2 & E3 & E4 & E5 & HN & H1 & HF & H2 & H3 & H4 & H5 & _).
  revert HN. rewrite network_eq.
  destruct (buildPlan env allowLists wallet_publicKey cm q opts al)
    as [B [e|plan]]; cbn [fst snd].
  { reflexivity. }
  assert (Hrest : forall E,
            Forall (fun ev => (1 < phase ev)%nat) E ->
            builderCalls (B ++ E) = builderCalls B).
  { intros E HE. rewrite builderCalls_app.
    assert (Hnil : builderCalls E = []).
    { induction HE as [|ev E Hev _ IH]; [reflexivity|].
      unfold builderCalls in *. destruct ev; simpl; try exact IH.
      simpl in Hev. lia. }
    now rewrite Hnil, app_nil_r. }
  intros _. clear E1 F E2 E3 E4 E5 H1 HF H2 H3 H4 H5.
  destruct (getLatestBlockhash env) as [e|bh]; cbn [fst].
  { apply Hrest. repeat constructor. }
  destruct (forEachTransaction _ _ _ _ _ _) as [signers txs].
  pose proof (signLoop_phase env signers txs) as H2.
  destruct (signLoop env signers txs) as [E2 [e|txs']]; cbn [fst] in *.
  { apply Hrest. constructor; [simpl; lia|].
    eapply Forall_impl; [exact H2|]. simpl. intros ev ->. lia. }
  pose proof (submitRoute_phase env al txs' plan) as H3.
  destruct (submitRoute env al txs' plan) as [E3 [e|[stx bs]]];
    cbn [fst] in *.
  { apply Hrest. constructor; [simpl; lia|]. apply Forall_app. split;
      (eapply Forall_impl; [eassumption|]); simpl; intros ev ->; lia. }
  pose proof (submitMints_phase env bs stx) as H4.
  destruct (submitMints env bs stx) as [E4 [e|output]]; cbn [fst] in *.
  { apply Hrest. constructor; [simpl; lia|].
    repeat (apply Forall_app; split);
      (eapply Forall_impl; [eassumption|]); simpl; intros ev ->; lia. }
  pose proof (lookupAll_phase env output) as H5.
  destruct (lookupAll env output) as [E5 r]; cbn [fst] in *.
  apply Hrest. constructor; [simpl; lia|].
  repeat (apply Forall_app; split);
    (eapply Forall_impl; [eassumption|]); simpl; intros ev ->; lia.
Qed.

(** C7. The plan of a mint call does not depend on the guards of the
    group: it is decided by the label of the call and the memo.  For a
    call with quantity [q] whose plan is built, the plan is one leading
    route builder, made for guard ["allowList"] and the requested group
    and carrying the wallet's proof, when the call names a label that has
    an entry in [merkles], and no route builder otherwise; then exactly
    [q] mint builders, the one of request index [i] made with
    [nftGuards[i]] and the same allow-list settings; these are the
    builder calls that the call makes, in order.  With quantity 3 and no
    entry the plan is exactly 3 mint builders. *)
Theorem plan_shape `{ML : MerkleLib} (env : Env)
    (allowLists : option (list AllowList)) (wallet_publicKey : option PublicKey)
    (candyMachine : option CandyMachine) (guardsAndGroups : gmap string GuardGroup)
    (q : option Z) (opts : MintOpts) (s : St) (cm : CandyMachine)
    (al : option AllowListSettings) (plan : list TransactionBuilder) :
  is_Some (guardsAndGroups !! labelOrDefault opts) ->
  candyMachine = Some cm ->
  allowListOf allowLists wallet_publicKey opts = inr al ->
  snd (buildPlan env allowLists wallet_publicKey cm (default 1 q) opts al)
  = inr plan ->
  let label := opts_groupLabel opts in
  let entry :=
    if truthy_string label
    then merkles (proofMemo allowLists wallet_publicKey)
           ≫= (fun ms => ms !! default "" label)
    else None in
  let settings :=
    (fun merkle => {| settings_proof := proof merkle |}) <$> entry in
  let params := fun i : nat =>
    {| mint_candyMachine := cm;
       collectionUpdateAuthority := authorityAddress cm;
       mint_group := label;
       guards :=
         {| nftBurn := nftGuards opts ≫= (fun gs => gs !! i ≫= burn);
            nftPayment := nftGuards opts ≫= (fun gs => gs !! i ≫= payment);
            nftGate := nftGuards opts ≫= (fun gs => gs !! i ≫= gate);
            guards_allowList := settings |} |} in
  let route :=
    match entry with
    | Some merkle =>
        [callCandyGuardRouteBuilder env
           {| route_candyMachine := cm;
              route_guard := "allowList";
              route_group := label;
              route_path := "proof";
              route_merkleProof := proof merkle |}]
    | None => []
    end in
  let m := mint env allowLists wallet_publicKey candyMachine guardsAndGroups
             q opts s in
  al = settings
  /\ (forall merkle, entry = Some merkle -> proof merkle <> [])
  /\ (exists mints,
        plan = route ++ mints
        /\ length mints = Z.to_nat (default 1 q)
        /\ forall i t, mints !! i = Some t ->
                       tb_instruction t = MintIx (params i))
  /\ (exists evs,
        trace (snd m) = trace s ++ evs
        /\ builderCalls evs
           = map (fun i => (i, params i)) (seq 0 (Z.to_nat (default 1 q))))
  /\ (default 1 q = 3 -> entry = None ->
      length plan = 3%nat
      /\ Forall (fun t => isRouteIx (tb_instruction t) = false) plan).
Proof.
  intros Hknown Hcm Hal Hplan. cbv zeta.
  set (label := opts_groupLabel opts).
  set (entry := if truthy_string label
                then merkles (proofMemo allowLists wallet_publicKey)
                       ≫= (fun ms => ms !! default "" label)
                else None).
  assert (Hsettings :
            al = (fun merkle => {| settings_proof := proof merkle |}) <$> entry).
  { revert Hal. unfold allowListOf, allowListFrom, entry. fold label.
    destruct (truthy_string label); [|intros H; now inversion H].
    destruct (merkles (proofMemo allowLists wallet_publicKey)) as [ms|];
      [|discriminate].
    simpl. destruct (ms !! default "" label); intros H; now inversion H. }
  assert (Hparams : forall i,
    mintParams cm opts al i
    = {| mint_candyMachine := cm;
         collectionUpdateAuthority := authorityAddress cm;
         mint_group := label;
         guards :=
           {| nftBurn := nftGuards opts ≫= (fun gs => gs !! i ≫= burn);
              nftPayment := nftGuards opts ≫= (fun gs => gs !! i ≫= payment);
              nftGate := nftGuards opts ≫= (fun gs => gs !! i ≫= gate);
              guards_allowList :=
                (fun merkle => {| settings_proof := proof merkle |})
                  <$> entry |} |}).
  { intros i. unfold mintParams, nftGuardAt. rewrite <- Hsettings.
    now destruct (nftGuards opts). }
  destruct (buildPlan_spec env allowLists wallet_publicKey cm (default 1 q)
              opts al) as [_ Hspec].
  destruct (Hspec plan Hplan) as (route & mints & Hroute & -> & Hix & _).
  assert (Hlen : length mints = Z.to_nat (default 1 q)).
  { apply (f_equal length) in Hix.
    now rewrite !length_map, length_seq in Hix. }
  assert (Hat : forall i t, mints !! i = Some t ->
            tb_instruction t = MintIx (mintParams cm opts al i)).
  { intros i t Hi.
    assert (Hlt : (i < Z.to_nat (default 1%Z q))%nat).
    { rewrite <- Hlen. eapply lookup_lt_Some. eassumption. }
    apply (f_equal (fun l => l !! i)) in Hix.
    rewrite !list_lookup_fmap, Hi, lookup_seq_lt in Hix by assumption.
    simpl in Hix. now inversion Hix. }
  assert (Hr : (forall merkle, entry = Some merkle -> proof merkle <> [])
               /\ route
                  = match entry with
                    | Some merkle =>
                        [callCandyGuardRouteBuilder env
                           {| route_candyMachine := cm;
                              route_guard := "allowList";
                              route_group := label;
                              route_path := "proof";
                              route_merkleProof := proof merkle |}]
                    | None => []
                    end).
  { destruct entry as [merkle|] eqn:He; simpl in Hsettings; subst al.
    - rewrite (routePart_Some env _ _ cm opts _ Hal) in Hroute.
      cbn [settings_proof] in Hroute.
      destruct (proof merkle) eqn:Ep; [discriminate|].
      split; [intros m0 Hm0; inversion Hm0; subst m0; now rewrite Ep|].
      inversion Hroute. reflexivity.
    - split; [discriminate|]. now inversion Hroute. }
  destruct Hr as [Hproof ->].
  split; [exact Hsettings|]. split; [exact Hproof|]. split; [|split].
  - exists mints. split; [reflexivity|]. split; [exact Hlen|].
    intros i t Hi. now rewrite (Hat i t Hi), Hparams.
  - rewrite mint_eq, (bool_decide_eq_true_2 _ Hknown), Hal, Hcm.
    cbn [negb]. cbv zeta.
    assert (Hcalls :
      builderCalls
        (fst (network env allowLists wallet_publicKey cm (default 1 q) opts al))
      = map (fun i => (i, mintParams cm opts al i))
          (seq 0 (Z.to_nat (default 1 q)))).
    { rewrite network_builderCalls, (buildPlan_events _ _ _ _ _ _ _ _ Hplan).
      apply builderCalls_events. }
    assert (Hmap :
      map (fun i => (i, mintParams cm opts al i))
        (seq 0 (Z.to_nat (default 1 q)))
      = map (fun i : nat =>
               (i, {| mint_candyMachine := cm;
                      collectionUpdateAuthority := authorityAddress cm;
                      mint_group := label;
                      guards :=
                        {| nftBurn :=
                             nftGuards opts ≫= (fun gs => gs !! i ≫= burn);
                           nftPayment :=
                             nftGuards opts ≫= (fun gs => gs !! i ≫= payment);
                           nftGate :=
                             nftGuards opts ≫= (fun gs => gs !! i ≫= gate);
                           guards_allowList :=
                             (fun merkle =>
                                {| settings_proof := proof merkle |})
                               <$> entry |} |}))
          (seq 0 (Z.to_nat (default 1 q)))).
    { apply map_ext. intros i. now rewrite Hparams. }
    destruct (snd (network env allowLists wallet_publicKey cm (default 1 q)
                     opts al)) as [e|found]; cbn [snd trace];
      eexists; (split; [reflexivity|]);
      rewrite builderCalls_wrap by (repeat constructor; simpl; lia);
      now rewrite Hcalls.
  - intros Hq Hnone. rewrite Hnone. cbn [app]. rewrite Hq in Hlen.
    split; [exact Hlen|].
    apply Forall_forall. intros t Ht. apply list_elem_of_lookup in Ht as [i Hi].
    now rewrite (Hat i t Hi).
Qed.

Lemma plan_shape_witness :
  let guards0 := {| burn := Some "nftA"; payment := None; gate := None |} in
  let guards1 := {| burn := None; payment := Some "nftB"; gate := None |} in
  let opts := {| opts_groupLabel := Some "wl";
                 nftGuards := Some [guards0; guards1] |} in
  let plan := resolved
                (snd (@buildPlan listMerkle (Demo.env false [] [])
                        Demo.allowLists (Some "A") Demo.cm 3 opts
                        (Some {| settings_proof :=
                                   @getMerkleProof listMerkle
                                     ["A"; "B"; "C"] "A" |}))) in
  map (fun t => isRouteIx (tb_instruction t)) plan
  = [true; false; false; false]
  /\ exists mints,
       length mints = 3%nat
       /\ forall i t, mints !! i = Some t ->
            exists p,
              tb_instruction t = MintIx p
              /\ nftBurn (guards p) = [guards0; guards1] !! i ≫= burn
              /\ nftPayment (guards p) = [guards0; guards1] !! i ≫= payment.
Proof.
  intros guards0 guards1 opts plan.
  split; [vm_compute; reflexivity|].
  destruct (@plan_shape listMerkle (Demo.env false [] []) Demo.allowLists
              (Some "A") (Some Demo.cm) (Demo.groups []) (Some 3) opts Demo.s0
              Demo.cm
              (Some {| settings_proof :=
                         @getMerkleProof listMerkle ["A"; "B"; "C"] "A" |})
              plan)
    as (_ & _ & (mints & _ & Hlen & Hat) & _).
  - vm_compute. now eexists.
  - reflexivity.
  - vm_compute. reflexivity.
  - vm_compute. reflexivity.
  - exists mints. split; [exact Hlen|].
    intros i t Hi. eexists. split; [exact (Hat i t Hi)|].
    split; reflexivity.
Defined.

(** C7, as stated, fails: the default group has an allow-list guard, with
    the root of the list configured for ["default"], which [verifyProof]
    accepts, and the wallet has a proof in that list; a call without a
    label for 3 items builds 3 mint builders and no route builder, and no
    route transaction is submitted. *)
Lemma plan_ignores_group_guards :
  let root := @getRoot listMerkle (@getMerkleTree listMerkle ["A"; "B"]) in
  let groups := Demo.groups root in
  let opts := Demo.opts None in
  let plan := resolved
                (snd (@buildPlan listMerkle (Demo.env false [] [])
                        Demo.allowLists (Some "A") Demo.cm 3 opts None)) in
  let m := @mint listMerkle (Demo.env false [] []) Demo.allowLists (Some "A")
             (Some Demo.cm) groups (Some 3) opts Demo.s0 in
  (allowList <$> groups !! "default") = Some (Some root)
  /\ verifyProof (@proofMemo listMerkle Demo.allowLists (Some "A"))
       (RootBytes root) None = Some true
  /\ @getMerkleProof listMerkle ["A"; "B"] "A" <> []
  /\ @allowListOf listMerkle Demo.allowLists (Some "A") opts = inr None
  /\ map (fun t => isRouteIx (tb_instruction t)) plan = [false; false; false]
  /\ map (fun x => (isRouteIx (tx_instruction (submitted x)), snd (fst x)))
       (sends (trace (snd m)))
     = [(false, finalized); (false, finalized); (false, finalized)]
  /\ length (builderCalls (trace (snd m))) = 3%nat.
Proof.
  intros root groups opts plan m.
  split; [vm_compute; reflexivity|]. split; [vm_compute; reflexivity|].
  split; [vm_compute; discriminate|].
  split; [vm_compute; reflexivity|]. split; [vm_compute; reflexivity|].
  split; vm_compute; reflexivity.
Qed.

(** C9. In a mint call the latest blockhash is fetched at most once, and
    exactly once when the plan is built.  Every transaction that the call
    then hands to a wallet for signing or submits is the transaction of
    a builder of the plan, in the order of the plan, with the wallet as
    fee payer and the fetched blockhash; each signing request holds all
    of them, and unless signing or the route submission fails, all of
    them are submitted, the route transaction and every mint
    transaction. *)
Theorem mint_single_blockhash `{ML : MerkleLib} (env : Env)
    (allowLists : option (list AllowList)) (wallet_publicKey : option PublicKey)
    (candyMachine : option CandyMachine) (guardsAndGroups : gmap string GuardGroup)
    (q : option Z) (opts : MintOpts) (s : St) :
  let m := mint env allowLists wallet_publicKey candyMachine guardsAndGroups
             q opts s in
  exists evs,
    trace (snd m) = trace s ++ evs
    /\ (blockhashFetches evs <= 1)%nat
    /\ forall cm al plan,
        is_Some (guardsAndGroups !! labelOrDefault opts) ->
        allowListOf allowLists wallet_publicKey opts = inr al ->
        candyMachine = Some cm ->
        snd (buildPlan env allowLists wallet_publicKey cm (default 1 q) opts al)
        = inr plan ->
        blockhashFetches evs = 1%nat
        /\ forall bh,
            getLatestBlockhash env = inr bh ->
            Forall (fun handed =>
                      map envelope handed
                      = map (planned wallet_publicKey bh) plan)
              (signingRequests evs)
            /\ map (fun x => envelope (submitted x)) (sends evs)
               `prefix_of` map (planned wallet_publicKey bh) plan
            /\ ((forall pk l, signAllTransactions env pk l = None) ->
                (forall tx,
                   succeeded (sendAndConfirmTransaction env tx processed)
                   = true) ->
                map (fun x => envelope (submitted x)) (sends evs)
                = map (planned wallet_publicKey bh) plan).
Proof.
  cbv zeta. rewrite mint_eq.
  destruct (bool_decide (is_Some (guardsAndGroups !! labelOrDefault opts)))
    eqn:Hk; cbn [negb].
  2:{ exists []. cbn [snd]. rewrite app_nil_r. split; [reflexivity|].
      split; [change (blockhashFetches []) with 0%nat; lia|].
      intros cm al plan Hknown.
      apply bool_decide_eq_false in Hk. contradiction. }
  destruct (allowListOf allowLists wallet_publicKey opts) as [e|al] eqn:Hal.
  { exists []. cbn [snd]. rewrite app_nil_r. split; [reflexivity|].
    split; [change (blockhashFetches []) with 0%nat; lia|].
    intros cm al plan _ H. discriminate. }
  destruct candyMachine as [cm|].
  2:{ cbn [snd trace]. eexists. split; [reflexivity|].
      split; [rewrite (quiet_fetches _ (quiet_failure_tail _)); lia|].
      intros cm al' plan _ _ H. discriminate. }
  cbv zeta.
  destruct (network_blockhash env allowLists wallet_publicKey cm (default 1 q)
              opts al) as (Hle & Hone & _).
  assert (Hmain : forall tl,
    Forall quiet tl -> Forall (fun ev => (6 < phase ev)%nat) tl ->
    let evs := SetMinting true
               :: fst (network env allowLists wallet_publicKey cm
                         (default 1 q) opts al) ++ tl in
    (blockhashFetches evs <= 1)%nat
    /\ forall cm' al' plan,
        is_Some (guardsAndGroups !! labelOrDefault opts) ->
        @inr Error _ al = inr al' ->
        Some cm = Some cm' ->
        snd (buildPlan env allowLists wallet_publicKey cm' (default 1 q) opts
               al') = inr plan ->
        blockhashFetches evs = 1%nat
        /\ forall bh,
            getLatestBlockhash env = inr bh ->
            Forall (fun handed =>
                      map envelope handed
                      = map (planned wallet_publicKey bh) plan)
              (signingRequests evs)
            /\ map (fun x => envelope (submitted x)) (sends evs)
               `prefix_of` map (planned wallet_publicKey bh) plan
            /\ ((forall pk l, signAllTransactions env pk l = None) ->
                (forall tx,
                   succeeded (sendAndConfirmTransaction env tx processed)
                   = true) ->
                map (fun x => envelope (submitted x)) (sends evs)
                = map (planned wallet_publicKey bh) plan)).
  { intros tl Hq Hl. cbv zeta.
    rewrite (fetches_wrap _ _ Hq), (sends_wrap _ _ Hq),
      (signingRequests_wrap _ _ Hl).
    split; [exact Hle|].
    intros cm' al' plan _ Hal' Hcm' Hplan.
    inversion Hal'; subst al'. inversion Hcm'; subst cm'.
    split; [apply Hone; now rewrite Hplan|].
    intros bh Hbh.
    destruct (network_stamps_plan env allowLists wallet_publicKey cm
                (default 1 q) opts al plan bh Hplan Hbh)
      as (_ & Hreq & Hpre & Hall).
    now repeat split. }
  destruct (snd (network env allowLists wallet_publicKey cm (default 1 q)
                   opts al)) as [e|found]; cbn [snd trace];
    eexists; (split; [reflexivity|]).
  - apply Hmain; [apply quiet_failure_tail|repeat constructor; simpl; lia].
  - apply Hmain; [apply quiet_success_tail|repeat constructor; simpl; lia].
Qed.

Lemma mint_single_blockhash_witness :
  let m := @mint listMerkle (Demo.env false [] []) Demo.allowLists (Some "A")
             (Some Demo.cm) (Demo.groups []) (Some 3) (Demo.opts (Some "wl"))
             Demo.s0 in
  blockhashFetches (trace (snd m)) = 1%nat
  /\ map (fun x => (isRouteIx (tx_instruction (submitted x)),
                    feePayer (submitted x),
                    recentBlockhash (submitted x)))
       (sends (trace (snd m)))
     = [(true, Some "A", Some "bh1"); (false, Some "A", Some "bh1");
        (false, Some "A", Some "bh1"); (false, Some "A", Some "bh1")].
Proof.
  intros m.
  destruct (@mint_single_blockhash listMerkle (Demo.env false [] [])
              Demo.allowLists (Some "A") (Some Demo.cm) (Demo.groups [])
              (Some 3) (Demo.opts (Some "wl")) Demo.s0)
    as (evs & Htr & _ & Hplanned).
  change (trace Demo.s0 ++ evs) with evs in Htr. fold m in Htr.
  rewrite Htr.
  pose (al := Some {| settings_proof :=
                        @getMerkleProof listMerkle ["A"; "B"; "C"] "A" |}).
  pose (plan := resolved
                  (snd (@buildPlan listMerkle (Demo.env false [] [])
                          Demo.allowLists (Some "A") Demo.cm 3
                          (Demo.opts (Some "wl")) al))).
  destruct (Hplanned Demo.cm al plan) as [Hone Hbh].
  - vm_compute. now eexists.
  - vm_compute. reflexivity.
  - reflexivity.
  - vm_compute. reflexivity.
  - split; [exact Hone|].
    destruct (Hbh {| blockhash := "bh1"; lastValidBlockHeight := 100 |}
                eq_refl) as (_ & _ & Hall).
    assert (Hsent : map (fun x => envelope (submitted x)) (sends evs)
                    = map (planned (Some "A")
                             {| blockhash := "bh1";
                                lastValidBlockHeight := 100 |}) plan).
    { apply Hall; [reflexivity|]. intros tx. reflexivity. }
    apply (f_equal (map (fun e : Instruction * option PublicKey * option string
                           => (isRouteIx (fst (fst e)), snd (fst e), snd e))))
      in Hsent.
    rewrite !map_map in Hsent. cbn [envelope fst snd] in Hsent.
    etransitivity; [exact Hsent|]. vm_compute. reflexivity.
Defined.
